(** * mediamtx: the WebRTC server actor and the fMP4 HLS client processor,
      embedded from the Go sources.

    - [defs]      : internal/defs (ErrAuthentication)
    - [gochan]    : the semantics of a blocking Go [select] over one
                    communication case and one [<-ctx.Done()] case
    - [hls]       : internal/hls/client_processor_fmp4.go
    - [core]      : the WebRTC server (webRTCServer.run, onRequest, newConn,
                    connClose, apiConnsList, apiConnsKick)

    Integers of fixed width are [Z] with the wrap-around written out, Go maps
    are stdpp [gmap]s, Go map-as-set is a [gset] of object references
    together with the store of the referenced objects. *)

From Stdlib Require Import ZArith String Ascii List Bool Lia Permutation.
From stdpp Require Import base option list gmap strings.

Local Open Scope string_scope.
Local Open Scope list_scope.
Local Open Scope Z_scope.

(* ===================================================================== *)
(** ** Go strings *)
(* ===================================================================== *)

Module gostrings.

(** [strings.HasSuffix(s, suffix)]:
    [len(s) >= len(suffix) && s[len(s)-len(suffix):] == suffix]. *)
Definition HasSuffix (s suffix : string) : bool :=
  (String.length suffix <=? String.length s)%nat &&
  String.eqb
    (substring (String.length s - String.length suffix)
               (String.length suffix) s)
    suffix.

(** [s[:len(s)-len(suffix)]], the slice the callers take after a successful
    [HasSuffix]. *)
Definition dropSuffix (s suffix : string) : string :=
  substring 0 (String.length s - String.length suffix) s.

(** [strings.TrimSuffix(s, suffix)]. *)
Definition TrimSuffix (s suffix : string) : string :=
  if HasSuffix s suffix then dropSuffix s suffix else s.

End gostrings.

(** The result of running Go code that can panic at run time. *)
Inductive exec (A : Type) : Type :=
| Ok (a : A)
| Panic (msg : string).
Arguments Ok {A} a.
Arguments Panic {A} msg.

(** [s[1:]]: slicing off the first byte; out of range on the empty string. *)
Definition slice_from_1 (s : string) : exec string :=
  match s with
  | EmptyString => Panic "slice bounds out of range [1:0]"
  | String _ rest => Ok rest
  end.

(** The double quote character, used inside header values. *)
Definition dquote : string := String (ascii_of_nat 34) EmptyString.

(* ===================================================================== *)
(** ** package defs *)
(* ===================================================================== *)

Module defs.

(** [type ErrAuthentication struct { Message string }] *)
Record ErrAuthentication : Type := { Message : string }.

(** [func (e *ErrAuthentication) Error() string] *)
Definition Error (e : ErrAuthentication) : string :=
  "authentication failed: " +:+ Message e.

End defs.

(** Go [error] values as the sources build them: [fmt.Errorf(msg)] and
    [*defs.ErrAuthentication]. *)
Inductive error : Type :=
| errorString (msg : string)
| errAuthentication (e : defs.ErrAuthentication).

Definition error_Error (e : error) : string :=
  match e with
  | errorString msg => msg
  | errAuthentication a => defs.Error a
  end.

(* ===================================================================== *)
(** ** Blocking channel operations *)
(* ===================================================================== *)

Module gochan.

(** How a blocking channel operation resolves. [SelComm]: the communication
    case proceeded; [SelDone]: the [<-ctx.Done()] case proceeded;
    [SelBlock]: no case can ever proceed, the goroutine stays blocked. *)
Inductive selected : Type := SelComm | SelDone | SelBlock.

(** What the rest of the program offers to one blocking operation:
    [commReady], the peer goroutine performs the matching receive (or send)
    on the unbuffered channel; [doneReady], the context is cancelled, so its
    [Done()] channel is closed; [pickComm], the runtime's choice when both
    cases can proceed. *)
Record sched : Type := { commReady : bool; doneReady : bool; pickComm : bool }.

(** [select { case ch <- v: ... ; case <-ctx.Done(): ... }] without a
    [default] case. *)
Definition goSelect (sc : sched) : selected :=
  match commReady sc, doneReady sc with
  | true, true => if pickComm sc then SelComm else SelDone
  | true, false => SelComm
  | false, true => SelDone
  | false, false => SelBlock
  end.

(** A send or receive outside of any [select]: only the peer can release
    it. *)
Definition goBare (sc : sched) : selected :=
  if commReady sc then SelComm else SelBlock.

(** The result of a function whose body may stay blocked. *)
Inductive outcome (A : Type) : Type :=
| Returned (a : A)
| Blocked
| Panicked (msg : string).
Arguments Returned {A} a.
Arguments Blocked {A}.
Arguments Panicked {A} msg.

End gochan.

(* ===================================================================== *)
(** ** package hls: client_processor_fmp4.go *)
(* ===================================================================== *)

Module hls.
Import gochan.

(** Go [uint64] subtraction: [a -= b] wraps around modulo 2^64. *)
Definition uint64_sub (a b : Z) : Z := (a - b) mod 2 ^ 64.

(** [gortsplib.Track] values by dynamic type. *)
Inductive Track : Type :=
| TrackH264 (sps pps : string)
| TrackMPEG4Audio (config : string)
| TrackGeneric.

(** [fmp4.InitTrack], the fields the processor reads. *)
Record InitTrack : Type := {
  InitTrack_ID : Z;
  TimeScale : Z;
  InitTrack_Track : Track
}.

(** [fmp4.PartTrack]: [BaseTime] is a [uint64]. *)
Record PartTrack : Type := {
  ID : Z;
  BaseTime : Z;
  Samples : list string
}.

Definition set_BaseTime (t : PartTrack) (b : Z) : PartTrack :=
  {| ID := ID t; BaseTime := b; Samples := Samples t |}.

Section Processor.

(** The state of the client's user, on which the callbacks [onTracks],
    [onVideoData] and [onAudioData] act. *)
Variable U : Type.

(** [clientProcessorFMP4Track]: its data callback, its [startRTC] and the
    values sent so far on its [queue] channel, oldest first. *)
Record clientProcessorFMP4Track : Type := {
  timeScale : Z;
  onData : Z -> string -> U -> U * option error;
  startRTC : option Z;
  queue : list PartTrack
}.

(** [newClientProcessorFMP4Track(timeScale, onSubpartProcessed, onData)] *)
Definition newClientProcessorFMP4Track (ts : Z)
    (cb : Z -> string -> U -> U * option error) : clientProcessorFMP4Track :=
  {| timeScale := ts; onData := cb; startRTC := None; queue := [] |}.

Definition set_startRTC (now : Z) (t : clientProcessorFMP4Track)
  : clientProcessorFMP4Track :=
  {| timeScale := timeScale t; onData := onData t;
     startRTC := Some now; queue := queue t |}.

(** [t.queue <- track] once the send has proceeded. *)
Definition enqueue (track : PartTrack) (t : clientProcessorFMP4Track)
  : clientProcessorFMP4Track :=
  {| timeScale := timeScale t; onData := onData t;
     startRTC := startRTC t; queue := queue t ++ [track] |}.

(** [type clientProcessorFMP4 struct] *)
Record clientProcessorFMP4 : Type := {
  initVideoTrack : option InitTrack;
  initAudioTrack : option InitTrack;
  videoProc : option clientProcessorFMP4Track;
  audioProc : option clientProcessorFMP4Track;
  clockInitialized : bool;
  startBaseTime : Z
}.

(** What the processor consumes from and leaves in its surroundings: the
    number of blocking operations resolved so far, the number of
    [time.Now()] calls made so far, the logger's lines, and the values of
    the loop variable [track] after the update
    [track.BaseTime -= p.startBaseTime], in the order of the updates. *)
Record rt : Type := {
  nsel : nat;
  nnow : nat;
  logs : list string;
  rebased : list PartTrack
}.

Definition rt0 : rt := {| nsel := 0; nnow := 0; logs := []; rebased := [] |}.

Definition tick_sel (r : rt) : rt :=
  {| nsel := S (nsel r); nnow := nnow r; logs := logs r; rebased := rebased r |}.
Definition tick_now (r : rt) : rt :=
  {| nsel := nsel r; nnow := S (nnow r); logs := logs r; rebased := rebased r |}.
Definition log (line : string) (r : rt) : rt :=
  {| nsel := nsel r; nnow := nnow r; logs := logs r ++ [line];
     rebased := rebased r |}.
Definition record_rebased (t : PartTrack) (r : rt) : rt :=
  {| nsel := nsel r; nnow := nnow r; logs := logs r;
     rebased := rebased r ++ [t] |}.

(** [fmp4.InitRead], [fmp4.PartRead] and [h264.AVCCUnmarshal] are parsers of
    other packages. *)
Variable InitRead : string -> error + (option InitTrack * option InitTrack).
Variable PartRead : string -> error + list PartTrack.
Variable AVCCUnmarshal : string -> error + list string.

(** [now i] is what the [i]-th call of [time.Now()] returns; [sch i] is how
    the [i]-th blocking operation of the processor resolves. *)
Variable now : nat -> Z.
Variable sch : nat -> sched.

(** The data callback of the video track processor (lines 71-79). *)
Definition videoOnData (onVideoData : Z -> list string -> U -> U)
    (pts : Z) (payload : string) (u : U) : U * option error :=
  match AVCCUnmarshal payload with
  | inl err => (u, Some err)
  | inr nalus => (onVideoData pts nalus u, None)
  end.

(** The data callback of the audio track processor (lines 88-90). *)
Definition audioOnData (pts : Z) (payload : string) (u : U)
  : U * option error :=
  (u, None).

(** The type assertion of [initVideoTrack.Track] to [gortsplib.TrackH264],
    which panics on any other dynamic type. *)
Definition assertTrackH264 (t : InitTrack) : exec Track :=
  match InitTrack_Track t with
  | TrackH264 sps pps => Ok (TrackH264 sps pps)
  | _ => Panic "interface conversion: Track is not *gortsplib.TrackH264"
  end.

(** The type assertion of [initAudioTrack.Track] to
    [gortsplib.TrackMPEG4Audio]. *)
Definition assertTrackMPEG4Audio (t : InitTrack) : exec Track :=
  match InitTrack_Track t with
  | TrackMPEG4Audio c => Ok (TrackMPEG4Audio c)
  | _ => Panic "interface conversion: Track is not *gortsplib.TrackMPEG4Audio"
  end.

Definition assertOpt (f : InitTrack -> exec Track) (t : option InitTrack)
  : exec (option Track) :=
  match t with
  | None => Ok None
  | Some it => match f it with Ok tr => Ok (Some tr) | Panic m => Panic m end
  end.

(** [newClientProcessorFMP4]: the processor, the track processors added to
    the routine pool in order, and the user's state after [onTracks]. *)
Definition newClientProcessorFMP4
    (initFile : string)
    (onTracks : option Track -> option Track -> U -> U * option error)
    (onVideoData : Z -> list string -> U -> U)
    (onAudioData : Z -> string -> U -> U)
    (u : U)
  : exec (U * (error + clientProcessorFMP4 * list clientProcessorFMP4Track)) :=
  match InitRead initFile with
  | inl err => Ok (u, inl err)
  | inr (initVideo, initAudio) =>
    match assertOpt assertTrackH264 initVideo with
    | Panic m => Panic m
    | Ok videoTrack =>
      match assertOpt assertTrackMPEG4Audio initAudio with
      | Panic m => Panic m
      | Ok audioTrack =>
        match onTracks videoTrack audioTrack u with
        | (u1, Some err) => Ok (u1, inl err)
        | (u1, None) =>
          let vp :=
            match videoTrack, initVideo with
            | Some _, Some iv =>
                Some (newClientProcessorFMP4Track (TimeScale iv)
                        (videoOnData onVideoData))
            | _, _ => None
            end in
          let ap :=
            match audioTrack, initAudio with
            | Some _, Some ia =>
                Some (newClientProcessorFMP4Track (TimeScale ia) audioOnData)
            | _, _ => None
            end in
          Ok (u1, inr ({| initVideoTrack := initVideo;
                          initAudioTrack := initAudio;
                          videoProc := vp;
                          audioProc := ap;
                          clockInitialized := false;
                          startBaseTime := 0 |},
                       option_list vp ++ option_list ap))
        end
      end
    end
  end.

Definition set_clock (start : Z) (t : Z) (p : clientProcessorFMP4)
  : clientProcessorFMP4 :=
  {| initVideoTrack := initVideoTrack p;
     initAudioTrack := initAudioTrack p;
     videoProc := set_startRTC t <$> videoProc p;
     audioProc := set_startRTC t <$> audioProc p;
     clockInitialized := true;
     startBaseTime := start |}.

Definition set_videoProc (v : clientProcessorFMP4Track)
    (p : clientProcessorFMP4) : clientProcessorFMP4 :=
  {| initVideoTrack := initVideoTrack p;
     initAudioTrack := initAudioTrack p;
     videoProc := Some v;
     audioProc := audioProc p;
     clockInitialized := clockInitialized p;
     startBaseTime := startBaseTime p |}.

(** Lines 123-134: [if !p.clockInitialized { ... }]. *)
Definition initClock (track : PartTrack) (p : clientProcessorFMP4) (r : rt)
  : clientProcessorFMP4 * rt :=
  if clockInitialized p then (p, r)
  else (set_clock (BaseTime track) (now (nnow r)) p, tick_now r).

(** Line 138: [p.initVideoTrack != nil && track.ID == p.initVideoTrack.ID]. *)
Definition isVideoSubpart (p : clientProcessorFMP4) (track : PartTrack)
  : bool :=
  match initVideoTrack p with
  | None => false
  | Some iv => ID track =? InitTrack_ID iv
  end.

Definition terminated : error := errorString "terminated".

(** The body of [for _, track := range subparts] (lines 122-147), with the
    running [processingCount]; [inl] is an early exit of [processSegment]. *)
Fixpoint rangeSubparts (p : clientProcessorFMP4) (r : rt)
    (processingCount : nat) (subparts : list PartTrack)
  : clientProcessorFMP4 * rt * (outcome (option error) + nat) :=
  match subparts with
  | [] => (p, r, inr processingCount)
  | track :: rest =>
    let '(p1, r1) := initClock track p r in
    let track1 :=
      set_BaseTime track (uint64_sub (BaseTime track) (startBaseTime p1)) in
    let r2 := record_rebased track1 r1 in
    if isVideoSubpart p1 track1 then
      match videoProc p1 with
      | None => (p1, r2, inl (Panicked "nil pointer dereference"))
      | Some v =>
        match goSelect (sch (nsel r2)) with
        | SelComm =>
            rangeSubparts (set_videoProc (enqueue track1 v) p1) (tick_sel r2)
                          (S processingCount) rest
        | SelDone => (p1, tick_sel r2, inl (Returned (Some terminated)))
        | SelBlock => (p1, r2, inl Blocked)
        end
      end
    else rangeSubparts p1 r2 processingCount rest
  end.

(** Lines 149-155: one receive on [subpartProcessed] per enqueued subpart. *)
Fixpoint waitProcessed (r : rt) (n : nat) : rt * outcome (option error) :=
  match n with
  | O => (r, Returned None)
  | S n' =>
    match goSelect (sch (nsel r)) with
    | SelComm => waitProcessed (tick_sel r) n'
    | SelDone => (tick_sel r, Returned (Some terminated))
    | SelBlock => (r, Blocked)
    end
  end.

(** [func (p *clientProcessorFMP4) processSegment(ctx, byts) error] *)
Definition processSegment (p : clientProcessorFMP4) (r : rt) (byts : string)
  : clientProcessorFMP4 * rt * outcome (option error) :=
  let r0 := log "processing segment" r in
  match PartRead byts with
  | inl err => (p, r0, Returned (Some err))
  | inr subparts =>
    match rangeSubparts p r0 0 subparts with
    | (p1, r1, inl out) => (p1, r1, out)
    | (p1, r1, inr processingCount) =>
        let '(r2, out) := waitProcessed r1 processingCount in (p1, r2, out)
    end
  end.

(** [func (p *clientProcessorFMP4) run(ctx) error]; [pulled] are the segments
    that [segmentQueue.pull(ctx)] hands over before the context is cancelled,
    after which it reports [!ok]. *)
Fixpoint run (p : clientProcessorFMP4) (r : rt) (pulled : list string)
  : clientProcessorFMP4 * rt * outcome error :=
  match pulled with
  | [] => (p, r, Returned terminated)
  | seg :: rest =>
    match processSegment p r seg with
    | (p1, r1, Returned None) => run p1 r1 rest
    | (p1, r1, Returned (Some err)) => (p1, r1, Returned err)
    | (p1, r1, Blocked) => (p1, r1, Blocked)
    | (p1, r1, Panicked m) => (p1, r1, Panicked m)
    end
  end.

(** [func (p *clientProcessorFMP4) onSubpartProcessed(ctx)] as the track
    processor calls it. *)
Definition onSubpartProcessed (sc : sched) : outcome unit :=
  match goSelect sc with
  | SelComm => Returned tt
  | SelDone => Returned tt
  | SelBlock => Blocked
  end.

(** The part tracks that [run] hands to [rangeSubparts], in order: those of
    the pulled segments up to the first one that [PartRead] rejects. *)
Fixpoint readSubparts (pulled : list string) : list PartTrack :=
  match pulled with
  | [] => []
  | seg :: rest =>
    match PartRead seg with
    | inl _ => []
    | inr subparts => subparts ++ readSubparts rest
    end
  end.

End Processor.

Arguments timeScale {U} _.
Arguments onData {U} _.
Arguments startRTC {U} _.
Arguments queue {U} _.
Arguments initVideoTrack {U} _.
Arguments initAudioTrack {U} _.
Arguments videoProc {U} _.
Arguments audioProc {U} _.
Arguments clockInitialized {U} _.
Arguments startBaseTime {U} _.

(** The rebasing of one part track against a recorded start. *)
Definition rebase (start : Z) (t : PartTrack) : PartTrack :=
  set_BaseTime t (uint64_sub (BaseTime t) start).

(** The zero point a processor in state [p] uses for the part tracks
    [tracks] it is about to see: the recorded one, or the base time of the
    first track when none is recorded yet. *)
Definition clockStart {U : Type} (p : clientProcessorFMP4 U) (tracks : list PartTrack) : Z :=
  if clockInitialized p then startBaseTime p
  else match tracks with
       | t0 :: _ => BaseTime t0
       | [] => startBaseTime p
       end.

(** The clock part of a processor state after [seen] tracks were rebased
    starting from state [p] with [n] earlier [time.Now()] calls. *)
Definition clockAfter {U : Type} (p p' : clientProcessorFMP4 U) (n n' : nat) (start : Z)
    (seen : list PartTrack) : Prop :=
  match seen with
  | [] => clockInitialized p' = clockInitialized p /\
          startBaseTime p' = startBaseTime p /\ n' = n
  | _ :: _ => clockInitialized p' = true /\ startBaseTime p' = start /\
              n' = (n + if clockInitialized p then 0 else 1)%nat
  end.

(** The values sent so far to a track processor's queue. *)
Definition sentTo {U : Type} (t : option (clientProcessorFMP4Track U))
  : list PartTrack :=
  from_option queue [] t.

(** The track processors are gone and the context is cancelled: no peer
    takes part in a communication, every [Done] case can proceed. *)
Definition peers_terminated (sc : nat -> sched) : Prop :=
  forall i, commReady (sc i) = false /\ doneReady (sc i) = true.

End hls.

(* ===================================================================== *)
(** ** package core: the WebRTC server *)
(* ===================================================================== *)

Module core.
Import gochan.

(** *** Data *)

(** What the methods of a connection's peer connection return
    ([localCandidate()], [remoteCandidate()], [bytesReceived()],
    [bytesSent()]); the byte counters are [uint64]. *)
Record peerConnection : Type := {
  localCandidate : string;
  remoteCandidate : string;
  bytesReceived : Z;
  bytesSent : Z
}.

(** A [webRTCConn] object as the server reads it: [c.uuid.String()],
    [c.created], [c.remoteAddr().String()] and [c.safePC()] ([None] is
    [nil]). *)
Record webRTCConn : Type := {
  uuid : string;
  created : Z;
  remoteAddr : string;
  safePC : option peerConnection
}.

(** [type webRTCServerAPIConnsListItem struct] *)
Record webRTCServerAPIConnsListItem : Type := {
  Created : Z;
  RemoteAddr : string;
  PeerConnectionEstablished : bool;
  LocalCandidate : string;
  RemoteCandidate : string;
  BytesReceived : Z;
  BytesSent : Z
}.

(** [type webRTCServerAPIConnsListData struct] *)
Record webRTCServerAPIConnsListData : Type := {
  Items : gmap string webRTCServerAPIConnsListItem
}.

(** [type webRTCServerAPIConnsListRes struct] *)
Record webRTCServerAPIConnsListRes : Type := {
  ListRes_data : option webRTCServerAPIConnsListData;
  ListRes_err : option error
}.

(** [type webRTCServerAPIConnsKickRes struct] *)
Record webRTCServerAPIConnsKickRes : Type := {
  KickRes_err : option error
}.

(** [type webRTCConnNewReq struct], without its reply channel. *)
Record webRTCConnNewReq : Type := {
  pathName : string;
  publish : bool;
  videoCodec : string;
  audioCodec : string;
  videoBitrate : string
}.

(** The fields of [webRTCServer] that [run] and the request operations use.
    [conns] is the Go [map[*webRTCConn]struct{}]: its keys are the addresses
    of the connection objects, each bound here to the object it points to.
    [ctxDone] says that [s.ctx] is cancelled, [running] that [run] is in its
    loop, and [closed] lists the connections on which [run] called
    [close()], oldest first. *)
Record webRTCServer : Type := {
  allowOrigin : string;
  conns : gmap positive webRTCConn;
  ctxDone : bool;
  running : bool;
  closed : list positive
}.

Definition set_conns (m : gmap positive webRTCConn) (s : webRTCServer)
  : webRTCServer :=
  {| allowOrigin := allowOrigin s; conns := m; ctxDone := ctxDone s;
     running := running s; closed := closed s |}.

Definition close_conn (cp : positive) (s : webRTCServer) : webRTCServer :=
  {| allowOrigin := allowOrigin s; conns := conns s; ctxDone := ctxDone s;
     running := running s; closed := closed s ++ [cp] |}.

(** [s.ctxCancel()] *)
Definition ctxCancel (s : webRTCServer) : webRTCServer :=
  {| allowOrigin := allowOrigin s; conns := conns s; ctxDone := true;
     running := running s; closed := closed s |}.

Definition stop (s : webRTCServer) : webRTCServer :=
  {| allowOrigin := allowOrigin s; conns := conns s; ctxDone := ctxDone s;
     running := false; closed := closed s |}.

(** The server as [newWebRTCServer] leaves it when it starts [run]. *)
Definition newWebRTCServer (origin : string) : webRTCServer :=
  {| allowOrigin := origin; conns := ∅; ctxDone := false; running := true;
     closed := [] |}.

(** *** webRTCServer.run: the cases of its select *)

(** Lines 276-299: the list item of one connection. *)
Definition listItem (c : webRTCConn) : webRTCServerAPIConnsListItem :=
  match safePC c with
  | Some pc =>
      {| Created := created c;
         RemoteAddr := remoteAddr c;
         PeerConnectionEstablished := true;
         LocalCandidate := localCandidate pc;
         RemoteCandidate := remoteCandidate pc;
         BytesReceived := bytesReceived pc;
         BytesSent := bytesSent pc |}
  | None =>
      {| Created := created c;
         RemoteAddr := remoteAddr c;
         PeerConnectionEstablished := false;
         LocalCandidate := EmptyString;
         RemoteCandidate := EmptyString;
         BytesReceived := 0;
         BytesSent := 0 |}
  end.

(** [for c := range s.conns] visits the entries in an order the Go runtime
    chooses: [order] is that order, a permutation of the entries. *)
Definition range_order (s : webRTCServer)
    (order : list (positive * webRTCConn)) : Prop :=
  order ≡ₚ map_to_list (conns s).

(** Lines 270-302, [case req := <-s.chAPIConnsList]. *)
Definition onAPIConnsList (order : list (positive * webRTCConn))
  : webRTCServerAPIConnsListRes :=
  let items :=
    foldl (fun (m : gmap string webRTCServerAPIConnsListItem) e =>
             <[uuid e.2 := listItem e.2]> m) ∅ order in
  {| ListRes_data := Some {| Items := items |}; ListRes_err := None |}.

(** Lines 304-319, [case req := <-s.chAPIConnsKick]. *)
Definition onAPIConnsKick (order : list (positive * webRTCConn))
    (id : string) (s : webRTCServer)
  : webRTCServer * webRTCServerAPIConnsKickRes :=
  match List.find (fun e => String.eqb (uuid e.2) id) order with
  | Some e =>
      (close_conn e.1 (set_conns (delete e.1 (conns s)) s),
       {| KickRes_err := None |})
  | None => (s, {| KickRes_err := Some (errorString "not found") |})
  end.

(** Lines 246-265, [case req := <-s.connNew]: [cp] is the address of the
    object [c] that [newWebRTCConn] allocates. *)
Definition onConnNew (cp : positive) (c : webRTCConn) (s : webRTCServer)
  : webRTCServer :=
  set_conns (<[cp := c]> (conns s)) s.

(** Lines 267-268, [case conn := <-s.chConnClose]. *)
Definition onConnClose (cp : positive) (s : webRTCServer) : webRTCServer :=
  set_conns (delete cp (conns s)) s.

(** Lines 321-326: [case <-s.ctx.Done(): break outer], then
    [s.ctxCancel()]; the loop is left in no other way. *)
Definition onCtxDone (s : webRTCServer) : webRTCServer :=
  stop (ctxCancel s).

(** What can happen to the server: its context is cancelled from outside
    ([close()] or the parent context), or [run] takes one case of its
    select. *)
Inductive event : Type :=
| EvCancel
| EvConnNew (req : webRTCConnNewReq) (cp : positive) (c : webRTCConn)
| EvConnClose (cp : positive)
| EvAPIConnsList (order : list (positive * webRTCConn))
| EvAPIConnsKick (order : list (positive * webRTCConn)) (id : string)
| EvCtxDone.

(** One event; [None] when the event cannot happen in [s]: a mailbox case
    needs [run] in its loop, the [Done] case needs a cancelled context. *)
Definition step (ev : event) (s : webRTCServer) : option webRTCServer :=
  match ev with
  | EvCancel => Some (ctxCancel s)
  | EvConnNew _ cp c => if running s then Some (onConnNew cp c s) else None
  | EvConnClose cp => if running s then Some (onConnClose cp s) else None
  | EvAPIConnsList _ => if running s then Some s else None
  | EvAPIConnsKick order id =>
      if running s then Some (onAPIConnsKick order id s).1 else None
  | EvCtxDone => if running s && ctxDone s then Some (onCtxDone s) else None
  end.

(** The states reachable from a started server. *)
Fixpoint steps (evs : list event) (s : webRTCServer) : option webRTCServer :=
  match evs with
  | [] => Some s
  | ev :: rest =>
    match step ev s with
    | Some s1 => steps rest s1
    | None => None
    end
  end.

(** *** The request operations, called from other goroutines *)

(** What a requester's select meets: the send proceeds when [run] is at its
    select, the [Done] case when [s.ctx] is cancelled. *)
Definition offer (pick : bool) (s : webRTCServer) : sched :=
  {| commReady := running s; doneReady := ctxDone s; pickComm := pick |}.

(** [func (s *webRTCServer) newConn(req) *webRTCConn]; [None] is [nil]. *)
Definition newConn (pick : bool) (req : webRTCConnNewReq)
    (cp : positive) (c : webRTCConn) (s : webRTCServer)
  : webRTCServer * outcome (option positive) :=
  match goSelect (offer pick s) with
  | SelComm => (onConnNew cp c s, Returned (Some cp))
  | SelDone => (s, Returned None)
  | SelBlock => (s, Blocked)
  end.

(** [func (s *webRTCServer) connClose(c *webRTCConn)] *)
Definition connClose (pick : bool) (cp : positive) (s : webRTCServer)
  : webRTCServer * outcome unit :=
  match goSelect (offer pick s) with
  | SelComm => (onConnClose cp s, Returned tt)
  | SelDone => (s, Returned tt)
  | SelBlock => (s, Blocked)
  end.

(** [func (s *webRTCServer) apiConnsList() webRTCServerAPIConnsListRes] *)
Definition apiConnsList (pick : bool)
    (order : list (positive * webRTCConn)) (s : webRTCServer)
  : webRTCServer * outcome webRTCServerAPIConnsListRes :=
  match goSelect (offer pick s) with
  | SelComm => (s, Returned (onAPIConnsList order))
  | SelDone =>
      (s, Returned {| ListRes_data := None;
                      ListRes_err := Some (errorString "terminated") |})
  | SelBlock => (s, Blocked)
  end.

(** [func (s *webRTCServer) apiConnsKick(id string)
    webRTCServerAPIConnsKickRes] *)
Definition apiConnsKick (pick : bool)
    (order : list (positive * webRTCConn)) (id : string) (s : webRTCServer)
  : webRTCServer * outcome webRTCServerAPIConnsKickRes :=
  match goSelect (offer pick s) with
  | SelComm =>
      let '(s1, res) := onAPIConnsKick order id s in (s1, Returned res)
  | SelDone =>
      (s, Returned {| KickRes_err := Some (errorString "terminated") |})
  | SelBlock => (s, Blocked)
  end.

(** No two tracked connections carry the same UUID ([newWebRTCConn] draws
    each with [uuid.New()]). *)
Definition uuid_unique (s : webRTCServer) : Prop :=
  forall cp1 cp2 c1 c2,
    conns s !! cp1 = Some c1 -> conns s !! cp2 = Some c2 ->
    uuid c1 = uuid c2 -> cp1 = cp2.

(** No tracked connection has UUID [id]. *)
Definition absent (id : string) (s : webRTCServer) : Prop :=
  forall cp c, conns s !! cp = Some c -> uuid c <> id.

(** The four request operations behind one entry point: a request with the
    values its handler in [run] depends on, and what the caller gets back. *)
Inductive request : Type :=
| ReqNewConn (req : webRTCConnNewReq) (cp : positive) (c : webRTCConn)
| ReqConnClose (cp : positive)
| ReqAPIConnsList (order : list (positive * webRTCConn))
| ReqAPIConnsKick (order : list (positive * webRTCConn)) (id : string).

Inductive reply : Type :=
| RepConn (c : option positive)
| RepVoid
| RepList (res : webRTCServerAPIConnsListRes)
| RepKick (res : webRTCServerAPIConnsKickRes).

Definition outcome_map {A B : Type} (f : A -> B) (o : outcome A)
  : outcome B :=
  match o with
  | Returned a => Returned (f a)
  | Blocked => Blocked
  | Panicked m => Panicked m
  end.

Definition call (pick : bool) (rq : request) (s : webRTCServer)
  : webRTCServer * outcome reply :=
  match rq with
  | ReqNewConn req cp c =>
      let '(s1, o) := newConn pick req cp c s in (s1, outcome_map RepConn o)
  | ReqConnClose cp =>
      let '(s1, o) := connClose pick cp s in
      (s1, outcome_map (fun _ => RepVoid) o)
  | ReqAPIConnsList order =>
      let '(s1, o) := apiConnsList pick order s in (s1, outcome_map RepList o)
  | ReqAPIConnsKick order id =>
      let '(s1, o) := apiConnsKick pick order id s in
      (s1, outcome_map RepKick o)
  end.

(** The error a caller finds in what it got back: [newConn] returns a
    connection pointer and [connClose] returns nothing, so neither carries
    an error. *)
Definition reply_err (rp : reply) : option error :=
  match rp with
  | RepConn _ => None
  | RepVoid => None
  | RepList res => ListRes_err res
  | RepKick res => KickRes_err res
  end.

(** What line 474, 483, 497 and 513 return from the [<-s.ctx.Done()]
    case. *)
Definition reply_on_done (rq : request) : reply :=
  match rq with
  | ReqNewConn _ _ _ => RepConn None
  | ReqConnClose _ => RepVoid
  | ReqAPIConnsList _ =>
      RepList {| ListRes_data := None;
                 ListRes_err := Some (errorString "terminated") |}
  | ReqAPIConnsKick _ _ =>
      RepKick {| KickRes_err := Some (errorString "terminated") |}
  end.

(** *** webRTCServer.onRequest *)

Definition StatusOK : Z := 200.
Definition StatusMovedPermanently : Z := 301.
Definition StatusUnauthorized : Z := 401.
Definition StatusNotFound : Z := 404.

(** [*http.Request] as the handler reads it: [BasicAuth] is [Some (user,
    pass)] when [Request.BasicAuth()] reports credentials, [ClientIP] is
    [ctx.ClientIP()], [Query] is [ctx.Query]. *)
Record Request : Type := {
  Method : string;
  URL_Path : string;
  URL_RawQuery : string;
  Header : gmap string string;
  BasicAuth : option (string * string);
  ClientIP : string;
  Query : string -> string
}.

(** [Header.Get]: the empty string when the header is absent. *)
Definition Header_Get (h : gmap string string) (k : string) : string :=
  default EmptyString (h !! k).

(** The response as the handler leaves it: headers, the status code
    written ([None]: [WriteHeader] was not called) and the body. *)
Record ResponseWriter : Type := {
  header : gmap string string;
  status : option Z;
  body : string
}.

Definition Header_Set (k v : string) (w : ResponseWriter) : ResponseWriter :=
  {| header := <[k := v]> (header w); status := status w; body := body w |}.

Definition WriteHeader (code : Z) (w : ResponseWriter) : ResponseWriter :=
  {| header := header w;
     status := match status w with Some c => Some c | None => Some code end;
     body := body w |}.

Definition Write (b : string) (w : ResponseWriter) : ResponseWriter :=
  {| header := header w; status := status w; body := body w +:+ b |}.

Definition emptyResponse : ResponseWriter :=
  {| header := ∅; status := None; body := EmptyString |}.

(** [authCredentials] *)
Record authCredentials : Type := {
  cred_query : string;
  cred_ip : string;
  cred_user : string;
  cred_pass : string;
  cred_proto : string
}.

Definition authProtocolWebRTC : string := "webrtc".

(** [pathGetPathConfReq] *)
Record pathGetPathConfReq : Type := {
  name : string;
  req_publish : bool;
  credentials : authCredentials
}.

(** Modelled from the spec: the error of a [pathGetPathConfRes] by dynamic
    type (the error types are declared with the path actor, in path.go).
    [pathErrAuth] is the denial of an attach (the spec's
    ErrAuthentication) and wraps the error that describes the reason; any
    other type is a failure of name resolution (the spec's
    ErrPathNotFound). *)
Inductive pathError : Type :=
| pathErrAuth (wrapped : error)
| pathErrOther (e : error).

(** What one run of the handler leaves behind: the response as the handler
    itself has set and written it ([ctx.Writer.Header().Set],
    [ctx.Writer.WriteHeader], [ctx.Writer.Write]), the lines it logged, the
    requests it sent to [pathManager.getPathConf], and the request it handed
    to [s.newConn] after the WebSocket upgrade. What
    [websocket.NewServerConn] does with the [ctx.Writer] it is given (its
    own error response when the upgrade fails, the switch of protocols on
    the connection it takes over when it succeeds) is not recorded in
    [Writer]. *)
Record handled : Type := {
  Writer : ResponseWriter;
  logged : list string;
  getPathConfReqs : list pathGetPathConfReq;
  newConnReq : option webRTCConnNewReq
}.

Definition respond (w : ResponseWriter) : handled :=
  {| Writer := w; logged := []; getPathConfReqs := []; newConnReq := None |}.

(** The outcome of the [switch] of lines 367-396. *)
Inductive routed : Type :=
| RouteReturn (w : ResponseWriter)
| RoutePath (dir fname : string) (pub : bool).

Definition route (w : ResponseWriter) (pa : string) : routed :=
  if gostrings.HasSuffix pa "/publish/ws" then
    RoutePath (gostrings.dropSuffix pa "/publish/ws") "publish/ws" true
  else if gostrings.HasSuffix pa "/publish" then
    RoutePath (gostrings.dropSuffix pa "/publish") "publish" true
  else if gostrings.HasSuffix pa "/ws" then
    RoutePath (gostrings.dropSuffix pa "/ws") "ws" false
  else if String.eqb pa "favicon.ico" then
    RouteReturn w
  else if negb (gostrings.HasSuffix pa "/") then
    RouteReturn
      (WriteHeader StatusMovedPermanently
         (Header_Set "Location" ("/" +:+ pa +:+ "/") w))
  else RoutePath pa EmptyString false.

Section OnRequest.

(** [pathManager.getPathConf] (the [err] of its result) and
    [websocket.NewServerConn] (whether the upgrade succeeds) are calls into
    the path manager and the websocket package; the two index pages are
    embedded files. *)
Variable getPathConf : pathGetPathConfReq -> option pathError.
Variable NewServerConn : Request -> bool.
Variable webrtcReadIndex : string.
Variable webrtcPublishIndex : string.

(** [s.Log(level, format, args...)] prefixes the line. *)
Definition Log (line : string) : string := "[WebRTC] " +:+ line.

(** Lines 433-464: the [switch fname]. *)
Definition serve (w : ResponseWriter) (req : Request)
    (dir fname : string) (calls : list pathGetPathConfReq) : handled :=
  if String.eqb fname EmptyString then
    {| Writer := Write webrtcReadIndex
                   (WriteHeader StatusOK
                      (Header_Set "Content-Type" "text/html" w));
       logged := []; getPathConfReqs := calls; newConnReq := None |}
  else if String.eqb fname "publish" then
    {| Writer := Write webrtcPublishIndex
                   (WriteHeader StatusOK
                      (Header_Set "Content-Type" "text/html" w));
       logged := []; getPathConfReqs := calls; newConnReq := None |}
  else if String.eqb fname "ws" || String.eqb fname "publish/ws" then
    if NewServerConn req then
      {| Writer := w; logged := []; getPathConfReqs := calls;
         newConnReq :=
           Some {| pathName := dir;
                   publish := String.eqb fname "publish/ws";
                   videoCodec := Query req "video_codec";
                   audioCodec := Query req "audio_codec";
                   videoBitrate := Query req "video_bitrate" |} |}
    else
      {| Writer := w; logged := []; getPathConfReqs := calls;
         newConnReq := None |}
  else
    {| Writer := w; logged := []; getPathConfReqs := calls;
       newConnReq := None |}.

(** The request of lines 405-415, with [user], [pass] of
    [ctx.Request.BasicAuth()] (empty when there are no credentials). *)
Definition pathConfReq (req : Request) (dir : string) (pub : bool)
  : pathGetPathConfReq :=
  {| name := dir;
     req_publish := pub;
     credentials :=
       {| cred_query := URL_RawQuery req;
          cred_ip := ClientIP req;
          cred_user := match BasicAuth req with
                       | Some up => up.1
                       | None => EmptyString
                       end;
          cred_pass := match BasicAuth req with
                       | Some up => up.2
                       | None => EmptyString
                       end;
          cred_proto := authProtocolWebRTC |} |}.

(** The value of the challenge header, [Basic realm="mediamtx"]. *)
Definition basicChallenge : string :=
  "Basic realm=" +:+ dquote +:+ "mediamtx" +:+ dquote.

(** Lines 416-431: [if res.err != nil { ... }]. *)
Definition onPathConfError (w : ResponseWriter) (req : Request)
    (preq : pathGetPathConfReq) (e : pathError) : handled :=
  match e with
  | pathErrAuth wrapped =>
    match BasicAuth req with
    | None =>
        {| Writer := WriteHeader StatusUnauthorized
                       (Header_Set "WWW-Authenticate" basicChallenge w);
           logged := []; getPathConfReqs := [preq]; newConnReq := None |}
    | Some _ =>
        {| Writer := WriteHeader StatusUnauthorized w;
           logged := [Log ("authentication error: " +:+ error_Error wrapped)];
           getPathConfReqs := [preq]; newConnReq := None |}
    end
  | pathErrOther _ =>
      {| Writer := WriteHeader StatusNotFound w;
         logged := []; getPathConfReqs := [preq]; newConnReq := None |}
  end.

(** Lines 398-431: the path resolution and the authorization check. *)
Definition authorize (w : ResponseWriter) (req : Request)
    (dir0 fname : string) (pub : bool) : handled :=
  let dir := gostrings.TrimSuffix dir0 "/" in
  if String.eqb dir EmptyString then respond w
  else
    let preq := pathConfReq req dir pub in
    match getPathConf preq with
    | Some e => onPathConfError w req preq e
    | None => serve w req dir fname [preq]
    end.

(** Lines 344-345: the headers every response starts with. *)
Definition corsResponse (s : webRTCServer) : ResponseWriter :=
  Header_Set "Access-Control-Allow-Credentials" "true"
    (Header_Set "Access-Control-Allow-Origin" (allowOrigin s) emptyResponse).

(** [func (s *webRTCServer) onRequest(ctx *gin.Context)] *)
Definition onRequest (s : webRTCServer) (req : Request) : exec handled :=
  let w := corsResponse s in
  if String.eqb (Method req) "GET" then
    match slice_from_1 (URL_Path req) with
    | Panic m => Panic m
    | Ok pa =>
      match route w pa with
      | RouteReturn w1 => Ok (respond w1)
      | RoutePath dir fname pub => Ok (authorize w req dir fname pub)
      end
    end
  else if String.eqb (Method req) "OPTIONS" then
    Ok (respond
          (WriteHeader StatusOK
             (Header_Set "Access-Control-Allow-Headers"
                (Header_Get (Header req) "Access-Control-Request-Headers")
                (Header_Set "Access-Control-Allow-Methods" "GET, OPTIONS"
                   w))))
  else Ok (respond w).

End OnRequest.

End core.

(* ===================================================================== *)
(** ** Concrete inputs *)
(* ===================================================================== *)

Module sample.
Import gochan.

(** *** A client with one H264 and one MPEG-4 audio track *)

Definition videoInit : hls.InitTrack :=
  {| hls.InitTrack_ID := 1; hls.TimeScale := 90000;
     hls.InitTrack_Track := hls.TrackH264 "sps" "pps" |}.

Definition audioInit : hls.InitTrack :=
  {| hls.InitTrack_ID := 2; hls.TimeScale := 48000;
     hls.InitTrack_Track := hls.TrackMPEG4Audio "aac-lc" |}.

Definition InitRead (initFile : string)
  : error + (option hls.InitTrack * option hls.InitTrack) :=
  if String.eqb initFile "init.mp4" then inr (Some videoInit, Some audioInit)
  else inl (errorString "invalid init file").

Definition AVCCUnmarshal (payload : string) : error + list string :=
  inr [payload].

Definition video (base : Z) : hls.PartTrack :=
  {| hls.ID := 1; hls.BaseTime := base; hls.Samples := ["frame"] |}.

Definition audio (base : Z) : hls.PartTrack :=
  {| hls.ID := 2; hls.BaseTime := base; hls.Samples := ["aac"] |}.

(** "seg1" starts at video base time 9000 with audio slightly earlier in
    its own clock, "seg2" follows, "late" holds one audio part track below
    the start of "seg1". *)
Definition PartRead (byts : string) : error + list hls.PartTrack :=
  if String.eqb byts "seg1" then inr [video 9000; audio 4800]
  else if String.eqb byts "seg2" then inr [video 12000; audio 6400]
  else if String.eqb byts "late" then inr [audio 8990]
  else inl (errorString "invalid part").

Definition now (i : nat) : Z := 1700000000 + Z.of_nat i.

(** Every communication proceeds, the context is live. *)
Definition live (i : nat) : sched :=
  {| commReady := true; doneReady := false; pickComm := true |}.

(** The track processors have returned and the context is cancelled. *)
Definition gone (i : nat) : sched :=
  {| commReady := false; doneReady := true; pickComm := false |}.

(** The user's state: the calls it received, newest first. *)
Inductive userCall : Type :=
| GotTracks
| GotVideo (pts : Z) (nalus : list string)
| GotAudio (pts : Z) (payload : string).

Definition onTracks (v a : option hls.Track) (u : list userCall)
  : list userCall * option error := (GotTracks :: u, None).
Definition onVideoData (pts : Z) (nalus : list string) (u : list userCall)
  : list userCall := GotVideo pts nalus :: u.
Definition onAudioData (pts : Z) (payload : string) (u : list userCall)
  : list userCall := GotAudio pts payload :: u.

(** The processor [newClientProcessorFMP4] builds from "init.mp4". *)
Definition fresh : hls.clientProcessorFMP4 (list userCall) :=
  {| hls.initVideoTrack := Some videoInit;
     hls.initAudioTrack := Some audioInit;
     hls.videoProc :=
       Some (hls.newClientProcessorFMP4Track (list userCall) 90000
               (hls.videoOnData (list userCall) AVCCUnmarshal onVideoData));
     hls.audioProc :=
       Some (hls.newClientProcessorFMP4Track (list userCall) 48000
               (hls.audioOnData (list userCall)));
     hls.clockInitialized := false;
     hls.startBaseTime := 0 |}.

(** The same processor with its clock started at base time 9000. *)
Definition started : hls.clientProcessorFMP4 (list userCall) :=
  hls.set_clock (list userCall) 9000 (now 0) fresh.

(** *** A server with two connections *)

Definition conn1 : core.webRTCConn :=
  {| core.uuid := "0b6f2c1e-7a43-4a52-9d3e-5e1f0c9a7b11";
     core.created := 1700000000;
     core.remoteAddr := "192.0.2.10:51000";
     core.safePC := None |}.

Definition conn2 : core.webRTCConn :=
  {| core.uuid := "c2a9d5f4-1b7e-4c0a-8f66-2d4b9e3a1c22";
     core.created := 1700000060;
     core.remoteAddr := "192.0.2.11:51001";
     core.safePC :=
       Some {| core.localCandidate := "host/udp/198.51.100.1/8189";
               core.remoteCandidate := "srflx/udp/192.0.2.11/51001";
               core.bytesReceived := 1200;
               core.bytesSent := 987654 |} |}.

Definition server : core.webRTCServer :=
  {| core.allowOrigin := "*";
     core.conns := <[1%positive := conn1]> (<[2%positive := conn2]> ∅);
     core.ctxDone := false;
     core.running := true;
     core.closed := [] |}.

(** One order in which [run] may range over the two connections. *)
Definition order : list (positive * core.webRTCConn) :=
  [(2%positive, conn2); (1%positive, conn1)].

(** The server after [close()]: cancelled, [run] has returned. *)
Definition stopped : core.webRTCServer :=
  {| core.allowOrigin := "*"; core.conns := ∅; core.ctxDone := true;
     core.running := false; core.closed := [] |}.

Definition connReq : core.webRTCConnNewReq :=
  {| core.pathName := "cam"; core.publish := false;
     core.videoCodec := EmptyString; core.audioCodec := EmptyString;
     core.videoBitrate := EmptyString |}.

(** *** Requests to the path "secure", protected by user u / pass p *)

Definition get (path : string) (auth : option (string * string))
  : core.Request :=
  {| core.Method := "GET";
     core.URL_Path := path;
     core.URL_RawQuery := EmptyString;
     core.Header := ∅;
     core.BasicAuth := auth;
     core.ClientIP := "192.0.2.10";
     core.Query := fun _ => EmptyString |}.

(** A path manager that knows the path "secure" only and accepts u / p;
    its denial names the reason. *)
Definition getPathConf (reason : string) (r : core.pathGetPathConfReq)
  : option core.pathError :=
  if String.eqb (core.name r) "secure" then
    if String.eqb (core.cred_user (core.credentials r)) "u" &&
       String.eqb (core.cred_pass (core.credentials r)) "p"
    then None
    else Some (core.pathErrAuth
                 (errAuthentication {| defs.Message := reason |}))
  else Some (core.pathErrOther (errorString "path is not configured")).

(** A path manager that knows no path at all. *)
Definition getPathConfNone (r : core.pathGetPathConfReq)
  : option core.pathError :=
  Some (core.pathErrOther (errorString "path is not configured")).

Definition NewServerConn (r : core.Request) : bool := true.
Definition readIndex : string := "<html>read</html>".
Definition publishIndex : string := "<html>publish</html>".

(** The handler on the sample server; [respond emptyResponse] stands for a
    panic. *)
Definition handle (gpc : core.pathGetPathConfReq -> option core.pathError)
    (r : core.Request) : core.handled :=
  match core.onRequest gpc NewServerConn readIndex publishIndex server r with
  | Ok h => h
  | Panic _ => core.respond core.emptyResponse
  end.

End sample.

(* ===================================================================== *)
(** ** package core: starting and stopping the WebRTC server *)
(* ===================================================================== *)

Module setup.

(** The listeners [newWebRTCServer] opens: [ln] (HTTP), [udpMuxLn] and
    [tcpMuxLn] (ICE), each with the address it listens on. *)
Inductive listener : Type :=
| HTTPListener (address : string)
| UDPMuxListener (address : string)
| TCPMuxListener (address : string).

Definition listener_eqb (a b : listener) : bool :=
  match a, b with
  | HTTPListener x, HTTPListener y => String.eqb x y
  | UDPMuxListener x, UDPMuxListener y => String.eqb x y
  | TCPMuxListener x, TCPMuxListener y => String.eqb x y
  | _, _ => false
  end.

(** What the operating system answers: [Listen network address] and
    [ListenPacket network address] are [net.Listen] and [net.ListenPacket]
    on [restrictNetwork(network, address)], [LoadX509KeyPair cert key] is
    [tls.LoadX509KeyPair]; [Some err] is a failure. *)
Record netEnv : Type := {
  Listen : string -> string -> option error;
  ListenPacket : string -> string -> option error;
  LoadX509KeyPair : string -> string -> option error
}.

(** A started server: its actor state, its listeners ([None] is [nil]),
    whether it serves TLS, whether it registered with the metrics, and the
    line it logged when it opened. *)
Record instance : Type := {
  server : core.webRTCServer;
  ln : listener;
  tlsConfig : bool;
  udpMuxLn : option listener;
  tcpMuxLn : option listener;
  metricsSet : bool;
  openedLog : string
}.

(** [l.Close()] on the listeners that are open. *)
Fixpoint closeListener (l : listener) (open : list listener)
  : list listener :=
  match open with
  | [] => []
  | x :: rest =>
      if listener_eqb l x then rest else x :: closeListener l rest
  end.

Definition closeIfOpen (l : option listener) (open : list listener)
  : list listener :=
  match l with
  | Some x => closeListener x open
  | None => open
  end.

(** Lines 143-161: an ICE mux listener is opened when its address is not
    empty. *)
Definition openMux (listen : string -> string -> option error)
    (network address : string) (mk : string -> listener)
  : error + option listener :=
  if String.eqb address EmptyString then inr None
  else match listen network address with
       | Some err => inl err
       | None => inr (Some (mk address))
       end.

(** Lines 203-209: the line logged on success. *)
Definition openedLine (address iceUDPMuxAddress iceTCPMuxAddress : string)
    (udp tcp : option listener) : string :=
  let str := "listener opened on " +:+ address +:+ " (HTTP)" in
  let str :=
    match udp with
    | Some _ => str +:+ ", " +:+ iceUDPMuxAddress +:+ " (ICE/UDP)"
    | None => str
    end in
  match tcp with
  | Some _ => str +:+ ", " +:+ iceTCPMuxAddress +:+ " (ICE/TCP)"
  | None => str
  end.

(** [func newWebRTCServer], lines 107-219: the listeners that are open
    when it returns, and the error or the server it returns.
    [metrics] says that the [metrics] argument is not nil. *)
Definition newWebRTCServer (env : netEnv) (address : string)
    (encryption : bool) (serverKey serverCert allowOrigin : string)
    (metrics : bool) (iceUDPMuxAddress iceTCPMuxAddress : string)
  : list listener * (error + instance) :=
  match Listen env "tcp" address with
  | Some err => ([], inl err)
  | None =>
    let l := HTTPListener address in
    match (if encryption then LoadX509KeyPair env serverCert serverKey
           else None) with
    | Some err => (closeListener l [l], inl err)
    | None =>
      match openMux (ListenPacket env) "udp" iceUDPMuxAddress
                    UDPMuxListener with
      | inl err => ([l], inl err)
      | inr udp =>
        match openMux (Listen env) "tcp" iceTCPMuxAddress
                      TCPMuxListener with
        | inl err => (l :: option_list udp, inl err)
        | inr tcp =>
            (l :: option_list udp ++ option_list tcp,
             inr {| server := core.newWebRTCServer allowOrigin;
                    ln := l;
                    tlsConfig := encryption;
                    udpMuxLn := udp;
                    tcpMuxLn := tcp;
                    metricsSet := metrics;
                    openedLog :=
                      core.Log (openedLine address iceUDPMuxAddress
                                  iceTCPMuxAddress udp tcp) |})
        end
      end
    end
  end.

Definition set_server (s : core.webRTCServer) (i : instance) : instance :=
  {| server := s; ln := ln i; tlsConfig := tlsConfig i;
     udpMuxLn := udpMuxLn i; tcpMuxLn := tcpMuxLn i;
     metricsSet := metricsSet i; openedLog := openedLog i |}.

(** Lines 321-340: [run] leaves its loop on the cancelled context, cancels
    again, shuts the HTTP server down and closes [ln], then the two mux
    listeners when they are not nil. *)
Definition runExit (i : instance) (open : list listener)
  : instance * list listener :=
  (set_server (core.onCtxDone (server i)) i,
   closeIfOpen (tcpMuxLn i)
     (closeIfOpen (udpMuxLn i) (closeListener (ln i) open))).

(** [func (s *webRTCServer) close()], lines 226-230: it logs, cancels the
    context and waits on [s.done], which [run] closes when it returns; when
    [run] has returned before, [s.done] is closed already. *)
Definition close (i : instance) (open : list listener)
  : instance * list listener * list string :=
  let i1 := set_server (core.ctxCancel (server i)) i in
  let line := core.Log "listener is closing" in
  if core.running (server i1)
  then (runExit i1 open, [line])
  else (i1, open, [line]).

End setup.

(* ===================================================================== *)
(** ** Notions used in the statements *)
(* ===================================================================== *)

Module props.
Import gochan.

(** A processor with a video init track has a video track processor. *)
Definition wellFormed {U : Type} (p : hls.clientProcessorFMP4 U) : Prop :=
  is_Some (hls.initVideoTrack p) -> is_Some (hls.videoProc p).

(** Every blocking operation of the processor resolves by its
    communication. *)
Definition always_comm (sch : nat -> sched) : Prop :=
  forall i, goSelect (sch i) = SelComm.

(** The error of the first pulled segment that [PartRead] rejects, and
    ["terminated"] when there is none. *)
Fixpoint firstError (PartRead : string -> error + list hls.PartTrack)
    (pulled : list string) : error :=
  match pulled with
  | [] => hls.terminated
  | seg :: rest =>
    match PartRead seg with
    | inl err => err
    | inr _ => firstError PartRead rest
    end
  end.

(** The number of pulled segments up to and including the first one that
    [PartRead] rejects. *)
Fixpoint attempted (PartRead : string -> error + list hls.PartTrack)
    (pulled : list string) : nat :=
  match pulled with
  | [] => 0
  | seg :: rest =>
    match PartRead seg with
    | inl _ => 1
    | inr _ => S (attempted PartRead rest)
    end
  end.

(** Some tracked connection has UUID [id]. *)
Definition tracked (id : string) (s : core.webRTCServer) : Prop :=
  exists cp c, core.conns s !! cp = Some c /\ core.uuid c = id.

(** The last byte of a string. *)
Fixpoint lastChar (s : string) : option ascii :=
  match s with
  | EmptyString => None
  | String c EmptyString => Some c
  | String _ rest => lastChar rest
  end.

(** The wall-clock origins of the video and of the audio track processor
    (the outer [None]: there is no such processor). *)
Definition startRTCs {U : Type} (p : hls.clientProcessorFMP4 U)
  : option (option Z) * option (option Z) :=
  (hls.startRTC <$> hls.videoProc p, hls.startRTC <$> hls.audioProc p).

(** The four endpoints under a path: the read page, the publish page and
    their WebSocket channels; the URL suffix of each, the file name
    [onRequest] derives from it and whether it publishes. *)
Inductive endpoint : Type := ReadPage | PublishPage | ReadWS | PublishWS.

Definition endpointSuffix (e : endpoint) : string :=
  match e with
  | ReadPage => "/"
  | PublishPage => "/publish"
  | ReadWS => "/ws"
  | PublishWS => "/publish/ws"
  end.

Definition endpointFile (e : endpoint) : string :=
  match e with
  | ReadPage => EmptyString
  | PublishPage => "publish"
  | ReadWS => "ws"
  | PublishWS => "publish/ws"
  end.

Definition endpointPublishes (e : endpoint) : bool :=
  match e with
  | ReadPage | ReadWS => false
  | PublishPage | PublishWS => true
  end.

End props.

(* ===================================================================== *)
(** ** More concrete inputs *)
(* ===================================================================== *)

Module sample2.

(** A third connection, not tracked by [sample.server]. *)
Definition conn3 : core.webRTCConn :=
  {| core.uuid := "7d81e0aa-3c5b-4f19-b2a4-90e6f1d3c033";
     core.created := 1700000120;
     core.remoteAddr := "192.0.2.12:51002";
     core.safePC := None |}.

(** An operating system on which every listener opens, and one on which
    the UDP port is taken. *)
Definition everythingOpens : setup.netEnv :=
  {| setup.Listen := fun _ _ => None;
     setup.ListenPacket := fun _ _ => None;
     setup.LoadX509KeyPair := fun _ _ => None |}.

Definition udpTaken : setup.netEnv :=
  {| setup.Listen := fun _ _ => None;
     setup.ListenPacket :=
       fun _ _ => Some (errorString "bind: address already in use");
     setup.LoadX509KeyPair := fun _ _ => None |}.

(** [newWebRTCServer] with the default addresses. *)
Definition start (env : setup.netEnv)
  : list setup.listener * (error + setup.instance) :=
  setup.newWebRTCServer env ":8889" false "server.key" "server.crt" "*"
                        false ":8189" EmptyString.

End sample2.

(* ===================================================================== *)
(** * Properties of the fMP4 client processor *)
(* ===================================================================== *)

Section ProcessorProperties.
Import gochan hls.

Variable U : Type.
Variable PartRead : string -> error + list PartTrack.
Variable now : nat -> Z.
Variable sch : nat -> sched.

Local Abbreviation proc := (clientProcessorFMP4 U).
Local Abbreviation rangeSubparts := (hls.rangeSubparts U now sch).
Local Abbreviation waitProcessed := (hls.waitProcessed sch).
Local Abbreviation processSegment := (hls.processSegment U PartRead now sch).
Local Abbreviation run := (hls.run U PartRead now sch).
Local Abbreviation readSubparts := (hls.readSubparts PartRead).

Lemma rangeSubparts_initialized (subs : list PartTrack) :
  forall (p : proc) r pc p' r' res,
    clockInitialized p = true ->
    rangeSubparts p r pc subs = (p', r', res) ->
    clockInitialized p' = true /\ startBaseTime p' = startBaseTime p /\
    nnow r' = nnow r /\ logs r' = logs r /\
    exists seen,
      seen `prefix_of` subs /\
      rebased r' = rebased r ++ map (rebase (startBaseTime p)) seen /\
      match res with inr _ => seen = subs | inl _ => seen <> [] end.
Proof.
  induction subs as [|track rest IH]; intros p r pc p' r' res Hinit Hrun.
  - simpl in Hrun. inversion Hrun; subst.
    repeat split; try done. exists []. rewrite app_nil_r. done.
  - simpl in Hrun. unfold initClock in Hrun. rewrite Hinit in Hrun.
    set (track1 := set_BaseTime track _) in Hrun.
    assert (Htrack : track1 = rebase (startBaseTime p) track) by done.
    destruct (isVideoSubpart U p track1).
    + destruct (videoProc p) as [v|].
      * destruct (goSelect _).
        -- apply IH in Hrun; [|done].
           destruct Hrun as (H1 & H2 & H3 & H4 & seen & Hp & Hr & Hres).
           simpl in *. repeat split; try done.
           exists (track :: seen). split; [by apply prefix_cons|].
           split.
           ++ rewrite Hr, Htrack. simpl. by rewrite <- app_assoc.
           ++ destruct res; [done|]. by f_equal.
        -- inversion Hrun; subst. simpl. repeat split; try done.
           exists [track]. split; [apply prefix_cons, prefix_nil|]. done.
        -- inversion Hrun; subst. simpl. repeat split; try done.
           exists [track]. split; [apply prefix_cons, prefix_nil|]. done.
      * inversion Hrun; subst. simpl. repeat split; try done.
        exists [track]. split; [apply prefix_cons, prefix_nil|]. done.
    + apply IH in Hrun; [|done].
      destruct Hrun as (H1 & H2 & H3 & H4 & seen & Hp & Hr & Hres).
      simpl in *. repeat split; try done.
      exists (track :: seen). split; [by apply prefix_cons|].
      split.
      * rewrite Hr, Htrack. simpl. by rewrite <- app_assoc.
      * destruct res; [done|]. by f_equal.
Qed.

Lemma rangeSubparts_clock (subs : list PartTrack) (p : proc) r pc p' r' res :
  rangeSubparts p r pc subs = (p', r', res) ->
  logs r' = logs r /\
  exists seen,
    seen `prefix_of` subs /\
    rebased r' = rebased r ++ map (rebase (clockStart p subs)) seen /\
    match res with inr _ => seen = subs | inl _ => seen <> [] end /\
    clockAfter p p' (nnow r) (nnow r') (clockStart p subs) seen.
Proof.
  intros Hrun. unfold clockStart.
  destruct (clockInitialized p) eqn:Hinit.
  - apply rangeSubparts_initialized in Hrun; [|done].
    destruct Hrun as (H1 & H2 & H3 & H4 & seen & Hp & Hr & Hres).
    split; [done|]. exists seen. repeat split; try done.
    unfold clockAfter. rewrite Hinit.
    destruct seen; repeat split; try done; lia.
  - destruct subs as [|track rest].
    + simpl in Hrun. inversion Hrun; subst. split; [done|].
      exists []. rewrite app_nil_r. by repeat split.
    + simpl in Hrun. unfold initClock in Hrun. rewrite Hinit in Hrun.
      set (p1 := set_clock U (BaseTime track) _ p) in Hrun.
      set (track1 := set_BaseTime track _) in Hrun.
      assert (Htrack : track1 = rebase (BaseTime track) track) by done.
      assert (Hp1 : clockInitialized p1 = true) by done.
      assert (Hs1 : startBaseTime p1 = BaseTime track) by done.
      assert (Hone : forall q r0,
                 clockInitialized q = true -> startBaseTime q = BaseTime track ->
                 nnow r0 = S (nnow r) -> logs r0 = logs r ->
                 rebased r0 = rebased r ++ [track1] ->
                 logs r0 = logs r /\
                 exists seen,
                   seen `prefix_of` track :: rest /\
                   rebased r0 =
                     rebased r ++ map (rebase (BaseTime track)) seen /\
                   seen <> [] /\
                   clockAfter p q (nnow r) (nnow r0) (BaseTime track) seen).
      { intros q r0 Hq Hs Hn Hl Hr. split; [done|]. exists [track].
        split; [apply prefix_cons, prefix_nil|].
        rewrite Hr, Htrack. repeat split; try done.
        rewrite Hinit. lia. }
      assert (Hrec : forall q r0 pc0,
                 clockInitialized q = true -> startBaseTime q = BaseTime track ->
                 nnow r0 = S (nnow r) -> logs r0 = logs r ->
                 rebased r0 = rebased r ++ [track1] ->
                 rangeSubparts q r0 pc0 rest = (p', r', res) ->
                 logs r' = logs r /\
                 exists seen,
                   seen `prefix_of` track :: rest /\
                   rebased r' =
                     rebased r ++ map (rebase (BaseTime track)) seen /\
                   match res with
                   | inr _ => seen = track :: rest
                   | inl _ => seen <> []
                   end /\
                   clockAfter p p' (nnow r) (nnow r') (BaseTime track) seen).
      { intros q r0 pc0 Hq Hs Hn Hl Hr Hgo.
        apply rangeSubparts_initialized in Hgo; [|done].
        destruct Hgo as (H1 & H2 & H3 & H4 & seen & Hp & Hrb & Hres).
        split; [congruence|]. exists (track :: seen).
        split; [by apply prefix_cons|]. split.
        - rewrite Hrb, Hr, Hs, Htrack. simpl. by rewrite <- app_assoc.
        - split; [destruct res; [done | by f_equal]|].
          simpl. rewrite Hinit. repeat split; [congruence..|lia]. }
      destruct (isVideoSubpart U p1 track1).
      * destruct (videoProc p1) as [v|].
        -- destruct (goSelect _).
           ++ eapply Hrec; [| | | | |exact Hrun]; done.
           ++ inversion Hrun; subst p' r' res. by apply (Hone p1).
           ++ inversion Hrun; subst p' r' res. by apply (Hone p1).
        -- inversion Hrun; subst p' r' res. by apply (Hone p1).
      * eapply Hrec; [| | | | |exact Hrun]; done.
Qed.

Lemma waitProcessed_frame (n : nat) :
  forall r r' out,
    waitProcessed r n = (r', out) ->
    nnow r' = nnow r /\ logs r' = logs r /\ rebased r' = rebased r.
Proof.
  induction n as [|n IH]; intros r r' out H; simpl in H.
  - by inversion H.
  - destruct (goSelect _).
    + apply IH in H. by simpl in H.
    + by inversion H.
    + by inversion H.
Qed.

Lemma rangeSubparts_exit (subs : list PartTrack) :
  forall (p : proc) r pc p' r' o,
    rangeSubparts p r pc subs = (p', r', inl o) ->
    o <> Returned None.
Proof.
  induction subs as [|track rest IH]; intros p r pc p' r' o H; simpl in H.
  - done.
  - destruct (initClock U now track p r) as [p1 r1].
    destruct (isVideoSubpart U p1 _); [|by eapply IH].
    destruct (videoProc p1); [|by inversion H].
    destruct (goSelect _); [by eapply IH|by inversion H..].
Qed.

Lemma processSegment_clock (p : proc) r byts p' r' out :
  processSegment p r byts = (p', r', out) ->
  match PartRead byts with
  | inl err =>
      p' = p /\ nnow r' = nnow r /\ rebased r' = rebased r /\
      out = Returned (Some err)
  | inr subs =>
      exists seen,
        seen `prefix_of` subs /\
        rebased r' = rebased r ++ map (rebase (clockStart p subs)) seen /\
        (out = Returned None -> seen = subs) /\
        clockAfter p p' (nnow r) (nnow r') (clockStart p subs) seen
  end.
Proof.
  unfold hls.processSegment. intros H.
  destruct (PartRead byts) as [err|subs].
  - by inversion H.
  - destruct (hls.rangeSubparts _ _ _ _ _ _ _) as [[p1 r1] res] eqn:Hrange.
    pose proof (rangeSubparts_clock _ _ _ _ _ _ _ Hrange)
      as (_ & seen & Hp & Hr & Hres & Hclock).
    simpl in Hr, Hclock. destruct res as [o|n].
    + inversion H; subst. exists seen. repeat split; try done.
      intros ->. by apply rangeSubparts_exit in Hrange.
    + destruct (hls.waitProcessed _ _ _) as [r2 o2] eqn:Hwait.
      apply waitProcessed_frame in Hwait. destruct Hwait as (Hn & _ & Hrb).
      inversion H; subst. exists subs. rewrite Hn, Hrb. by repeat split.
Qed.

Lemma clockStart_app (p : proc) (xs ys : list PartTrack) :
  xs <> [] -> clockStart p (xs ++ ys) = clockStart p xs.
Proof. intros Hne. unfold clockStart. by destruct xs. Qed.

Lemma clockStart_same (p q : proc) (xs : list PartTrack) :
  clockInitialized q = clockInitialized p ->
  startBaseTime q = startBaseTime p ->
  clockStart q xs = clockStart p xs.
Proof. intros H1 H2. unfold clockStart. by rewrite H1, H2. Qed.

Lemma clockStart_initialized (p : proc) (xs : list PartTrack) :
  clockInitialized p = true -> clockStart p xs = startBaseTime p.
Proof. intros H. unfold clockStart. by rewrite H. Qed.

Lemma run_clock (pulled : list string) :
  forall (p : proc) r p' r' out,
    run p r pulled = (p', r', out) ->
    exists seen,
      seen `prefix_of` readSubparts pulled /\
      rebased r' =
        rebased r ++ map (rebase (clockStart p (readSubparts pulled))) seen /\
      clockAfter p p' (nnow r) (nnow r')
                 (clockStart p (readSubparts pulled)) seen.
Proof.
  induction pulled as [|seg rest IH]; intros p r p' r' out Hrun.
  - simpl in Hrun. inversion Hrun; subst. exists [].
    rewrite app_nil_r. by repeat split.
  - simpl in Hrun.
    destruct (hls.processSegment _ _ _ _ _ _ _) as [[p1 r1] o1] eqn:Hseg.
    apply processSegment_clock in Hseg. simpl.
    destruct (PartRead seg) as [err|subs].
    + destruct Hseg as (-> & Hn & Hr & ->). inversion Hrun; subst.
      exists []. rewrite app_nil_r. by repeat split.
    + destruct Hseg as (seen & Hp & Hr & Hall & Hclock).
      assert (Hstop : (p', r') = (p1, r1) ->
                exists seen0,
                  seen0 `prefix_of` subs ++ readSubparts rest /\
                  rebased r' =
                    rebased r ++
                    map (rebase (clockStart p (subs ++ readSubparts rest)))
                        seen0 /\
                  clockAfter p p' (nnow r) (nnow r')
                    (clockStart p (subs ++ readSubparts rest)) seen0).
      { intros [= -> ->]. exists seen. split; [by apply prefix_app_r|].
        destruct seen as [|t seen].
        - simpl. rewrite app_nil_r. split; [by rewrite app_nil_r in Hr|done].
        - assert (subs <> []) by (intros ->; by apply prefix_nil_not in Hp).
          by rewrite clockStart_app. }
      destruct o1 as [[e|]| |m];
        try (apply Hstop; by inversion Hrun).
      specialize (Hall eq_refl). subst seen.
      apply IH in Hrun. destruct Hrun as (seen2 & Hp2 & Hr2 & Hclock2).
      exists (subs ++ seen2). split; [by apply prefix_app|].
      destruct subs as [|t subs].
      * simpl in *. destruct Hclock as (Hc1 & Hc2 & Hc3).
        rewrite app_nil_r in Hr.
        rewrite (clockStart_same p p1) in Hr2, Hclock2 by done.
        rewrite Hr2, Hr. split; [done|].
        unfold clockAfter in *. rewrite Hc1, Hc2, Hc3 in Hclock2. done.
      * rewrite clockStart_app by done.
        destruct Hclock as (Hc1 & Hc2 & Hc3).
        rewrite (clockStart_initialized p1) in Hr2, Hclock2 by done.
        rewrite Hc2 in Hr2, Hclock2.
        split.
        -- rewrite Hr2, Hr, map_app. by rewrite app_assoc.
        -- simpl. split; [|split].
           ++ destruct seen2; simpl in Hclock2; destruct Hclock2 as (?&?&?);
                congruence.
           ++ destruct seen2; simpl in Hclock2; destruct Hclock2 as (?&?&?);
                congruence.
           ++ destruct seen2; simpl in Hclock2; destruct Hclock2 as (?&?&?);
                rewrite ?Hc1 in *; lia.
Qed.

Lemma waitProcessed_out (n : nat) :
  forall r r' out,
    waitProcessed r n = (r', out) ->
    out = Returned None \/ out = Returned (Some terminated) \/ out = Blocked.
Proof.
  induction n as [|n IH]; intros r r' out H; simpl in H.
  - inversion H. by left.
  - destruct (goSelect _).
    + by eapply IH.
    + inversion H. right. by left.
    + inversion H. right. by right.
Qed.

Lemma rangeSubparts_out (subs : list PartTrack) :
  forall (p : proc) r pc p' r' o,
    rangeSubparts p r pc subs = (p', r', inl o) ->
    forall e, o = Returned (Some e) -> e = terminated.
Proof.
  induction subs as [|track rest IH]; intros p r pc p' r' o H; simpl in H.
  - done.
  - destruct (initClock U now track p r) as [p1 r1].
    destruct (isVideoSubpart U p1 _); [|by eapply IH].
    destruct (videoProc p1); [|by inversion H].
    destruct (goSelect _); [by eapply IH| |by inversion H].
    inversion H. by intros e [= <-].
Qed.

Lemma rebase_wraps (start : Z) (t : PartTrack) :
  0 <= BaseTime t < start -> start < 2 ^ 64 ->
  rebase start t = set_BaseTime t (BaseTime t - start + 2 ^ 64).
Proof.
  intros Hlt Hmax. unfold rebase, uint64_sub. f_equal.
  symmetry. apply (Z.mod_unique _ _ (-1)); lia.
Qed.

Lemma rangeSubparts_forwards (subs : list PartTrack) :
  forall (p : proc) r pc p' r' res,
    rangeSubparts p r pc subs = (p', r', res) ->
    initVideoTrack p' = initVideoTrack p /\
    initAudioTrack p' = initAudioTrack p /\
    sentTo (audioProc p') = sentTo (audioProc p) /\
    onData <$> audioProc p' = onData <$> audioProc p /\
    exists sent,
      sentTo (videoProc p') = sentTo (videoProc p) ++ sent /\
      Forall (fun t => isVideoSubpart U p t = true) sent.
Proof.
  induction subs as [|track rest IH]; intros p r pc p' r' res H; simpl in H.
  - inversion H; subst. repeat split; try done.
    exists []. by rewrite app_nil_r.
  - set (step := initClock U now track p r) in H.
    assert (Hstep : initVideoTrack step.1 = initVideoTrack p /\
                    initAudioTrack step.1 = initAudioTrack p /\
                    sentTo (audioProc step.1) = sentTo (audioProc p) /\
                    onData <$> audioProc step.1 = onData <$> audioProc p /\
                    sentTo (videoProc step.1) = sentTo (videoProc p)).
    { unfold step, initClock. destruct (clockInitialized p); simpl; [done|].
      repeat split; try done.
      - by destruct (audioProc p).
      - by destruct (audioProc p).
      - by destruct (videoProc p). }
    destruct step as [p1 r1]. simpl in Hstep.
    destruct Hstep as (Hv & Ha & Hqa & Hcb & Hqv).
    assert (Hvid : forall t, isVideoSubpart U p1 t = isVideoSubpart U p t).
    { intros t. unfold isVideoSubpart. by rewrite Hv. }
    assert (Hskip : forall q r0 o, (p', r', res) = (q, r0, o) -> q = p1 ->
              initVideoTrack p' = initVideoTrack p /\
              initAudioTrack p' = initAudioTrack p /\
              sentTo (audioProc p') = sentTo (audioProc p) /\
              onData <$> audioProc p' = onData <$> audioProc p /\
              exists sent,
                sentTo (videoProc p') = sentTo (videoProc p) ++ sent /\
                Forall (fun t => isVideoSubpart U p t = true) sent).
    { intros q r0 o [= -> _ _] ->. repeat split; try done.
      exists []. by rewrite app_nil_r. }
    destruct (isVideoSubpart U p1 _) eqn:Hisv.
    + destruct (videoProc p1) as [v|] eqn:Hvp.
      * destruct (goSelect _).
        -- apply IH in H.
           destruct H as (H1 & H2 & H3 & H4 & sent & Hs & Hall).
           simpl in *. repeat split; try congruence.
           eexists (_ :: sent). split.
           ++ rewrite Hs, <- Hqv. simpl. by rewrite <- app_assoc.
           ++ constructor; [by rewrite <- Hvid|].
              eapply Forall_impl; [exact Hall|]. intros t Ht. simpl in Ht.
              rewrite <- Hvid. exact Ht.
        -- by eapply Hskip.
        -- by eapply Hskip.
      * by eapply Hskip.
    + apply IH in H.
      destruct H as (H1 & H2 & H3 & H4 & sent & Hs & Hall).
      repeat split; try congruence.
      exists sent. split; [congruence|].
      eapply Forall_impl; [exact Hall|]. intros t Ht. simpl in Ht.
      rewrite <- Hvid. exact Ht.
Qed.

Lemma isVideoSubpart_true (p : proc) (t : PartTrack) :
  isVideoSubpart U p t = true ->
  exists iv, initVideoTrack p = Some iv /\ ID t = InitTrack_ID iv.
Proof.
  unfold isVideoSubpart. destruct (initVideoTrack p) as [iv|]; [|done].
  intros H. exists iv. split; [done|]. by apply Z.eqb_eq.
Qed.

(** C8. Only video subparts are forwarded, and the audio callback is never
    used. (1) For every segment processed from every processor state, the
    queue of the audio track processor and its data callback are left as
    they were, and whatever was appended to the queue of the video track
    processor are part tracks whose ID is the ID of the video init track.
    (2) For a processor built by [newClientProcessorFMP4], the data
    callback of the audio track processor returns [nil] and leaves the
    user's state untouched for every timestamp and payload, nothing has been
    sent to the audio processor, and the whole construction is the same
    for any two [onAudioData] callbacks: [onAudioData] is never called. *)
Theorem audio_subparts_never_forwarded :
  (forall (p : proc) (r : rt) (byts : string),
      let '(p', _, _) := processSegment p r byts in
      sentTo (audioProc p') = sentTo (audioProc p) /\
      onData <$> audioProc p' = onData <$> audioProc p /\
      exists sent,
        sentTo (videoProc p') = sentTo (videoProc p) ++ sent /\
        Forall (fun t => exists iv, initVideoTrack p = Some iv /\
                                    ID t = InitTrack_ID iv) sent) /\
  (forall InitRead AVCCUnmarshal initFile onTracks onVideoData
          (onAudioData onAudioData' : Z -> string -> U -> U) (u : U),
      newClientProcessorFMP4 U InitRead AVCCUnmarshal initFile onTracks
                             onVideoData onAudioData u
      = newClientProcessorFMP4 U InitRead AVCCUnmarshal initFile onTracks
                               onVideoData onAudioData' u /\
      match newClientProcessorFMP4 U InitRead AVCCUnmarshal initFile onTracks
                                   onVideoData onAudioData u with
      | Ok (_, inr (p, _)) =>
          sentTo (audioProc p) = [] /\
          match audioProc p with
          | Some ap =>
              forall pts payload u', onData ap pts payload u' = (u', None)
          | None => True
          end
      | _ => True
      end).
Proof.
  split.
  - intros p r byts.
    destruct (hls.processSegment _ _ _ _ _ _ _) as [[p' r'] out] eqn:Hseg.
    unfold hls.processSegment in Hseg.
    destruct (PartRead byts) as [err|subs].
    + inversion Hseg; subst. repeat split; try done.
      exists []. by rewrite app_nil_r.
    + destruct (hls.rangeSubparts _ _ _ _ _ _ _) as [[p1 r1] res] eqn:Hrange.
      apply rangeSubparts_forwards in Hrange.
      destruct Hrange as (_ & _ & Hqa & Hcb & sent & Hs & Hall).
      assert (p' = p1) as ->.
      { destruct res; [by inversion Hseg|].
        destruct (hls.waitProcessed _ _ _). by inversion Hseg. }
      repeat split; try done. exists sent. split; [done|].
      eapply Forall_impl; [exact Hall|]. intros t Ht.
      by apply isVideoSubpart_true.
  - intros InitRead AVCCUnmarshal initFile onTracks onVideoData
           onAudioData onAudioData' u.
    split; [reflexivity|].
    unfold newClientProcessorFMP4.
    destruct (InitRead initFile) as [err|[iv ia]]; [done|].
    destruct (assertOpt assertTrackH264 iv) as [vt|]; [|done].
    destruct (assertOpt assertTrackMPEG4Audio ia) as [atr|]; [|done].
    destruct (onTracks vt atr u) as [u1 [err|]]; [done|].
    simpl. split.
    + by destruct atr, ia.
    + by destruct atr, ia.
Qed.

(** *** Cancellation of the processor's blocking operations *)

Lemma goSelect_terminated (sc : sched) :
  commReady sc = false -> doneReady sc = true -> goSelect sc = SelDone.
Proof. unfold goSelect. by intros -> ->. Qed.

(** Without the [Done] case the same operation would stay blocked. *)
Lemma goBare_terminated (sc : sched) :
  commReady sc = false -> goBare sc = SelBlock.
Proof. unfold goBare. by intros ->. Qed.

Lemma rangeSubparts_terminated (subs : list PartTrack) :
  peers_terminated sch ->
  forall (p : proc) r pc p' r' res,
    rangeSubparts p r pc subs = (p', r', res) ->
    res = inr pc \/ res = inl (Returned (Some terminated)) \/
    exists m, res = inl (Panicked m).
Proof.
  intros Hterm.
  induction subs as [|track rest IH]; intros p r pc p' r' res H; simpl in H.
  - inversion H. by left.
  - destruct (initClock U now track p r) as [p1 r1].
    destruct (isVideoSubpart U p1 _); [|by eapply IH].
    destruct (videoProc p1); [|inversion H; right; right; by eexists].
    match type of H with
    | context [goSelect (sch ?n)] =>
        destruct (Hterm n) as [Hc Hd];
        rewrite (goSelect_terminated _ Hc Hd) in H
    end.
    inversion H. right. by left.
Qed.

Lemma processSegment_terminated (p : proc) (r : rt) (byts : string) :
  peers_terminated sch ->
  forall p' r' out,
    processSegment p r byts = (p', r', out) ->
    out <> Blocked /\
    (forall e, out = Returned (Some e) ->
               e = terminated \/ PartRead byts = inl e).
Proof.
  intros Hterm p' r' out H. unfold hls.processSegment in H.
  destruct (PartRead byts) as [err|subs].
  - inversion H; subst. split; [done|]. intros e [= ->]. by right.
  - destruct (hls.rangeSubparts _ _ _ _ _ _ _) as [[p1 r1] res] eqn:Hrange.
    apply rangeSubparts_terminated in Hrange; [|done].
    destruct Hrange as [->|[->|[m ->]]].
    + simpl in H. inversion H; subst. split; [done|]. done.
    + inversion H; subst. split; [done|]. intros e [= <-]. by left.
    + inversion H; subst. done.
Qed.

End ProcessorProperties.

(* ===================================================================== *)
(** * Properties of the WebRTC server actor *)
(* ===================================================================== *)

Section ServerProperties.
Import gochan core.

Lemma range_order_elem (s : webRTCServer) order e :
  range_order s order -> (In e order <-> conns s !! e.1 = Some e.2).
Proof.
  unfold range_order. intros Hperm. destruct e as [cp c]. simpl.
  rewrite <- list_elem_of_In, Hperm. apply elem_of_map_to_list.
Qed.

Lemma find_all_false {A} (f : A -> bool) (l : list A) :
  (forall x, In x l -> f x = false) -> List.find f l = None.
Proof.
  induction l as [|a l IH]; intros H; [done|]. simpl.
  rewrite (H a) by (by left). apply IH. intros x Hx. apply H. by right.
Qed.

Lemma onAPIConnsKick_absent (s : webRTCServer) order id :
  range_order s order -> absent id s ->
  onAPIConnsKick order id s =
    (s, {| KickRes_err := Some (errorString "not found") |}).
Proof.
  intros Hord Habs. unfold onAPIConnsKick.
  rewrite find_all_false; [done|].
  intros e He. apply (range_order_elem s order e Hord) in He.
  apply String.eqb_neq. by eapply Habs.
Qed.

Lemma onAPIConnsKick_present (s : webRTCServer) order cp c :
  range_order s order -> uuid_unique s -> conns s !! cp = Some c ->
  onAPIConnsKick order (uuid c) s =
    (close_conn cp (set_conns (delete cp (conns s)) s),
     {| KickRes_err := None |}).
Proof.
  intros Hord Huniq Hc. unfold onAPIConnsKick.
  destruct (List.find _ order) as [e|] eqn:Hfind.
  - apply find_some in Hfind as [He Heq].
    apply (range_order_elem s order e Hord) in He.
    apply String.eqb_eq in Heq.
    by rewrite (Huniq e.1 cp e.2 c He Hc Heq).
  - exfalso.
    assert (Hin : In (cp, c) order)
      by (by apply (range_order_elem s order (cp, c) Hord)).
    pose proof (find_none _ _ Hfind (cp, c) Hin) as Hf. simpl in Hf.
    by rewrite String.eqb_refl in Hf.
Qed.

Lemma absent_after_delete (s : webRTCServer) cp c :
  uuid_unique s -> conns s !! cp = Some c ->
  forall s1, conns s1 = delete cp (conns s) -> absent (uuid c) s1.
Proof.
  intros Huniq Hc s1 Hs1 cp2 c2 H2 Heq. rewrite Hs1 in H2.
  apply lookup_delete_Some in H2 as [Hne H2].
  apply Hne. symmetry. by eapply Huniq.
Qed.

(** C3. Kicking by connection id. The request is delivered to [run]
    ([goSelect (offer pick s) = SelComm]); [order] is any order in which
    [run] may range over its connections. (1) An id carried by no tracked
    connection yields the error "not found" and leaves the server as it
    was. (2) With pairwise distinct UUIDs, kicking the id of a tracked
    connection returns no error, removes exactly that connection from the
    set and calls [close()] on it; in the server so left, and also in a
    server from which the connection was removed by [connClose], a kick of
    the same id, in whatever order [run] ranges, yields "not found" and
    changes nothing. *)
Theorem apiConnsKick_not_found_and_idempotent (s : webRTCServer)
    (pick : bool) (order : list (positive * webRTCConn)) :
  goSelect (offer pick s) = SelComm ->
  range_order s order ->
  (forall id, absent id s ->
     apiConnsKick pick order id s =
       (s, Returned {| KickRes_err := Some (errorString "not found") |})) /\
  (forall cp c, uuid_unique s -> conns s !! cp = Some c ->
     exists s1,
       apiConnsKick pick order (uuid c) s =
         (s1, Returned {| KickRes_err := None |}) /\
       conns s1 = delete cp (conns s) /\
       closed s1 = closed s ++ [cp] /\
       forall s2 pick2 order2,
         s2 = s1 \/ s2 = (connClose pick cp s).1 ->
         goSelect (offer pick2 s2) = SelComm -> range_order s2 order2 ->
         apiConnsKick pick2 order2 (uuid c) s2 =
           (s2, Returned {| KickRes_err := Some (errorString "not found") |})).
Proof.
  intros Hsel Hord. split.
  - intros id Habs. unfold apiConnsKick. rewrite Hsel.
    by rewrite onAPIConnsKick_absent.
  - intros cp c Huniq Hc.
    exists (close_conn cp (set_conns (delete cp (conns s)) s)).
    split; [|split; [done|split; [done|]]].
    + unfold apiConnsKick. rewrite Hsel.
      by rewrite (onAPIConnsKick_present s order cp c).
    + intros s2 pick2 order2 Hs2 Hsel2 Hord2.
      unfold apiConnsKick. rewrite Hsel2.
      rewrite onAPIConnsKick_absent; [done..|].
      eapply absent_after_delete; [done..|].
      destruct Hs2 as [->| ->]; [done|].
      unfold connClose. by rewrite Hsel.
Qed.

Lemma list_items_lookup (order : list (positive * webRTCConn))
    (c : webRTCConn) :
  (forall e, In e order -> uuid e.2 = uuid c -> e.2 = c) ->
  forall m : gmap string webRTCServerAPIConnsListItem,
    (exists cp, In (cp, c) order) \/ m !! uuid c = Some (listItem c) ->
    foldl (fun (m : gmap string webRTCServerAPIConnsListItem) e =>
             <[uuid e.2 := listItem e.2]> m) m order
      !! uuid c = Some (listItem c).
Proof.
  induction order as [|e order IH]; intros Hsame m Hin; simpl.
  - destruct Hin as [[cp []]|Hm]; done.
  - apply IH.
    + intros e' He'. apply Hsame. by right.
    + destruct (decide (uuid e.2 = uuid c)) as [Heq|Hne].
      * right. rewrite (Hsame e (or_introl eq_refl) Heq).
        apply lookup_insert_eq.
      * destruct Hin as [[cp [Hhd|Htl]]|Hm].
        -- subst e. done.
        -- left. by exists cp.
        -- right. by rewrite lookup_insert_ne.
Qed.

(** C7. The connections list. The request is delivered to [run] and
    [order] is any order in which [run] may range over its connections,
    whose UUIDs are pairwise distinct. The call returns data without error,
    and for every tracked connection the data holds, under the key of the
    connection's UUID, an item with the connection's created timestamp and
    remote address; when the connection has no established peer connection
    ([safePC()] is nil) the item has [PeerConnectionEstablished = false],
    empty candidates and [BytesReceived = BytesSent = 0], otherwise it has
    [PeerConnectionEstablished = true] and the candidates and byte counters
    of the peer connection. *)
Theorem apiConnsList_items (s : webRTCServer) (pick : bool)
    (order : list (positive * webRTCConn)) :
  goSelect (offer pick s) = SelComm ->
  range_order s order ->
  uuid_unique s ->
  exists data,
    apiConnsList pick order s =
      (s, Returned {| ListRes_data := Some data; ListRes_err := None |}) /\
    forall cp c, conns s !! cp = Some c ->
      exists item,
        Items data !! uuid c = Some item /\
        Created item = created c /\
        RemoteAddr item = remoteAddr c /\
        match safePC c with
        | None =>
            PeerConnectionEstablished item = false /\
            LocalCandidate item = EmptyString /\
            RemoteCandidate item = EmptyString /\
            BytesReceived item = 0 /\ BytesSent item = 0
        | Some pc =>
            PeerConnectionEstablished item = true /\
            LocalCandidate item = localCandidate pc /\
            RemoteCandidate item = remoteCandidate pc /\
            BytesReceived item = bytesReceived pc /\
            BytesSent item = bytesSent pc
        end.
Proof.
  intros Hsel Hord Huniq. unfold apiConnsList. rewrite Hsel.
  eexists. split; [reflexivity|]. simpl.
  intros cp c Hc. exists (listItem c). split.
  - apply list_items_lookup.
    + intros e He Heq.
      apply (range_order_elem s order e Hord) in He.
      pose proof (Huniq e.1 cp e.2 c He Hc Heq) as Hcp.
      rewrite Hcp in He. congruence.
    + left. exists cp. by apply (range_order_elem s order (cp, c) Hord).
  - unfold listItem. by destruct (safePC c).
Qed.

(** *** Cancellation of the request operations *)

Lemma step_keeps_done_when_stopped (ev : event) (s s1 : webRTCServer) :
  step ev s = Some s1 ->
  (running s = false -> ctxDone s = true) ->
  running s1 = false -> ctxDone s1 = true.
Proof.
  intros Hstep Hinv Hstop. destruct ev; simpl in Hstep.
  - by inversion Hstep.
  - destruct (running s) eqn:Hr; [|done]. inversion Hstep; subst.
    simpl in Hstop. congruence.
  - destruct (running s) eqn:Hr; [|done]. inversion Hstep; subst.
    simpl in Hstop. congruence.
  - destruct (running s) eqn:Hr; [|done]. inversion Hstep; subst. congruence.
  - destruct (running s) eqn:Hr; [|done]. inversion Hstep; subst.
    unfold onAPIConnsKick in Hstop.
    destruct (List.find _ order); simpl in Hstop; congruence.
  - destruct (running s && ctxDone s) eqn:Hr; [|done].
    by inversion Hstep.
Qed.

Lemma steps_keep_done_when_stopped (evs : list event) :
  forall s s1,
    steps evs s = Some s1 ->
    (running s = false -> ctxDone s = true) ->
    running s1 = false -> ctxDone s1 = true.
Proof.
  induction evs as [|ev evs IH]; intros s s1 Hsteps Hinv; simpl in Hsteps.
  - inversion Hsteps; subst. exact Hinv.
  - destruct (step ev s) as [s0|] eqn:Hstep; [|done].
    eapply IH; [exact Hsteps|]. by eapply step_keeps_done_when_stopped.
Qed.

Lemma call_on_done (s : webRTCServer) (pick : bool) (rq : request) :
  goSelect (offer pick s) = SelDone ->
  call pick rq s = (s, Returned (reply_on_done rq)).
Proof.
  intros Hsel.
  destruct rq; simpl;
    unfold newConn, connClose, apiConnsList, apiConnsKick;
    by rewrite Hsel.
Qed.

Lemma call_not_blocked (s : webRTCServer) (pick : bool) (rq : request) :
  goSelect (offer pick s) <> SelBlock ->
  (call pick rq s).2 <> Blocked.
Proof.
  intros Hsel.
  destruct rq; simpl;
    unfold newConn, connClose, apiConnsList, apiConnsKick;
    destruct (goSelect (offer pick s)); try done.
  by destruct (onAPIConnsKick order id s).
Qed.

End ServerProperties.

(* ===================================================================== *)
(** * Cancellation of blocking operations *)
(* ===================================================================== *)

Section Cancellation.
Import gochan hls core.

Lemma initClock_video {U : Type} (now : nat -> Z) (track : PartTrack)
    (p : clientProcessorFMP4 U) (r : rt) :
  initVideoTrack (initClock U now track p r).1 = initVideoTrack p /\
  (is_Some (videoProc p) -> is_Some (videoProc (initClock U now track p r).1)).
Proof.
  unfold initClock. destruct (clockInitialized p); simpl; [done|].
  split; [done|]. intros [v ->]. by eexists.
Qed.

Lemma isVideoSubpart_ext {U : Type} (p q : clientProcessorFMP4 U)
    (t t' : PartTrack) :
  initVideoTrack q = initVideoTrack p -> ID t' = ID t ->
  isVideoSubpart U q t' = isVideoSubpart U p t.
Proof. intros Hv Hid. unfold isVideoSubpart. by rewrite Hv, Hid. Qed.

Lemma rangeSubparts_terminated_video {U : Type} (now : nat -> Z)
    (sch : nat -> sched) (subs : list PartTrack) :
  peers_terminated sch ->
  forall (p : clientProcessorFMP4 U) r pc p' r' res,
    is_Some (videoProc p) ->
    rangeSubparts U now sch p r pc subs = (p', r', res) ->
    res = if existsb (isVideoSubpart U p) subs
          then inl (Returned (Some terminated)) else inr pc.
Proof.
  intros Hterm.
  induction subs as [|track rest IH]; intros p r pc p' r' res Hsome H;
    simpl in H.
  - by inversion H.
  - pose proof (initClock_video now track p r) as [Hv Hvp].
    destruct (initClock U now track p r) as [p1 r1]. simpl in Hv, Hvp.
    specialize (Hvp Hsome). simpl.
    rewrite (isVideoSubpart_ext p p1 track
               (set_BaseTime track
                  (uint64_sub (BaseTime track) (startBaseTime p1)))) in H
      by done.
    destruct (isVideoSubpart U p track) eqn:Hisv.
    + destruct Hvp as [v Hvp]. rewrite Hvp in H.
      match type of H with
      | context [goSelect (sch ?n)] =>
          destruct (Hterm n) as [Hc Hd];
          rewrite (goSelect_terminated _ Hc Hd) in H
      end.
      by inversion H.
    + apply IH in H; [|done]. rewrite H. simpl.
      assert (Hext : existsb (isVideoSubpart U p1) rest
                     = existsb (isVideoSubpart U p) rest).
      { clear -Hv. induction rest as [|t rest IHr]; [done|]. simpl.
        by rewrite IHr, (isVideoSubpart_ext p p1 t t). }
      by rewrite Hext.
Qed.

(** In no reachable state, stopped or not, does a request operation stay
    blocked. *)
Lemma call_never_blocks (origin : string) (evs : list event)
    (s : webRTCServer) (pick : bool) (rq : request) :
  steps evs (newWebRTCServer origin) = Some s ->
  (call pick rq s).2 <> Blocked.
Proof.
  intros Hreach.
  assert (Hinv : running s = false -> ctxDone s = true).
  { eapply steps_keep_done_when_stopped; [exact Hreach|]. done. }
  apply call_not_blocked. unfold goSelect, offer. simpl.
  destruct (running s) eqn:Hr.
  - destruct (ctxDone s); [by destruct pick|done].
  - by rewrite Hinv.
Qed.

(** C2 (as amended). Every blocking operation that crosses to another
    goroutine is a select with the [Done] case of the context, so it
    resolves once the other goroutine is gone. Server: [s] is any state
    reachable from a started server in which [run] has left its loop;
    then the context is cancelled ([run] leaves only through its [Done]
    case) and each of [newConn], [connClose], [apiConnsList] and
    [apiConnsKick] returns from its [Done] case with the server unchanged:
    [apiConnsList] and [apiConnsKick] return the error "terminated",
    [newConn] returns [nil] and [connClose] just returns. Processor: when
    no peer communicates any more and the context is cancelled,
    [processSegment] never stays blocked; with a video track processor in
    place it returns the error "terminated" as soon as the segment has a
    video subpart to enqueue and returns without error otherwise; a wait
    for a processed subpart returns "terminated"; [onSubpartProcessed]
    returns. *)
Theorem cancellation_releases_blocking_operations
    (origin : string) (evs : list event) (s : webRTCServer) (pick : bool)
    (U : Type) (PartRead : string -> error + list PartTrack)
    (now : nat -> Z) (sch : nat -> sched) :
  steps evs (newWebRTCServer origin) = Some s ->
  running s = false ->
  peers_terminated sch ->
  (ctxDone s = true /\
   forall rq, call pick rq s = (s, Returned (reply_on_done rq))) /\
  ((forall (p : clientProcessorFMP4 U) r byts,
       (processSegment U PartRead now sch p r byts).2 <> Blocked) /\
   (forall (p : clientProcessorFMP4 U) r byts subs,
       PartRead byts = inr subs -> is_Some (videoProc p) ->
       (processSegment U PartRead now sch p r byts).2 =
         if existsb (isVideoSubpart U p) subs
         then Returned (Some terminated) else Returned None) /\
   (forall r n,
       waitProcessed sch r (S n) =
         (tick_sel r, Returned (Some terminated))) /\
   (forall i, onSubpartProcessed (sch i) = Returned tt)).
Proof.
  intros Hreach Hstop Hterm. split.
  - assert (Hinv : ctxDone s = true).
    { eapply steps_keep_done_when_stopped; [exact Hreach| |exact Hstop].
      done. }
    split; [done|]. intros rq.
    apply call_on_done. by apply goSelect_terminated.
  - repeat split.
    + intros p r byts.
      destruct (processSegment _ _ _ _ _ _ _) as [[p' r'] out] eqn:Hseg.
      by eapply processSegment_terminated in Hseg as [? _].
    + intros p r byts subs Hread Hsome. unfold processSegment.
      rewrite Hread.
      destruct (rangeSubparts _ _ _ _ _ _ _) as [[p1 r1] res] eqn:Hrange.
      apply rangeSubparts_terminated_video in Hrange; [|done..].
      rewrite Hrange. by destruct (existsb _ subs).
    + intros r n. simpl. destruct (Hterm (nsel r)) as [Hc Hd].
      by rewrite (goSelect_terminated _ Hc Hd).
    + intros i. unfold onSubpartProcessed. destruct (Hterm i) as [Hc Hd].
      by rewrite (goSelect_terminated _ Hc Hd).
Qed.

End Cancellation.

(* ===================================================================== *)
(** * Properties of the HTTP handler *)
(* ===================================================================== *)

Section HandlerProperties.
Import core.

Variable NewServerConn : Request -> bool.
Variable webrtcReadIndex : string.
Variable webrtcPublishIndex : string.

Local Abbreviation onRequest gpc :=
  (core.onRequest gpc NewServerConn webrtcReadIndex webrtcPublishIndex).
Local Abbreviation authorize gpc :=
  (core.authorize gpc NewServerConn webrtcReadIndex webrtcPublishIndex).

Lemma serve_calls w req dir fname calls :
  getPathConfReqs
    (core.serve NewServerConn webrtcReadIndex webrtcPublishIndex
                w req dir fname calls) = calls.
Proof.
  unfold serve.
  destruct (String.eqb fname EmptyString); [done|].
  destruct (String.eqb fname "publish"); [done|].
  destruct (String.eqb fname "ws" || String.eqb fname "publish/ws");
    [|done].
  by destruct (NewServerConn req).
Qed.

(** The requests [authorize] sends do not depend on the path manager. *)
Lemma authorize_calls gpc w req dir fname pub :
  getPathConfReqs (authorize gpc w req dir fname pub) =
    if String.eqb (gostrings.TrimSuffix dir "/") EmptyString then []
    else [pathConfReq req (gostrings.TrimSuffix dir "/") pub].
Proof.
  unfold core.authorize.
  destruct (String.eqb (gostrings.TrimSuffix dir "/") EmptyString); [done|].
  destruct (gpc _) as [[wrapped|e]|]; simpl.
  - by destruct (BasicAuth req).
  - done.
  - apply serve_calls.
Qed.

Lemma authorize_denied gpc w req dir fname pub pcreq e :
  getPathConfReqs (authorize gpc w req dir fname pub) = [pcreq] ->
  gpc pcreq = Some e ->
  authorize gpc w req dir fname pub = onPathConfError w req pcreq e.
Proof.
  rewrite authorize_calls. unfold core.authorize.
  destruct (String.eqb (gostrings.TrimSuffix dir "/") EmptyString); [done|].
  intros [= <-] ->. done.
Qed.

(** A handler run that sent a request to the path manager went through
    [authorize], on a route that does not depend on the path manager. *)
Lemma onRequest_reaches_authorize gpc (s : webRTCServer) (req : Request)
    (h : handled) (pcreq : pathGetPathConfReq) :
  onRequest gpc s req = Ok h ->
  getPathConfReqs h = [pcreq] ->
  exists dir fname pub,
    h = authorize gpc (corsResponse s) req dir fname pub /\
    forall gpc', onRequest gpc' s req =
                   Ok (authorize gpc' (corsResponse s) req dir fname pub).
Proof.
  unfold core.onRequest. intros Hrun Hcalls.
  destruct (String.eqb (Method req) "GET").
  - destruct (slice_from_1 (URL_Path req)) as [pa|]; [|done].
    destruct (route (corsResponse s) pa) as [w1|dir fname pub].
    + inversion Hrun; subst. done.
    + inversion Hrun; subst. by exists dir, fname, pub.
  - destruct (String.eqb (Method req) "OPTIONS");
      inversion Hrun; subst; done.
Qed.

Lemma corsResponse_no_challenge (s : webRTCServer) :
  header (corsResponse s) !! "WWW-Authenticate" = None /\
  status (corsResponse s) = None /\ body (corsResponse s) = EmptyString.
Proof.
  unfold corsResponse, Header_Set. simpl. split; [|done].
  rewrite !lookup_insert_ne by done. apply lookup_empty.
Qed.

(** C1 (as amended). A GET whose authorization check was made (the handler
    sent exactly the request [pcreq] to [getPathConf]) and failed with the
    error [e]. If [e] is an authentication error and the request carried no
    Basic credentials, the response is 401 with the header
    [WWW-Authenticate: Basic realm="mediamtx"]; if it carried credentials,
    the response is 401 without a challenge header and the reason is only
    logged; any other error (the name matches no configuration) yields 404
    without a challenge. In no case is there a body or a connection
    request. *)
Theorem onRequest_authorization_failure gpc (s : webRTCServer)
    (req : Request) (h : handled) (pcreq : pathGetPathConfReq)
    (e : pathError) :
  Method req = "GET" ->
  onRequest gpc s req = Ok h ->
  getPathConfReqs h = [pcreq] ->
  gpc pcreq = Some e ->
  body (Writer h) = EmptyString /\ newConnReq h = None /\
  match e with
  | pathErrAuth wrapped =>
      status (Writer h) = Some StatusUnauthorized /\
      match BasicAuth req with
      | None =>
          header (Writer h) !! "WWW-Authenticate" = Some basicChallenge /\
          logged h = []
      | Some _ =>
          header (Writer h) !! "WWW-Authenticate" = None /\
          logged h = [Log ("authentication error: " +:+ error_Error wrapped)]
      end
  | pathErrOther _ =>
      status (Writer h) = Some StatusNotFound /\
      header (Writer h) !! "WWW-Authenticate" = None
  end.
Proof.
  intros _ Hrun Hcalls Herr.
  destruct (onRequest_reaches_authorize gpc s req h pcreq Hrun Hcalls)
    as (dir & fname & pub & Hh & _).
  rewrite Hh in Hcalls.
  rewrite (authorize_denied gpc _ req dir fname pub pcreq e Hcalls Herr)
    in Hh.
  destruct (corsResponse_no_challenge s) as (Hnone & _ & _).
  subst h. unfold onPathConfError.
  destruct e as [wrapped|e0]; [destruct (BasicAuth req)|];
    simpl; by repeat split.
Qed.

(** C5. What the requester sees of a denial does not depend on its reason.
    Take one request and two path managers that both deny its attach, each
    with an authentication error of its own (any [ErrAuthentication]
    message, any other wrapped error): the two responses (status, headers,
    body) are equal and neither leads to a connection. The text of the
    error, ["authentication failed: " + Message], goes to the log only. *)
Theorem authentication_denials_indistinguishable gpc1 gpc2
    (s : webRTCServer) (req : Request) (h1 h2 : handled)
    (pcreq : pathGetPathConfReq) (w1 w2 : error) :
  onRequest gpc1 s req = Ok h1 ->
  onRequest gpc2 s req = Ok h2 ->
  getPathConfReqs h1 = [pcreq] ->
  gpc1 pcreq = Some (pathErrAuth w1) ->
  gpc2 pcreq = Some (pathErrAuth w2) ->
  Writer h1 = Writer h2 /\ newConnReq h1 = None /\ newConnReq h2 = None /\
  getPathConfReqs h2 = [pcreq] /\
  (is_Some (BasicAuth req) ->
   logged h1 = [Log ("authentication error: " +:+ error_Error w1)] /\
   logged h2 = [Log ("authentication error: " +:+ error_Error w2)]).
Proof.
  intros Hrun1 Hrun2 Hcalls Herr1 Herr2.
  destruct (onRequest_reaches_authorize gpc1 s req h1 pcreq Hrun1 Hcalls)
    as (dir & fname & pub & Hh1 & Hany).
  rewrite (Hany gpc2) in Hrun2. inversion Hrun2 as [Hh2]. clear Hrun2.
  rewrite Hh1 in Hcalls.
  assert (Hcalls2 :
    getPathConfReqs (authorize gpc2 (corsResponse s) req dir fname pub)
    = [pcreq]).
  { rewrite authorize_calls. by rewrite authorize_calls in Hcalls. }
  rewrite (authorize_denied gpc1 _ req dir fname pub pcreq _ Hcalls Herr1)
    in Hh1.
  rewrite (authorize_denied gpc2 _ req dir fname pub pcreq _ Hcalls2 Herr2).
  subst h1. unfold onPathConfError.
  destruct (BasicAuth req) as [up|]; simpl; repeat split; try done;
    by intros [? [=]].
Qed.

(** C10. The slash redirect. A GET for the path ["/" + pa] where [pa] (the
    path after its leading slash, as the handler tests it) ends in none of
    "/publish/ws", "/publish", "/ws" and "/" and is not "favicon.ico" is
    answered with 301 Moved Permanently and [Location: "/" + pa + "/"], the
    requested path with a slash appended. The handler returns at that
    point: whatever the path manager is, it is sent no request (no path
    resolution, no authorization), nothing is logged, no body is written
    and no connection is requested. *)
Theorem onRequest_redirects_to_trailing_slash gpc (s : webRTCServer)
    (req : Request) (pa : string) :
  Method req = "GET" ->
  URL_Path req = "/" +:+ pa ->
  gostrings.HasSuffix pa "/publish/ws" = false ->
  gostrings.HasSuffix pa "/publish" = false ->
  gostrings.HasSuffix pa "/ws" = false ->
  gostrings.HasSuffix pa "/" = false ->
  pa <> "favicon.ico" ->
  exists h,
    onRequest gpc s req = Ok h /\
    status (Writer h) = Some StatusMovedPermanently /\
    header (Writer h) !! "Location" = Some (URL_Path req +:+ "/") /\
    body (Writer h) = EmptyString /\
    getPathConfReqs h = [] /\ logged h = [] /\ newConnReq h = None.
Proof.
  intros Hget Hpath H1 H2 H3 H4 Hfav.
  apply String.eqb_neq in Hfav.
  unfold core.onRequest. rewrite Hget, Hpath, String.eqb_refl.
  change (slice_from_1 ("/" +:+ pa)) with (Ok pa).
  unfold route. rewrite H1, H2, H3, Hfav, H4.
  eexists. split; [reflexivity|]. simpl. by repeat split.
Qed.

End HandlerProperties.

(* ===================================================================== *)
(** * The theorems at the concrete inputs *)
(* ===================================================================== *)

(** [newClientProcessorFMP4] on the sample init file builds the processor
    [sample.fresh], adds the video and the audio track processor to the
    routine pool and calls [onTracks] once. *)
Example newClientProcessorFMP4_sample :
  hls.newClientProcessorFMP4 (list sample.userCall) sample.InitRead
    sample.AVCCUnmarshal "init.mp4" sample.onTracks sample.onVideoData
    sample.onAudioData [] =
  Ok ([sample.GotTracks],
      inr (sample.fresh,
           option_list (hls.videoProc sample.fresh) ++
           option_list (hls.audioProc sample.fresh))).
Proof. reflexivity. Qed.

(** Three segments through a fresh processor: the first video base time,
    9000, becomes the zero point, and the audio base times, which are
    smaller, wrap around. *)
Example run_sample :
  let '(p, r, out) :=
    hls.run (list sample.userCall) sample.PartRead sample.now sample.live
            sample.fresh hls.rt0 ["seg1"; "seg2"; "late"] in
  hls.startBaseTime p = 9000 /\
  map hls.BaseTime (hls.rebased r) =
    [0; 2 ^ 64 - 4200; 3000; 2 ^ 64 - 2600; 2 ^ 64 - 10] /\
  map hls.ID (hls.sentTo (hls.videoProc p)) = [1; 1] /\
  hls.sentTo (hls.audioProc p) = [] /\
  hls.nnow r = 1%nat /\
  out = gochan.Returned (errorString "terminated").
Proof. vm_compute. by repeat split. Qed.

(** The "late" segment on the started processor: 8990 - 9000 becomes
    2^64 - 10 and the segment is processed without error. *)
Example processSegment_late_sample :
  let '(_, r, out) :=
    hls.processSegment (list sample.userCall) sample.PartRead sample.now
                       sample.live sample.started hls.rt0 "late" in
  map hls.BaseTime (hls.rebased r) = [18446744073709551606] /\
  out = gochan.Returned None.
Proof. vm_compute. by split. Qed.

(** [stopped] is reached from a started server by a cancellation followed
    by [run]'s [Done] case. *)
Lemma cancellation_releases_blocking_operations_witness :
  core.steps [core.EvCancel; core.EvCtxDone] (core.newWebRTCServer "*")
    = Some sample.stopped /\
  core.running sample.stopped = false /\
  hls.peers_terminated sample.gone /\
  core.call true (core.ReqAPIConnsKick [] "0b6f") sample.stopped =
    (sample.stopped,
     gochan.Returned
       (core.RepKick
          {| core.KickRes_err := Some (errorString "terminated") |})) /\
  core.call true (core.ReqNewConn sample.connReq 3%positive sample.conn1)
            sample.stopped =
    (sample.stopped, gochan.Returned (core.RepConn None)) /\
  (hls.processSegment (list sample.userCall) sample.PartRead sample.now
                      sample.gone sample.fresh hls.rt0 "seg1").2 =
    gochan.Returned (Some hls.terminated).
Proof.
  assert (Hreach : core.steps [core.EvCancel; core.EvCtxDone]
                     (core.newWebRTCServer "*") = Some sample.stopped)
    by reflexivity.
  assert (Hterm : hls.peers_terminated sample.gone)
    by (intros i; split; reflexivity).
  destruct (cancellation_releases_blocking_operations
              "*" [core.EvCancel; core.EvCtxDone] sample.stopped true
              (list sample.userCall) sample.PartRead sample.now sample.gone
              Hreach eq_refl Hterm)
    as [[_ Hcall] [_ [Hseg _]]].
  split; [exact Hreach|]. split; [reflexivity|]. split; [exact Hterm|].
  split; [exact (Hcall (core.ReqAPIConnsKick [] "0b6f"))|].
  split; [exact (Hcall (core.ReqNewConn sample.connReq 3%positive
                          sample.conn1))|].
  exact (Hseg sample.fresh hls.rt0 "seg1"
              [sample.video 9000; sample.audio 4800] eq_refl
              (ex_intro _ _ eq_refl)).
Defined.

(** C2 as stated fails: after [run] has returned, [newConn] does resolve,
    but with a [nil] connection, and its result carries no error at all
    (the same holds for [connClose], which returns nothing). *)
Lemma newConn_after_termination_returns_no_error :
  ~ (forall origin evs s pick rq,
       core.steps evs (core.newWebRTCServer origin) = Some s ->
       core.running s = false ->
       exists rp,
         (core.call pick rq s).2 = gochan.Returned rp /\
         core.reply_err rp = Some (errorString "terminated")).
Proof.
  intros H.
  destruct (H "*" [core.EvCancel; core.EvCtxDone] sample.stopped true
              (core.ReqNewConn sample.connReq 3%positive sample.conn1)
              eq_refl eq_refl) as (rp & Hret & Herr).
  vm_compute in Hret. inversion Hret; subst rp. discriminate Herr.
Qed.

(** Facts about the sample server. *)
Lemma sample_range_order : core.range_order sample.server sample.order.
Proof.
  assert (Hlist : map_to_list (core.conns sample.server) = sample.order)
    by (vm_compute; reflexivity).
  red. rewrite Hlist. apply Permutation_refl.
Defined.

Lemma sample_lookup (cp : positive) (c : core.webRTCConn) :
  core.conns sample.server !! cp = Some c ->
  (cp = 1%positive /\ c = sample.conn1) \/
  (cp = 2%positive /\ c = sample.conn2).
Proof.
  unfold sample.server. simpl. intros H.
  apply lookup_insert_Some in H as [[<- <-]|[_ H]]; [by left|].
  apply lookup_insert_Some in H as [[<- <-]|[_ H]]; [by right|].
  by rewrite lookup_empty in H.
Defined.

Lemma sample_uuid_unique : core.uuid_unique sample.server.
Proof.
  intros cp1 cp2 c1 c2 H1 H2 Heq.
  apply sample_lookup in H1 as [[-> ->]|[-> ->]];
    apply sample_lookup in H2 as [[-> ->]|[-> ->]];
    done || discriminate Heq.
Defined.

Lemma sample_absent : core.absent "ffffffff" sample.server.
Proof.
  intros cp c H. apply sample_lookup in H as [[-> ->]|[-> ->]]; discriminate.
Defined.

(** The sample server: an unknown id, then the first connection kicked
    twice. *)
Lemma apiConnsKick_not_found_and_idempotent_witness :
  gochan.goSelect (core.offer true sample.server) = gochan.SelComm /\
  core.range_order sample.server sample.order /\
  core.apiConnsKick true sample.order "ffffffff" sample.server =
    (sample.server,
     gochan.Returned
       {| core.KickRes_err := Some (errorString "not found") |}) /\
  exists s1,
    core.apiConnsKick true sample.order (core.uuid sample.conn1)
                      sample.server =
      (s1, gochan.Returned {| core.KickRes_err := None |}) /\
    core.conns s1 = delete 1%positive (core.conns sample.server) /\
    core.closed s1 = [1%positive] /\
    core.apiConnsKick true (map_to_list (core.conns s1))
                      (core.uuid sample.conn1) s1 =
      (s1, gochan.Returned
             {| core.KickRes_err := Some (errorString "not found") |}).
Proof.
  destruct (apiConnsKick_not_found_and_idempotent sample.server true
              sample.order eq_refl sample_range_order) as [Habs Hkick].
  split; [reflexivity|]. split; [exact sample_range_order|].
  split; [exact (Habs "ffffffff" sample_absent)|].
  destruct (Hkick 1%positive sample.conn1 sample_uuid_unique eq_refl)
    as (s1 & Hres & Hconns & Hclosed & Hagain).
  exists s1. split; [exact Hres|]. split; [exact Hconns|].
  split; [exact Hclosed|].
  apply (Hagain s1 true); [by left| |red; apply Permutation_refl].
  inversion Hres. reflexivity.
Defined.

(** The two sample connections, kicked one after the other. *)
Example apiConnsKick_sample :
  let '(s1, r1) :=
    core.apiConnsKick true sample.order (core.uuid sample.conn2)
                      sample.server in
  let '(s2, r2) :=
    core.apiConnsKick true [(1%positive, sample.conn1)]
                      (core.uuid sample.conn2) s1 in
  r1 = gochan.Returned {| core.KickRes_err := None |} /\
  map_to_list (core.conns s1) = [(1%positive, sample.conn1)] /\
  core.closed s1 = [2%positive] /\
  r2 = gochan.Returned
         {| core.KickRes_err := Some (errorString "not found") |} /\
  s2 = s1.
Proof. vm_compute. by repeat split. Qed.

(** The sample server: the first connection has no peer connection, the
    second one has. *)
Lemma apiConnsList_items_witness :
  gochan.goSelect (core.offer true sample.server) = gochan.SelComm /\
  core.range_order sample.server sample.order /\
  core.uuid_unique sample.server /\
  exists data,
    core.apiConnsList true sample.order sample.server =
      (sample.server,
       gochan.Returned {| core.ListRes_data := Some data;
                          core.ListRes_err := None |}) /\
    (exists item,
       core.Items data !! core.uuid sample.conn1 = Some item /\
       core.Created item = 1700000000 /\
       core.RemoteAddr item = "192.0.2.10:51000" /\
       core.PeerConnectionEstablished item = false /\
       core.BytesReceived item = 0 /\ core.BytesSent item = 0) /\
    (exists item,
       core.Items data !! core.uuid sample.conn2 = Some item /\
       core.PeerConnectionEstablished item = true /\
       core.BytesReceived item = 1200 /\ core.BytesSent item = 987654).
Proof.
  split; [reflexivity|]. split; [exact sample_range_order|].
  split; [exact sample_uuid_unique|].
  destruct (apiConnsList_items sample.server true sample.order eq_refl
              sample_range_order sample_uuid_unique) as (data & Hres & Hall).
  exists data. split; [exact Hres|]. split.
  - destruct (Hall 1%positive sample.conn1 eq_refl)
      as (item & Hi & Hc & Ha & Hpc).
    simpl in Hpc. destruct Hpc as (He & _ & _ & Hr & Hs).
    exists item. by repeat split.
  - destruct (Hall 2%positive sample.conn2 eq_refl)
      as (item & Hi & Hc & Ha & Hpc).
    simpl in Hpc. destruct Hpc as (He & _ & _ & Hr & Hs).
    exists item. by repeat split.
Defined.

(** Scenario 4 of the specification on the sample path manager: no
    credentials, wrong password, right password, unknown path. *)
Example onRequest_secure_sample :
  let gpc := sample.getPathConf "wrong password" in
  let anonymous := sample.handle gpc (sample.get "/secure/" None) in
  let wrong :=
    sample.handle gpc (sample.get "/secure/" (Some ("u", "wrong"))) in
  let right := sample.handle gpc (sample.get "/secure/" (Some ("u", "p"))) in
  let unknown := sample.handle gpc (sample.get "/other/" (Some ("u", "p"))) in
  (core.status (core.Writer anonymous) = Some 401 /\
   core.header (core.Writer anonymous) !! "WWW-Authenticate"
     = Some core.basicChallenge) /\
  (core.status (core.Writer wrong) = Some 401 /\
   core.header (core.Writer wrong) !! "WWW-Authenticate" = None /\
   core.logged wrong =
     ["[WebRTC] authentication error: authentication failed: wrong password"])
  /\
  (core.status (core.Writer right) = Some 200 /\
   core.body (core.Writer right) = sample.readIndex) /\
  core.status (core.Writer unknown) = Some 404.
Proof. vm_compute. by repeat split. Qed.

(** GET /secure/ with the credentials u / wrong. *)
Lemma onRequest_authorization_failure_witness :
  let gpc := sample.getPathConf "wrong password" in
  let req := sample.get "/secure/" (Some ("u", "wrong")) in
  let h := sample.handle gpc req in
  let pcreq := core.pathConfReq req "secure" false in
  core.Method req = "GET" /\
  core.onRequest gpc sample.NewServerConn sample.readIndex
                 sample.publishIndex sample.server req = Ok h /\
  core.getPathConfReqs h = [pcreq] /\
  gpc pcreq =
    Some (core.pathErrAuth
            (errAuthentication {| defs.Message := "wrong password" |})) /\
  core.status (core.Writer h) = Some core.StatusUnauthorized /\
  core.header (core.Writer h) !! "WWW-Authenticate" = None.
Proof.
  intros gpc req h pcreq.
  assert (Hrun : core.onRequest gpc sample.NewServerConn sample.readIndex
                   sample.publishIndex sample.server req = Ok h)
    by reflexivity.
  assert (Hcalls : core.getPathConfReqs h = [pcreq]) by reflexivity.
  assert (Herr : gpc pcreq =
            Some (core.pathErrAuth
                    (errAuthentication
                       {| defs.Message := "wrong password" |})))
    by reflexivity.
  destruct (onRequest_authorization_failure sample.NewServerConn
              sample.readIndex sample.publishIndex gpc sample.server req h
              pcreq _ eq_refl Hrun Hcalls Herr)
    as (_ & _ & Hstatus & Hheader & _).
  repeat split; try assumption.
Defined.

(** C1 as stated fails: when credentials were supplied and the check
    fails, the status is not the one of a name that matches no
    configuration. For the same request, a path manager that denies the
    attach gets 401 where one that does not know the path gets 404, so the
    code tells the requester that the path exists. *)
Lemma denied_with_credentials_is_not_not_found :
  ~ (forall gpc gpc' nsc readIndex publishIndex s req h h' pcreq wrapped e,
       core.Method req = "GET" ->
       is_Some (core.BasicAuth req) ->
       core.onRequest gpc nsc readIndex publishIndex s req = Ok h ->
       core.onRequest gpc' nsc readIndex publishIndex s req = Ok h' ->
       core.getPathConfReqs h = [pcreq] ->
       gpc pcreq = Some (core.pathErrAuth wrapped) ->
       gpc' pcreq = Some (core.pathErrOther e) ->
       core.status (core.Writer h) = core.status (core.Writer h')).
Proof.
  intros H.
  pose (req := sample.get "/secure/" (Some ("u", "wrong"))).
  specialize (H (sample.getPathConf "wrong password") sample.getPathConfNone
                sample.NewServerConn sample.readIndex sample.publishIndex
                sample.server req
                (sample.handle (sample.getPathConf "wrong password") req)
                (sample.handle sample.getPathConfNone req)
                (core.pathConfReq req "secure" false)
                (errAuthentication {| defs.Message := "wrong password" |})
                (errorString "path is not configured")
                eq_refl (ex_intro _ _ eq_refl) eq_refl eq_refl eq_refl
                eq_refl eq_refl).
  vm_compute in H. discriminate H.
Qed.

(** GET /secure/ws with wrong credentials, denied once for the password
    and once for the IP: equal responses, different log lines. *)
Lemma authentication_denials_indistinguishable_witness :
  let gpc1 := sample.getPathConf "wrong password" in
  let gpc2 := sample.getPathConf "IP is not allowed" in
  let req := sample.get "/secure/ws" (Some ("u", "wrong")) in
  let h1 := sample.handle gpc1 req in
  let h2 := sample.handle gpc2 req in
  let pcreq := core.pathConfReq req "secure" false in
  core.onRequest gpc1 sample.NewServerConn sample.readIndex
                 sample.publishIndex sample.server req = Ok h1 /\
  core.onRequest gpc2 sample.NewServerConn sample.readIndex
                 sample.publishIndex sample.server req = Ok h2 /\
  core.getPathConfReqs h1 = [pcreq] /\
  gpc1 pcreq =
    Some (core.pathErrAuth
            (errAuthentication {| defs.Message := "wrong password" |})) /\
  gpc2 pcreq =
    Some (core.pathErrAuth
            (errAuthentication {| defs.Message := "IP is not allowed" |})) /\
  core.Writer h1 = core.Writer h2 /\
  core.logged h1 <> core.logged h2.
Proof.
  intros gpc1 gpc2 req h1 h2 pcreq.
  assert (Hrun1 : core.onRequest gpc1 sample.NewServerConn sample.readIndex
                    sample.publishIndex sample.server req = Ok h1)
    by reflexivity.
  assert (Hrun2 : core.onRequest gpc2 sample.NewServerConn sample.readIndex
                    sample.publishIndex sample.server req = Ok h2)
    by reflexivity.
  assert (Hcalls : core.getPathConfReqs h1 = [pcreq]) by reflexivity.
  assert (Herr1 : gpc1 pcreq =
            Some (core.pathErrAuth
                    (errAuthentication
                       {| defs.Message := "wrong password" |})))
    by reflexivity.
  assert (Herr2 : gpc2 pcreq =
            Some (core.pathErrAuth
                    (errAuthentication
                       {| defs.Message := "IP is not allowed" |})))
    by reflexivity.
  destruct (authentication_denials_indistinguishable sample.NewServerConn
              sample.readIndex sample.publishIndex gpc1 gpc2 sample.server
              req h1 h2 pcreq _ _ Hrun1 Hrun2 Hcalls Herr1 Herr2)
    as (Hsame & _).
  repeat split; try assumption.
  vm_compute. discriminate.
Defined.

(** GET /cam is redirected to /cam/. *)
Lemma onRequest_redirects_to_trailing_slash_witness :
  let req := sample.get "/cam" None in
  core.Method req = "GET" /\
  core.URL_Path req = "/" +:+ "cam" /\
  gostrings.HasSuffix "cam" "/publish/ws" = false /\
  gostrings.HasSuffix "cam" "/publish" = false /\
  gostrings.HasSuffix "cam" "/ws" = false /\
  gostrings.HasSuffix "cam" "/" = false /\
  "cam" <> "favicon.ico" /\
  exists h,
    core.onRequest sample.getPathConfNone sample.NewServerConn
                   sample.readIndex sample.publishIndex sample.server req
      = Ok h /\
    core.status (core.Writer h) = Some 301 /\
    core.header (core.Writer h) !! "Location" = Some "/cam/" /\
    core.getPathConfReqs h = [].
Proof.
  intros req.
  assert (Hfav : "cam" <> "favicon.ico") by discriminate.
  destruct (onRequest_redirects_to_trailing_slash sample.NewServerConn
              sample.readIndex sample.publishIndex sample.getPathConfNone
              sample.server req "cam" eq_refl eq_refl eq_refl eq_refl
              eq_refl eq_refl Hfav)
    as (h & Hrun & Hstatus & Hloc & _ & Hcalls & _).
  repeat split; try assumption.
  exists h. repeat split; assumption.
Defined.

(** The redirect comes first: "/secure" is redirected although the path is
    protected, and the handler panics on an empty path. *)
Example onRequest_redirect_sample :
  core.status
    (core.Writer (sample.handle (sample.getPathConf "wrong password")
                                (sample.get "/secure" None))) = Some 301 /\
  core.onRequest (sample.getPathConf "wrong password") sample.NewServerConn
                 sample.readIndex sample.publishIndex sample.server
                 (sample.get EmptyString None)
    = Panic "slice bounds out of range [1:0]".
Proof. vm_compute. by split. Qed.

(* ===================================================================== *)
(** * Further properties: Go strings and the routes of the handler *)
(* ===================================================================== *)

Section StringFacts.

Lemma string_app_cons (c : ascii) (a b : string) :
  String c a +:+ b = String c (a +:+ b).
Proof. reflexivity. Qed.

Lemma string_length_app (a b : string) :
  String.length (a +:+ b) = (String.length a + String.length b)%nat.
Proof. induction a as [|c a IH]; simpl; [done|]. by rewrite IH. Qed.

Lemma substring_all (s : string) : substring 0 (String.length s) s = s.
Proof. induction s as [|c s IH]; simpl; [done|]. by rewrite IH. Qed.

Lemma substring_app_tail (p s : string) :
  substring (String.length p) (String.length s) (p +:+ s) = s.
Proof. induction p as [|c p IH]; simpl; [apply substring_all|done]. Qed.

Lemma substring_app_head (p s : string) :
  substring 0 (String.length p) (p +:+ s) = p.
Proof.
  induction p as [|c p IH]; simpl; [by destruct s|]. by rewrite IH.
Qed.

Lemma substring_split (s : string) :
  forall n, (n <= String.length s)%nat ->
    s = substring 0 n s +:+ substring n (String.length s - n) s.
Proof.
  induction s as [|c s IH]; intros n Hn; simpl in *.
  - by destruct n.
  - destruct n as [|n]; simpl.
    + by rewrite substring_all.
    + rewrite string_app_cons. f_equal. apply IH. lia.
Qed.

Lemma string_app_inv_tail (t : string) :
  forall p q : string, p +:+ t = q +:+ t -> p = q.
Proof.
  induction p as [|c p IH]; intros q Heq.
  - destruct q as [|d q]; [done|]. exfalso.
    apply (f_equal String.length) in Heq.
    rewrite !string_length_app in Heq. simpl in Heq. lia.
  - destruct q as [|d q].
    + exfalso. apply (f_equal String.length) in Heq.
      rewrite !string_length_app in Heq. simpl in Heq. lia.
    + rewrite !string_app_cons in Heq. inversion Heq; subst.
      f_equal. by apply IH.
Qed.

Lemma lastChar_app (p : string) (c : ascii) (t : string) :
  props.lastChar (p +:+ String c t) = props.lastChar (String c t).
Proof.
  induction p as [|d p IH]; [done|].
  rewrite string_app_cons.
  destruct (p +:+ String c t) as [|e r] eqn:Happ.
  - destruct p; discriminate Happ.
  - rewrite <- IH. done.
Qed.

(** [HasSuffix] and the slice before the suffix, against concatenation. *)
Lemma HasSuffix_app (p suffix : string) :
  gostrings.HasSuffix (p +:+ suffix) suffix = true /\
  gostrings.dropSuffix (p +:+ suffix) suffix = p.
Proof.
  unfold gostrings.HasSuffix, gostrings.dropSuffix.
  rewrite string_length_app.
  replace (String.length p + String.length suffix - String.length suffix)%nat
    with (String.length p) by lia.
  rewrite substring_app_tail, substring_app_head, String.eqb_refl.
  split; [|done]. apply andb_true_iff. split; [|done].
  apply Nat.leb_le. lia.
Qed.

Lemma HasSuffix_inv (s suffix : string) :
  gostrings.HasSuffix s suffix = true ->
  s = gostrings.dropSuffix s suffix +:+ suffix.
Proof.
  unfold gostrings.HasSuffix, gostrings.dropSuffix.
  intros H. apply andb_true_iff in H as [Hlen Heq].
  apply Nat.leb_le in Hlen. apply String.eqb_eq in Heq.
  rewrite (substring_split s (String.length s - String.length suffix))
    at 1 by lia.
  f_equal.
  replace (String.length s - (String.length s - String.length suffix))%nat
    with (String.length suffix) by lia.
  exact Heq.
Qed.

Lemma HasSuffix_lastChar (s suffix : string) :
  gostrings.HasSuffix s suffix = true -> suffix <> EmptyString ->
  props.lastChar s = props.lastChar suffix.
Proof.
  intros H Hne. rewrite (HasSuffix_inv s suffix H).
  destruct suffix as [|c t]; [done|]. apply lastChar_app.
Qed.

Lemma HasSuffix_false_by_lastChar (s suffix : string) :
  suffix <> EmptyString ->
  props.lastChar s <> props.lastChar suffix ->
  gostrings.HasSuffix s suffix = false.
Proof.
  intros Hne Hlast. destruct (gostrings.HasSuffix s suffix) eqn:H; [|done].
  exfalso. apply Hlast. by apply HasSuffix_lastChar.
Qed.

End StringFacts.

Section HandlerRoutes.
Import core props.

Variable NewServerConn : Request -> bool.
Variable webrtcReadIndex : string.
Variable webrtcPublishIndex : string.

Local Abbreviation onRequest gpc :=
  (core.onRequest gpc NewServerConn webrtcReadIndex webrtcPublishIndex).
Local Abbreviation authorize gpc :=
  (core.authorize gpc NewServerConn webrtcReadIndex webrtcPublishIndex).
Local Abbreviation serve :=
  (core.serve NewServerConn webrtcReadIndex webrtcPublishIndex).

Lemma string_app_assoc (a b c : string) :
  (a +:+ b) +:+ c = a +:+ (b +:+ c).
Proof.
  induction a as [|x a IH]; [done|].
  rewrite !string_app_cons. by rewrite IH.
Qed.

Lemma lastChar_endpoint (dir : string) (e : endpoint) :
  lastChar (dir +:+ endpointSuffix e) = lastChar (endpointSuffix e).
Proof. destruct e; apply lastChar_app. Qed.

(** The switch of lines 367-396 recovers the directory and the endpoint
    from a path built as [dir + suffix]; a read channel under a directory
    ending in "/publish" would be taken for a publish channel. *)
Lemma route_endpoint (w : ResponseWriter) (dir : string) (e : endpoint) :
  (e = ReadWS -> gostrings.HasSuffix dir "/publish" = false) ->
  route w (dir +:+ endpointSuffix e) =
    RoutePath (match e with ReadPage => dir +:+ "/" | _ => dir end)
              (endpointFile e) (endpointPublishes e).
Proof.
  intros Hws. unfold route.
  assert (Hlast : forall suffix, suffix <> EmptyString ->
             lastChar (endpointSuffix e) <> lastChar suffix ->
             gostrings.HasSuffix (dir +:+ endpointSuffix e) suffix = false).
  { intros suffix Hne Hl. apply HasSuffix_false_by_lastChar; [done|].
    by rewrite lastChar_endpoint. }
  destruct e; simpl endpointSuffix in *; simpl endpointFile;
    simpl endpointPublishes.
  - rewrite !Hlast by (done || (vm_compute; discriminate)).
    assert (Hfav : String.eqb (dir +:+ "/") "favicon.ico" = false).
    { apply String.eqb_neq. intros Heq.
      apply (f_equal lastChar) in Heq. rewrite lastChar_app in Heq.
      vm_compute in Heq. discriminate Heq. }
    rewrite Hfav.
    by rewrite (proj1 (HasSuffix_app dir "/")).
  - rewrite Hlast by (done || (vm_compute; discriminate)).
    destruct (HasSuffix_app dir "/publish") as [-> ->]. done.
  - assert (Hpw : gostrings.HasSuffix (dir +:+ "/ws") "/publish/ws" = false).
    { destruct (gostrings.HasSuffix (dir +:+ "/ws") "/publish/ws") eqn:H;
        [|done].
      exfalso. apply HasSuffix_inv in H.
      change "/publish/ws" with ("/publish" +:+ "/ws") in H at 2.
      rewrite <- string_app_assoc in H.
      apply string_app_inv_tail in H.
      specialize (Hws eq_refl). rewrite H in Hws.
      by rewrite (proj1 (HasSuffix_app _ "/publish")) in Hws. }
    rewrite Hpw.
    rewrite Hlast by (done || (vm_compute; discriminate)).
    destruct (HasSuffix_app dir "/ws") as [-> ->]. done.
  - destruct (HasSuffix_app dir "/publish/ws") as [-> ->]. done.
Qed.

Lemma TrimSuffix_endpoint_dir (dir : string) (e : endpoint) :
  gostrings.HasSuffix dir "/" = false ->
  gostrings.TrimSuffix (match e with ReadPage => dir +:+ "/" | _ => dir end)
                       "/" = dir.
Proof.
  intros Hno. unfold gostrings.TrimSuffix.
  destruct e; rewrite ?Hno; try done.
  by destruct (HasSuffix_app dir "/") as [-> ->].
Qed.

(** X1. The URLs of a path. A GET for ["/" + dir + suffix], where [suffix]
    is "/", "/publish", "/ws" or "/publish/ws" and [dir] is not empty and
    has no trailing slash (and, for "/ws", does not end in "/publish"),
    sends the path manager exactly one request, for the name [dir], with
    [publish] set for the two publish endpoints and the request's
    credentials. When the path manager accepts it, the read and the
    publish page are answered with 200, [Content-Type: text/html] and the
    embedded page; on the two channels the handler goes on to the
    WebSocket upgrade, and hands [newConn] a connection request exactly
    when the upgrade succeeds: a request for [dir] that publishes exactly
    on "/publish/ws" and carries the codecs of the query. What the upgrade
    itself sends to the client is the websocket package's and is not
    stated here. *)
Theorem onRequest_endpoint gpc (s : webRTCServer) (req : Request)
    (dir : string) (e : endpoint) :
  Method req = "GET" ->
  URL_Path req = "/" +:+ dir +:+ endpointSuffix e ->
  dir <> EmptyString ->
  gostrings.HasSuffix dir "/" = false ->
  (e = ReadWS -> gostrings.HasSuffix dir "/publish" = false) ->
  exists h,
    onRequest gpc s req = Ok h /\
    getPathConfReqs h = [pathConfReq req dir (endpointPublishes e)] /\
    (gpc (pathConfReq req dir (endpointPublishes e)) = None ->
     logged h = [] /\
     match e with
     | ReadPage =>
         status (Writer h) = Some StatusOK /\
         header (Writer h) !! "Content-Type" = Some "text/html" /\
         body (Writer h) = webrtcReadIndex /\ newConnReq h = None
     | PublishPage =>
         status (Writer h) = Some StatusOK /\
         header (Writer h) !! "Content-Type" = Some "text/html" /\
         body (Writer h) = webrtcPublishIndex /\ newConnReq h = None
     | ReadWS | PublishWS =>
         newConnReq h =
           if NewServerConn req
           then Some {| pathName := dir;
                        publish := endpointPublishes e;
                        videoCodec := Query req "video_codec";
                        audioCodec := Query req "audio_codec";
                        videoBitrate := Query req "video_bitrate" |}
           else None
     end).
Proof.
  intros Hget Hpath Hne Hslash Hws.
  apply String.eqb_neq in Hne.
  unfold core.onRequest. rewrite Hget, Hpath, String.eqb_refl.
  change (slice_from_1 ("/" +:+ dir +:+ endpointSuffix e))
    with (Ok (dir +:+ endpointSuffix e)).
  cbv beta iota zeta.
  rewrite (route_endpoint _ dir e Hws).
  eexists. split; [reflexivity|].
  unfold core.authorize. rewrite (TrimSuffix_endpoint_dir dir e Hslash), Hne.
  split.
  - destruct (gpc _) as [[wrapped|e0]|]; simpl.
    + by destruct (BasicAuth req).
    + done.
    + apply serve_calls.
  - intros ->. unfold core.serve.
    destruct e; simpl; try done; by destruct (NewServerConn req).
Qed.

End HandlerRoutes.

Section HandlerInvariants.
Import core props.

Variable NewServerConn : Request -> bool.
Variable webrtcReadIndex : string.
Variable webrtcPublishIndex : string.

Local Abbreviation onRequest gpc :=
  (core.onRequest gpc NewServerConn webrtcReadIndex webrtcPublishIndex).
Local Abbreviation authorize gpc :=
  (core.authorize gpc NewServerConn webrtcReadIndex webrtcPublishIndex).
Local Abbreviation serve :=
  (core.serve NewServerConn webrtcReadIndex webrtcPublishIndex).

(** Headers other than the two the later stages set survive them. *)
Lemma authorize_keeps_header gpc w req dir fname pub (k v : string) :
  k <> "WWW-Authenticate" -> k <> "Content-Type" ->
  header w !! k = Some v ->
  header (Writer (authorize gpc w req dir fname pub)) !! k = Some v.
Proof.
  intros Hk1 Hk2 Hw. unfold core.authorize.
  destruct (String.eqb _ EmptyString); [done|].
  destruct (gpc _) as [[wrapped|e0]|].
  - unfold onPathConfError. destruct (BasicAuth req); simpl; [done|].
    by rewrite lookup_insert_ne.
  - done.
  - unfold core.serve.
    destruct (String.eqb fname EmptyString);
      [simpl; by rewrite lookup_insert_ne|].
    destruct (String.eqb fname "publish");
      [simpl; by rewrite lookup_insert_ne|].
    destruct (_ || _); [|done]. by destruct (NewServerConn req).
Qed.

(** X2. Every response whose status line the handler writes itself (the
    200 of a page and of OPTIONS, the 301, the 401 and the 404), whatever
    the method, the path and the answer of the path manager, carries
    [Access-Control-Allow-Origin] with the configured origin and
    [Access-Control-Allow-Credentials: true]. Nothing is said of the
    requests that reach the WebSocket upgrade, where the handler writes no
    status and the response is the websocket package's. *)
Theorem onRequest_cors_headers gpc (s : webRTCServer) (req : Request)
    (h : handled) (code : Z) :
  onRequest gpc s req = Ok h ->
  status (Writer h) = Some code ->
  header (Writer h) !! "Access-Control-Allow-Origin" = Some (allowOrigin s) /\
  header (Writer h) !! "Access-Control-Allow-Credentials" = Some "true".
Proof.
  assert (Hcors :
    header (corsResponse s) !! "Access-Control-Allow-Origin"
      = Some (allowOrigin s) /\
    header (corsResponse s) !! "Access-Control-Allow-Credentials"
      = Some "true") by done.
  destruct Hcors as [Ho Hc].
  unfold core.onRequest. intros H _.
  destruct (String.eqb (Method req) "GET").
  - destruct (slice_from_1 (URL_Path req)) as [pa|]; [|done].
    destruct (route (corsResponse s) pa) as [w1|dir fname pub] eqn:Hroute.
    + inversion H; subst h. unfold route in Hroute.
      repeat match type of Hroute with
             | context [if ?b then _ else _] => destruct b
             end; inversion Hroute; subst w1; simpl; split; try done;
        by rewrite lookup_insert_ne.
    + inversion H; subst h.
      split; apply authorize_keeps_header; done.
  - destruct (String.eqb (Method req) "OPTIONS"); inversion H; subst h;
      simpl; split; done.
Qed.

Lemma serve_result w req dir fname calls :
  let h := serve w req dir fname calls in
  logged h = [] /\
  (forall cr, newConnReq h = Some cr ->
     pathName cr = dir /\
     (publish cr = true <-> fname = "publish/ws") /\
     (fname = "ws" \/ fname = "publish/ws") /\
     NewServerConn req = true /\ status (Writer h) = status w).
Proof.
  unfold core.serve.
  destruct (String.eqb fname EmptyString); [done|].
  destruct (String.eqb fname "publish"); [done|].
  destruct (String.eqb fname "ws" || String.eqb fname "publish/ws")
    eqn:Hws; [|done].
  destruct (NewServerConn req); [|done]. simpl.
  split; [done|]. intros cr [= <-]. simpl.
  split; [done|]. split; [apply String.eqb_eq|].
  split; [|done].
  apply orb_true_iff in Hws as [H|H]; apply String.eqb_eq in H; auto.
Qed.

(** X3. Nothing is served without authorization. Whenever the handler
    hands a connection request to [newConn], or answers a GET with 200, it
    has asked the path manager exactly once, the path manager accepted, the
    name it asked for is not empty and the protocol it named is "webrtc";
    a connection request is for that very name, publishes exactly when the
    authorization was asked for publishing on the file "publish/ws", and
    follows a successful WebSocket upgrade. *)
Theorem onRequest_serves_only_authorized gpc (s : webRTCServer)
    (req : Request) (h : handled) :
  onRequest gpc s req = Ok h ->
  is_Some (newConnReq h) \/
    (Method req = "GET" /\ status (Writer h) = Some StatusOK) ->
  Method req = "GET" /\
  exists pc,
    getPathConfReqs h = [pc] /\ gpc pc = None /\
    name pc <> EmptyString /\
    cred_proto (credentials pc) = authProtocolWebRTC /\
    forall cr, newConnReq h = Some cr ->
      pathName cr = name pc /\ publish cr = req_publish pc /\
      NewServerConn req = true.
Proof.
  unfold core.onRequest. intros H Hserved.
  destruct (String.eqb (Method req) "GET") eqn:Hget.
  - apply String.eqb_eq in Hget. split; [done|].
    destruct (slice_from_1 (URL_Path req)) as [pa|]; [|done].
    destruct (route (corsResponse s) pa) as [w1|dir fname pub] eqn:Hroute.
    + exfalso. inversion H; subst h. simpl in Hserved.
      destruct Hserved as [[? [=]]|[_ Hst]].
      unfold route in Hroute.
      repeat match type of Hroute with
             | context [if ?b then _ else _] => destruct b
             end; inversion Hroute; subst w1; discriminate Hst.
    + inversion H; subst h. clear H. unfold core.authorize in *.
      destruct (String.eqb (gostrings.TrimSuffix dir "/") EmptyString)
        eqn:Hdir.
      { exfalso. simpl in Hserved.
        destruct Hserved as [[? [=]]|[_ [=]]]. }
      apply String.eqb_neq in Hdir.
      destruct (gpc _) as [[wrapped|e0]|] eqn:Hgpc.
      * exfalso. unfold onPathConfError in Hserved.
        destruct (BasicAuth req); simpl in Hserved;
          destruct Hserved as [[? [=]]|[_ [=]]].
      * exfalso. simpl in Hserved.
        destruct Hserved as [[? [=]]|[_ [=]]].
      * eexists. rewrite serve_calls. split; [reflexivity|].
        split; [exact Hgpc|]. split; [exact Hdir|]. split; [done|].
        intros cr Hcr.
        destruct (serve_result (corsResponse s) req
                    (gostrings.TrimSuffix dir "/") fname
                    [pathConfReq req (gostrings.TrimSuffix dir "/") pub])
          as [_ Hres].
        destruct (Hres cr Hcr) as (Hname & Hpub & Hfile & Hup & _).
        split; [done|]. split; [|done]. simpl.
        unfold route in Hroute.
        repeat match type of Hroute with
               | context [if ?b then _ else _] => destruct b
               end; inversion Hroute; subst; simpl in *;
          destruct Hfile as [Hf|Hf]; try discriminate Hf;
          destruct (publish cr); try done.
        -- by apply Hpub.
        -- destruct Hpub as [Hp _]. by specialize (Hp eq_refl).
  - exfalso.
    destruct (String.eqb (Method req) "OPTIONS"); inversion H; subst h;
      simpl in Hserved; destruct Hserved as [[? [=]]|[Hm _]];
      apply String.eqb_neq in Hget; done.
Qed.

(** X4. The handler panics on exactly one kind of request: a GET whose URL
    path is empty, on which the slice [Path[1:]] is out of range. *)
Theorem onRequest_panics_iff_empty_path gpc (s : webRTCServer)
    (req : Request) :
  (exists m, onRequest gpc s req = Panic m) <->
  Method req = "GET" /\ URL_Path req = EmptyString.
Proof.
  unfold core.onRequest. split.
  - intros [m H].
    destruct (String.eqb (Method req) "GET") eqn:Hget.
    + apply String.eqb_eq in Hget. split; [done|].
      destruct (URL_Path req) as [|c pa]; [done|]. simpl in H.
      by destruct (route (corsResponse s) pa).
    + by destruct (String.eqb (Method req) "OPTIONS").
  - intros [-> ->]. by eexists.
Qed.

End HandlerInvariants.

(* ===================================================================== *)
(** * Further properties of the WebRTC server actor *)
(* ===================================================================== *)

Section ServerExtras.
Import gochan core props.

Local Abbreviation addItem :=
  (fun (m : gmap string webRTCServerAPIConnsListItem)
       (e : positive * webRTCConn) => <[uuid e.2 := listItem e.2]> m).

Lemma list_items_origin (order : list (positive * webRTCConn)) :
  forall (m : gmap string webRTCServerAPIConnsListItem) k item,
    foldl addItem m order !! k = Some item ->
    m !! k = Some item \/
    exists e, In e order /\ uuid e.2 = k /\ item = listItem e.2.
Proof.
  induction order as [|e order IH]; intros m k item H; simpl in H.
  - by left.
  - apply IH in H as [H|(e' & Hin & Hk & Hi)].
    + destruct (decide (uuid e.2 = k)) as [Heq|Hne].
      * subst k. rewrite lookup_insert_eq in H. inversion H; subst.
        right. exists e. split; [by left|done].
      * rewrite lookup_insert_ne in H by done. by left.
    + right. exists e'. split; [by right|done].
Qed.

Lemma list_items_present (order : list (positive * webRTCConn)) :
  forall (m : gmap string webRTCServerAPIConnsListItem) k,
    is_Some (m !! k) \/ (exists e, In e order /\ uuid e.2 = k) ->
    is_Some (foldl addItem m order !! k).
Proof.
  induction order as [|e order IH]; intros m k H; simpl.
  - destruct H as [H|(e & [] & _)]. done.
  - apply IH. destruct (decide (uuid e.2 = k)) as [Heq|Hne].
    + left. subst k. rewrite lookup_insert_eq. by eexists.
    + destruct H as [H|(e' & [->|Hin] & Hk)].
      * left. by rewrite lookup_insert_ne.
      * done.
      * right. by exists e'.
Qed.

(** X5. The connections list shows the tracked connections and nothing
    else, whether or not UUIDs repeat: for a delivered request and any
    order in which [run] ranges over its connections, the server is left
    unchanged, a key is present in the items exactly when some tracked
    connection has that UUID, and every item is the item of a tracked
    connection with the UUID it is filed under. *)
Theorem apiConnsList_lists_exactly_tracked (s : webRTCServer) (pick : bool)
    (order : list (positive * webRTCConn)) :
  goSelect (offer pick s) = SelComm ->
  range_order s order ->
  exists data,
    apiConnsList pick order s =
      (s, Returned {| ListRes_data := Some data; ListRes_err := None |}) /\
    (forall k, is_Some (Items data !! k) <-> tracked k s) /\
    (forall k item, Items data !! k = Some item ->
       exists cp c, conns s !! cp = Some c /\ uuid c = k /\
                    item = listItem c).
Proof.
  intros Hsel Hord. unfold apiConnsList. rewrite Hsel.
  eexists. split; [reflexivity|]. simpl. split.
  - intros k. split.
    + intros [item H]. apply list_items_origin in H as [H|(e & Hin & Hk & _)].
      * by rewrite lookup_empty in H.
      * apply (range_order_elem s order e Hord) in Hin.
        by exists e.1, e.2.
    + intros (cp & c & Hc & Hk). apply list_items_present. right.
      exists (cp, c). split; [|done].
      by apply (range_order_elem s order (cp, c) Hord).
  - intros k item H. apply list_items_origin in H as [H|(e & Hin & Hk & Hi)].
    + by rewrite lookup_empty in H.
    + apply (range_order_elem s order e Hord) in Hin.
      by exists e.1, e.2.
Qed.

Lemma list_items_size (order : list (positive * webRTCConn)) :
  forall m : gmap string webRTCServerAPIConnsListItem,
    NoDup (map (fun e => uuid e.2) order) ->
    (forall e, In e order -> m !! uuid e.2 = None) ->
    size (foldl addItem m order) = (size m + length order)%nat.
Proof.
  induction order as [|e order IH]; intros m Hnd Hfresh; simpl.
  - lia.
  - inversion Hnd as [|? ? Hnotin Hnd']; subst.
    rewrite IH.
    + rewrite map_size_insert_None by (apply Hfresh; by left). lia.
    + done.
    + intros e' He'. rewrite lookup_insert_ne.
      * apply Hfresh. by right.
      * intros Heq. apply Hnotin. rewrite Heq.
        apply list_elem_of_In. apply in_map_iff. by exists e'.
Qed.

(** X6. With pairwise distinct UUIDs the list has one item per tracked
    connection: the number of items is the number of connections. *)
Theorem apiConnsList_one_item_per_connection (s : webRTCServer)
    (pick : bool) (order : list (positive * webRTCConn)) :
  goSelect (offer pick s) = SelComm ->
  range_order s order ->
  uuid_unique s ->
  exists data,
    (apiConnsList pick order s).2 =
      Returned {| ListRes_data := Some data; ListRes_err := None |} /\
    size (Items data) = size (conns s).
Proof.
  intros Hsel Hord Huniq. unfold apiConnsList. rewrite Hsel.
  eexists. split; [reflexivity|]. simpl.
  assert (Hnd : NoDup order).
  { unfold range_order in Hord. rewrite Hord. apply NoDup_map_to_list. }
  rewrite list_items_size.
  - rewrite map_size_empty. simpl.
    unfold range_order in Hord. rewrite Hord.
    apply length_map_to_list.
  - apply (NoDup_fmap_2_strong (fun e : positive * webRTCConn => uuid e.2));
      [|done].
    intros [cp1 c1] [cp2 c2] H1 H2 Heq. simpl in Heq.
    apply list_elem_of_In in H1, H2.
    apply (range_order_elem s order _ Hord) in H1, H2. simpl in H1, H2.
    pose proof (Huniq cp1 cp2 c1 c2 H1 H2 Heq) as ->.
    congruence.
  - intros e _. apply lookup_empty.
Qed.

(** X7. Kicking when UUIDs may repeat. For a delivered request and any
    iteration order, the kick returns without error exactly when some
    tracked connection has the id; it then removes one connection with
    that id, keeps every other connection, and calls [close()] on the
    removed one only; otherwise the server is unchanged. *)
Theorem apiConnsKick_removes_one (s : webRTCServer) (pick : bool)
    (order : list (positive * webRTCConn)) (id : string) :
  goSelect (offer pick s) = SelComm ->
  range_order s order ->
  let '(s1, out) := apiConnsKick pick order id s in
  (out = Returned {| KickRes_err := None |} <-> tracked id s) /\
  (tracked id s ->
     exists cp c,
       conns s !! cp = Some c /\ uuid c = id /\
       conns s1 = delete cp (conns s) /\
       S (size (conns s1)) = size (conns s) /\
       closed s1 = closed s ++ [cp]) /\
  (~ tracked id s ->
     s1 = s /\
     out = Returned {| KickRes_err := Some (errorString "not found") |}).
Proof.
  intros Hsel Hord. unfold apiConnsKick. rewrite Hsel.
  unfold onAPIConnsKick.
  destruct (List.find _ order) as [e|] eqn:Hfind.
  - apply find_some in Hfind as [Hin Heq].
    apply (range_order_elem s order e Hord) in Hin.
    apply String.eqb_eq in Heq.
    assert (Htr : tracked id s) by (by exists e.1, e.2).
    split; [done|]. split; [|done].
    intros _. exists e.1, e.2. simpl. repeat split; try done.
    rewrite map_size_delete, Hin.
    assert (size (conns s) <> 0%nat); [|lia].
    intros Hz. apply map_size_empty_inv in Hz. rewrite Hz in Hin.
    by rewrite lookup_empty in Hin.
  - assert (Hno : ~ tracked id s).
    { intros (cp & c & Hc & Hid).
      assert (Hin : In (cp, c) order)
        by (by apply (range_order_elem s order (cp, c) Hord)).
      pose proof (find_none _ _ Hfind (cp, c) Hin) as Hf. simpl in Hf.
      rewrite Hid, String.eqb_refl in Hf. done. }
    split; [split; [done|by intros ?]|]. split; [done|]. done.
Qed.

(** X8. Distinct UUIDs are an invariant of the actor. Cancellation,
    [connClose], the list, the kick and [run]'s exit keep the UUIDs of the
    tracked connections pairwise distinct; a new connection keeps them so
    when no tracked connection has its UUID. *)
Theorem step_keeps_uuid_unique (ev : event) (s s1 : webRTCServer) :
  uuid_unique s ->
  step ev s = Some s1 ->
  (forall req cp c, ev = EvConnNew req cp c -> absent (uuid c) s) ->
  uuid_unique s1.
Proof.
  intros Huniq Hstep Hfresh.
  assert (Hsub : (forall cp c, conns s1 !! cp = Some c ->
                               conns s !! cp = Some c) -> uuid_unique s1).
  { intros Hsub cp1 cp2 c1 c2 H1 H2 Heq.
    eapply Huniq; [by apply Hsub|by apply Hsub|done]. }
  destruct ev; simpl in Hstep.
  - inversion Hstep; subst. by apply Hsub.
  - destruct (running s); [|done]. inversion Hstep; subst. clear Hsub.
    specialize (Hfresh req cp c eq_refl).
    intros cp1 cp2 c1 c2 H1 H2 Heq. simpl in H1, H2.
    apply lookup_insert_Some in H1 as [[<- <-]|[Hne1 H1]];
      apply lookup_insert_Some in H2 as [[<- <-]|[Hne2 H2]]; try done.
    + exfalso. by apply (Hfresh cp2 c2).
    + exfalso. by apply (Hfresh cp1 c1).
    + by eapply Huniq.
  - destruct (running s); [|done]. inversion Hstep; subst. apply Hsub.
    simpl. intros cp0 c0 H. by apply lookup_delete_Some in H as [_ H].
  - destruct (running s); [|done]. inversion Hstep; subst. by apply Hsub.
  - destruct (running s); [|done]. inversion Hstep; subst. apply Hsub.
    unfold onAPIConnsKick. destruct (List.find _ order); simpl; [|done].
    intros cp0 c0 H. by apply lookup_delete_Some in H as [_ H].
  - destruct (running s && ctxDone s); [|done]. inversion Hstep; subst.
    by apply Hsub.
Qed.

Lemma step_monotone (ev : event) (s s1 : webRTCServer) :
  step ev s = Some s1 ->
  allowOrigin s1 = allowOrigin s /\
  (ctxDone s = true -> ctxDone s1 = true) /\
  (running s = false ->
     running s1 = false /\ conns s1 = conns s /\ closed s1 = closed s) /\
  closed s `prefix_of` closed s1.
Proof.
  intros Hstep. destruct ev; simpl in Hstep.
  - inversion Hstep; subst. simpl. by repeat split.
  - destruct (running s); [|done]. inversion Hstep; subst. simpl.
    by repeat split.
  - destruct (running s); [|done]. inversion Hstep; subst. simpl.
    by repeat split.
  - destruct (running s); [|done]. inversion Hstep; subst. by repeat split.
  - destruct (running s); [|done]. inversion Hstep; subst.
    unfold onAPIConnsKick. destruct (List.find _ order); simpl.
    + repeat split; try done. by apply prefix_app_r.
    + by repeat split.
  - destruct (running s) eqn:Hr; [|done].
    destruct (ctxDone s); [|done]. inversion Hstep; subst. simpl.
    by repeat split.
Qed.

(** X9. Cancellation and termination are final. Along any sequence of
    events the allowed origin is constant, a cancelled context stays
    cancelled, the connections on which [close()] was called only grow,
    and once [run] has returned it stays returned and the connection set
    and the closed connections no longer change. *)
Theorem steps_monotone (evs : list event) :
  forall s s1,
    steps evs s = Some s1 ->
    allowOrigin s1 = allowOrigin s /\
    (ctxDone s = true -> ctxDone s1 = true) /\
    (running s = false ->
       running s1 = false /\ conns s1 = conns s /\ closed s1 = closed s) /\
    closed s `prefix_of` closed s1.
Proof.
  induction evs as [|ev evs IH]; intros s s1 Hsteps; simpl in Hsteps.
  - inversion Hsteps; subst. by repeat split.
  - destruct (step ev s) as [s0|] eqn:Hstep; [|done].
    apply step_monotone in Hstep as (Ho & Hd & Hr & Hc).
    apply IH in Hsteps as (Ho' & Hd' & Hr' & Hc').
    split; [congruence|]. split; [auto|]. split.
    + intros Hstop. destruct (Hr Hstop) as (Hr1 & Hc1 & Hcl1).
      destruct (Hr' Hr1) as (Hr2 & Hc2 & Hcl2).
      split; [done|]. split; congruence.
    + by etrans.
Qed.

(** X10. A connection that is created and then kicked leaves the
    connection set as it was. [newConn] is delivered with a connection
    object at a new address whose UUID no tracked connection has; the
    connection is then listed under its UUID, and a delivered kick of that
    UUID, in whatever order [run] ranges, returns no error, restores the
    connection set and calls [close()] on that connection. *)
Theorem newConn_then_kick_round_trip (s : webRTCServer) (pick : bool)
    (req : webRTCConnNewReq) (cp : positive) (c : webRTCConn) :
  goSelect (offer pick s) = SelComm ->
  conns s !! cp = None ->
  absent (uuid c) s ->
  let '(s1, out1) := newConn pick req cp c s in
  out1 = Returned (Some cp) /\
  conns s1 !! cp = Some c /\
  forall pick2 order1,
    goSelect (offer pick2 s1) = SelComm ->
    range_order s1 order1 ->
    (exists data,
       (apiConnsList pick2 order1 s1).2 =
         Returned {| ListRes_data := Some data; ListRes_err := None |} /\
       Items data !! uuid c = Some (listItem c)) /\
    let '(s2, out2) := apiConnsKick pick2 order1 (uuid c) s1 in
    out2 = Returned {| KickRes_err := None |} /\
    conns s2 = conns s /\
    closed s2 = closed s ++ [cp].
Proof.
  intros Hsel Hnew Habs. unfold newConn. rewrite Hsel.
  split; [done|]. split; [apply lookup_insert_eq|].
  intros pick2 order1 Hsel2 Hord1.
  assert (Honly : forall e, In e order1 -> uuid e.2 = uuid c -> e = (cp, c)).
  { intros [cp' c'] Hin Heq.
    apply (range_order_elem _ order1 _ Hord1) in Hin. simpl in Hin, Heq.
    apply lookup_insert_Some in Hin as [[<- <-]|[_ Hin]]; [done|].
    exfalso. by apply (Habs cp' c'). }
  assert (Hin : In (cp, c) order1).
  { apply (range_order_elem _ order1 (cp, c) Hord1). simpl.
    apply lookup_insert_eq. }
  split.
  - unfold apiConnsList. rewrite Hsel2. eexists. split; [reflexivity|].
    simpl. apply list_items_lookup.
    + intros e He Heq. by rewrite (Honly e He Heq).
    + left. by exists cp.
  - unfold apiConnsKick. rewrite Hsel2. unfold onAPIConnsKick.
    destruct (List.find _ order1) as [e|] eqn:Hfind.
    + apply find_some in Hfind as [He Heq].
      apply String.eqb_eq in Heq.
      rewrite (Honly e He Heq). simpl.
      split; [done|]. split; [|done].
      by apply delete_insert_id.
    + exfalso. pose proof (find_none _ _ Hfind (cp, c) Hin) as Hf.
      simpl in Hf. by rewrite String.eqb_refl in Hf.
Qed.

(** X11. [connClose] forgets a connection without closing it. A delivered
    [connClose] leaves the pointer untracked and every other connection
    as it was, calls [close()] on nothing, changes nothing at all when the
    pointer was not tracked, and has no further effect when repeated. *)
Theorem connClose_forgets (s : webRTCServer) (pick : bool)
    (cp : positive) :
  goSelect (offer pick s) = SelComm ->
  let '(s1, out) := connClose pick cp s in
  out = Returned tt /\
  conns s1 !! cp = None /\
  (forall cp', cp' <> cp -> conns s1 !! cp' = conns s !! cp') /\
  closed s1 = closed s /\
  (conns s !! cp = None -> s1 = s) /\
  (connClose pick cp s1).1 = s1.
Proof.
  intros Hsel. unfold connClose. rewrite Hsel. simpl.
  assert (Hsel1 : goSelect (offer pick (onConnClose cp s)) = SelComm)
    by done.
  rewrite Hsel1. unfold onConnClose. simpl.
  split; [done|]. split; [apply lookup_delete_eq|].
  split; [intros cp' Hne; by apply lookup_delete_ne|]. split; [done|].
  split.
  - intros Hnone. destruct s. unfold set_conns. simpl in *. f_equal.
    by apply delete_id.
  - unfold set_conns. simpl. f_equal. apply delete_delete_eq.
Qed.

End ServerExtras.

(* ===================================================================== *)
(** * Properties of starting and stopping the server *)
(* ===================================================================== *)

Section SetupProperties.
Import core setup.

Lemma closeListener_head (l : listener) (rest : list listener) :
  closeListener l (l :: rest) = rest.
Proof.
  simpl. assert (Hrefl : listener_eqb l l = true)
    by (destruct l; apply String.eqb_refl).
  by rewrite Hrefl.
Qed.

Lemma openMux_result listen network address mk err_or :
  openMux listen network address mk = err_or ->
  match err_or with
  | inl err => address <> EmptyString /\ listen network address = Some err
  | inr None => address = EmptyString
  | inr (Some l) => address <> EmptyString /\ l = mk address
  end.
Proof.
  unfold openMux. intros <-.
  destruct (String.eqb address EmptyString) eqn:Ha.
  - by apply String.eqb_eq.
  - apply String.eqb_neq in Ha. by destruct (listen network address).
Qed.

(** X12. A server that started is fully released by [close]. When
    [newWebRTCServer] succeeds, the listeners left open are the HTTP
    listener on [address] and one ICE mux listener for each mux address
    that is not empty; the actor starts running with no connection and a
    live context. [close()] then cancels the context, [run] returns and
    closes every one of these listeners, so none is left open; a second
    [close()] finds [run] returned and changes nothing. *)
Theorem newWebRTCServer_then_close (env : netEnv) (address : string)
    (encryption : bool) (serverKey serverCert origin : string)
    (metrics : bool) (iceUDPMuxAddress iceTCPMuxAddress : string)
    (open : list listener) (i : instance) :
  newWebRTCServer env address encryption serverKey serverCert origin
                  metrics iceUDPMuxAddress iceTCPMuxAddress
    = (open, inr i) ->
  open = ln i :: option_list (udpMuxLn i) ++ option_list (tcpMuxLn i) /\
  ln i = HTTPListener address /\
  udpMuxLn i = (if String.eqb iceUDPMuxAddress EmptyString then None
                else Some (UDPMuxListener iceUDPMuxAddress)) /\
  tcpMuxLn i = (if String.eqb iceTCPMuxAddress EmptyString then None
                else Some (TCPMuxListener iceTCPMuxAddress)) /\
  server i = core.newWebRTCServer origin /\
  let '(i1, open1, _) := close i open in
  open1 = [] /\
  running (server i1) = false /\ ctxDone (server i1) = true /\
  conns (server i1) = ∅ /\
  (close i1 open1).1 = (i1, []).
Proof.
  unfold newWebRTCServer. intros H.
  destruct (Listen env "tcp" address); [done|].
  destruct (if encryption then _ else _); [done|].
  destruct (openMux (ListenPacket env) "udp" iceUDPMuxAddress
                    UDPMuxListener) as [?|udp] eqn:Hudp; [done|].
  destruct (openMux (Listen env) "tcp" iceTCPMuxAddress TCPMuxListener)
    as [?|tcp] eqn:Htcp; [done|].
  apply openMux_result in Hudp, Htcp.
  inversion H; subst open i. clear H. simpl.
  split; [done|]. split; [done|].
  assert (Hu : udp = if String.eqb iceUDPMuxAddress EmptyString then None
                     else Some (UDPMuxListener iceUDPMuxAddress)).
  { destruct udp as [l|].
    - destruct Hudp as [Hne ->]. apply String.eqb_neq in Hne.
      by rewrite Hne.
    - by rewrite Hudp. }
  assert (Ht : tcp = if String.eqb iceTCPMuxAddress EmptyString then None
                     else Some (TCPMuxListener iceTCPMuxAddress)).
  { destruct tcp as [l|].
    - destruct Htcp as [Hne ->]. apply String.eqb_neq in Hne.
      by rewrite Hne.
    - by rewrite Htcp. }
  split; [done|]. split; [done|]. split; [done|].
  unfold close, runExit. simpl. rewrite String.eqb_refl.
  assert (Hall : closeIfOpen tcp
                   (closeIfOpen udp (option_list udp ++ option_list tcp))
                 = []).
  { destruct udp as [u|], tcp as [t|]; unfold closeIfOpen;
      repeat match goal with
             | |- context [option_list ?o] =>
                 change (option_list o) with (@nil listener) ||
                 (match o with
                  | Some ?x => change (option_list o) with [x]
                  end)
             end;
      change ([] ++ [t]) with [t] || idtac;
      rewrite <- ?app_comm_cons, ?app_nil_l, ?app_nil_r;
      rewrite ?closeListener_head; done. }
  rewrite Hall. by repeat split.
Qed.

(** X13. What a failed start leaves open. When [newWebRTCServer] returns
    an error, either the HTTP listener could not be opened or the key pair
    could not be loaded, and then no listener is open (the listener is
    closed before the return); or an ICE mux listener could not be opened,
    and then the HTTP listener on [address] is still open when the
    function returns, together with the UDP mux listener when it is the
    TCP one that failed. *)
Theorem newWebRTCServer_failure (env : netEnv) (address : string)
    (encryption : bool) (serverKey serverCert origin : string)
    (metrics : bool) (iceUDPMuxAddress iceTCPMuxAddress : string)
    (open : list listener) (err : error) :
  newWebRTCServer env address encryption serverKey serverCert origin
                  metrics iceUDPMuxAddress iceTCPMuxAddress
    = (open, inl err) ->
  (open = [] /\
   (Listen env "tcp" address = Some err \/
    (encryption = true /\
     LoadX509KeyPair env serverCert serverKey = Some err))) \/
  (open = [HTTPListener address] /\
   iceUDPMuxAddress <> EmptyString /\
   ListenPacket env "udp" iceUDPMuxAddress = Some err) \/
  (open = HTTPListener address ::
          (if String.eqb iceUDPMuxAddress EmptyString then []
           else [UDPMuxListener iceUDPMuxAddress]) /\
   iceTCPMuxAddress <> EmptyString /\
   Listen env "tcp" iceTCPMuxAddress = Some err).
Proof.
  unfold newWebRTCServer. intros H.
  destruct (Listen env "tcp" address) as [e0|] eqn:Hln.
  { inversion H; subst. left. split; [done|]. by left. }
  destruct encryption.
  - destruct (LoadX509KeyPair env serverCert serverKey) as [e1|] eqn:Hkey.
    { inversion H; subst. left. split; [|by right].
      simpl. by rewrite String.eqb_refl. }
    destruct (openMux (ListenPacket env) "udp" iceUDPMuxAddress
                      UDPMuxListener) as [e2|udp] eqn:Hudp.
    { apply openMux_result in Hudp as [Hne Hfail].
      inversion H; subst. right. by left. }
    destruct (openMux (Listen env) "tcp" iceTCPMuxAddress TCPMuxListener)
      as [e3|tcp] eqn:Htcp; [|done].
    apply openMux_result in Htcp as [Hne Hfail].
    apply openMux_result in Hudp.
    inversion H; subst. right. right. split; [|done].
    destruct udp as [l|].
    + destruct Hudp as [Hu ->]. apply String.eqb_neq in Hu.
      by rewrite Hu.
    + by rewrite Hudp.
  - destruct (openMux (ListenPacket env) "udp" iceUDPMuxAddress
                      UDPMuxListener) as [e2|udp] eqn:Hudp.
    { apply openMux_result in Hudp as [Hne Hfail].
      inversion H; subst. right. by left. }
    destruct (openMux (Listen env) "tcp" iceTCPMuxAddress TCPMuxListener)
      as [e3|tcp] eqn:Htcp; [|done].
    apply openMux_result in Htcp as [Hne Hfail].
    apply openMux_result in Hudp.
    inversion H; subst. right. right. split; [|done].
    destruct udp as [l|].
    + destruct Hudp as [Hu ->]. apply String.eqb_neq in Hu.
      by rewrite Hu.
    + by rewrite Hudp.
Qed.

End SetupProperties.

(* ===================================================================== *)
(** * Further properties of the fMP4 client processor *)
(* ===================================================================== *)

Section ProcessorExtras.
Import gochan hls props.

Variable U : Type.
Variable PartRead : string -> error + list PartTrack.
Variable now : nat -> Z.
Variable sch : nat -> sched.

Local Abbreviation proc := (clientProcessorFMP4 U).
Local Abbreviation rangeSubparts := (hls.rangeSubparts U now sch).
Local Abbreviation waitProcessed := (hls.waitProcessed sch).
Local Abbreviation processSegment := (hls.processSegment U PartRead now sch).
Local Abbreviation run := (hls.run U PartRead now sch).
Local Abbreviation isVideo := (hls.isVideoSubpart U).

(** What one pass through lines 123-136 does to the processor. *)
Lemma initClock_facts (track : PartTrack) (p : proc) (r : rt) :
  let '(p1, r1) := initClock U now track p r in
  initVideoTrack p1 = initVideoTrack p /\
  initAudioTrack p1 = initAudioTrack p /\
  sentTo (videoProc p1) = sentTo (videoProc p) /\
  (is_Some (videoProc p1) <-> is_Some (videoProc p)) /\
  nsel r1 = nsel r /\
  clockInitialized p1 = true /\
  startBaseTime p1 = clockStart p (track :: []) /\
  rebased r1 = rebased r /\ logs r1 = logs r.
Proof.
  unfold initClock, clockStart.
  destruct (clockInitialized p) eqn:Hinit; simpl.
  - by rewrite Hinit.
  - repeat split; try done; destruct (videoProc p); simpl; try done;
      intros [? [=]].
Qed.

Lemma clockStart_cons (p : proc) (track : PartTrack) (rest : list PartTrack) :
  clockStart p (track :: rest) = clockStart p [track].
Proof. done. Qed.

Lemma filter_isVideo_ext (p q : proc) (l : list PartTrack) :
  initVideoTrack q = initVideoTrack p ->
  List.filter (isVideo q) l = List.filter (isVideo p) l.
Proof.
  intros Hv. apply List.filter_ext. intros t.
  unfold isVideoSubpart. by rewrite Hv.
Qed.

Lemma rangeSubparts_completed (subs : list PartTrack) :
  forall (p : proc) r pc p' r' n,
    rangeSubparts p r pc subs = (p', r', inr n) ->
    let vids := List.filter (isVideo p) subs in
    n = (pc + length vids)%nat /\
    nsel r' = (nsel r + length vids)%nat /\
    sentTo (videoProc p') =
      sentTo (videoProc p) ++ map (rebase (clockStart p subs)) vids.
Proof.
  induction subs as [|track rest IH]; intros p r pc p' r' n H; simpl in H.
  - inversion H; subst. simpl. rewrite app_nil_r. repeat split; lia.
  - pose proof (initClock_facts track p r) as Hfacts.
    destruct (initClock U now track p r) as [p1 r1].
    destruct Hfacts as (Hv & _ & Hq & _ & Hn & Hinit & Hstart & _ & _).
    rewrite <- clockStart_cons with (rest := rest) in Hstart.
    assert (Hvid : isVideo p1
              (set_BaseTime track
                 (uint64_sub (BaseTime track) (startBaseTime p1)))
            = isVideo p track).
    { unfold isVideoSubpart. by rewrite Hv. }
    rewrite Hvid in H. simpl.
    destruct (isVideo p track) eqn:Hisv.
    + destruct (videoProc p1) as [v|] eqn:Hvp; [|done].
      destruct (goSelect _); [|done..].
      apply IH in H. simpl in H. destruct H as (Hn' & Hs' & Hq').
      rewrite (filter_isVideo_ext p) in Hn', Hs', Hq' by done.
      rewrite clockStart_initialized in Hq' by done. simpl in Hq'.
      simpl in Hq.
      simpl. repeat split; [lia|lia|].
      rewrite Hq', Hq, Hstart. unfold rebase at 2.
      by rewrite <- app_assoc.
    + apply IH in H. simpl in H. destruct H as (Hn' & Hs' & Hq').
      rewrite (filter_isVideo_ext p) in Hn', Hs', Hq' by done.
      rewrite clockStart_initialized in Hq' by done.
      repeat split; [lia|simpl in *; lia|].
      by rewrite Hq', Hq, Hstart.
Qed.

Lemma waitProcessed_completed (n : nat) :
  forall r r',
    waitProcessed r n = (r', Returned None) ->
    nsel r' = (nsel r + n)%nat.
Proof.
  induction n as [|n IH]; intros r r' H; simpl in H.
  - inversion H; subst. lia.
  - destruct (goSelect _); [|done..]. apply IH in H. simpl in H. lia.
Qed.

(** X14. A segment is done only when every video subpart went through.
    Whenever [processSegment] returns without error on a segment that
    [PartRead] accepts, however the blocking operations resolved: every
    part track of the segment was rebased, the video track processor was
    sent exactly the video subparts of the segment (those whose ID is the
    video init track's), rebased and in their order, and the processor
    resolved two blocking operations per video subpart, the enqueue and
    the wait for its processing. *)
Theorem processSegment_completed (p : proc) (r : rt) (byts : string)
    (subs : list PartTrack) (p' : proc) (r' : rt) :
  PartRead byts = inr subs ->
  processSegment p r byts = (p', r', Returned None) ->
  let vids := List.filter (isVideo p) subs in
  rebased r' = rebased r ++ map (rebase (clockStart p subs)) subs /\
  sentTo (videoProc p') =
    sentTo (videoProc p) ++ map (rebase (clockStart p subs)) vids /\
  nsel r' = (nsel r + 2 * length vids)%nat /\
  logs r' = logs r ++ ["processing segment"].
Proof.
  intros Hread Hseg.
  pose proof (processSegment_clock U PartRead now sch _ _ _ _ _ _ Hseg)
    as Hclock.
  rewrite Hread in Hclock.
  destruct Hclock as (seen & _ & Hr & Hall & _).
  rewrite (Hall eq_refl) in Hr. split; [done|].
  unfold hls.processSegment in Hseg. rewrite Hread in Hseg.
  destruct (hls.rangeSubparts _ _ _ _ _ _ _) as [[p1 r1] [o|n]] eqn:Hrange.
  - inversion Hseg; subst. by apply rangeSubparts_exit in Hrange.
  - pose proof (rangeSubparts_clock U now sch _ _ _ _ _ _ _ Hrange)
      as [Hlogs _].
    apply rangeSubparts_completed in Hrange.
    destruct Hrange as (Hn & Hs & Hq).
    destruct (hls.waitProcessed _ _ _) as [r2 o2] eqn:Hwait.
    inversion Hseg; subst p1 r2 o2.
    pose proof (waitProcessed_frame sch _ _ _ _ Hwait) as (_ & Hl2 & _).
    apply waitProcessed_completed in Hwait.
    simpl in *. split; [done|]. split; [lia|]. congruence.
Qed.

Lemma rangeSubparts_wellFormed (subs : list PartTrack) :
  forall (p : proc) r pc p' r' res,
    wellFormed p ->
    rangeSubparts p r pc subs = (p', r', res) ->
    wellFormed p' /\ (forall m, res <> inl (Panicked m)) /\
    (always_comm sch -> exists n, res = inr n).
Proof.
  induction subs as [|track rest IH]; intros p r pc p' r' res Hwf H;
    simpl in H.
  - inversion H; subst. split; [done|]. split; [done|]. by eexists.
  - pose proof (initClock_facts track p r) as Hfacts.
    destruct (initClock U now track p r) as [p1 r1].
    destruct Hfacts as (Hv & _ & _ & Hsome & _).
    assert (Hwf1 : wellFormed p1).
    { unfold wellFormed. rewrite Hv, Hsome. exact Hwf. }
    destruct (isVideo p1 _) eqn:Hisv.
    + assert (Hvp : is_Some (videoProc p1)).
      { apply Hwf1. unfold isVideoSubpart in Hisv.
        by destruct (initVideoTrack p1). }
      destruct Hvp as [v Hvp]. rewrite Hvp in H.
      destruct (goSelect _) eqn:Hsel.
      * eapply IH; [|exact H]. unfold wellFormed. simpl. by eexists.
      * inversion H; subst. split; [done|]. split; [done|].
        intros Hlive. by rewrite Hlive in Hsel.
      * inversion H; subst. split; [done|]. split; [done|].
        intros Hlive. by rewrite Hlive in Hsel.
    + by eapply IH.
Qed.

Lemma waitProcessed_live (n : nat) :
  always_comm sch ->
  forall r, (waitProcessed r n).2 = Returned None.
Proof.
  intros Hlive. induction n as [|n IH]; intros r; simpl; [done|].
  rewrite Hlive. apply IH.
Qed.

Lemma processSegment_wellFormed (p : proc) (r : rt) (byts : string)
    (p' : proc) (r' : rt) out :
  wellFormed p ->
  processSegment p r byts = (p', r', out) ->
  wellFormed p' /\ (forall m, out <> Panicked m) /\
  (always_comm sch ->
   out = match PartRead byts with
         | inl err => Returned (Some err)
         | inr _ => Returned None
         end).
Proof.
  intros Hwf H. unfold hls.processSegment in H.
  destruct (PartRead byts) as [err|subs].
  - inversion H; subst. by repeat split.
  - destruct (hls.rangeSubparts _ _ _ _ _ _ _) as [[p1 r1] res] eqn:Hrange.
    apply rangeSubparts_wellFormed in Hrange as (Hwf1 & Hnp & Hlive);
      [|done].
    destruct res as [o|n].
    + inversion H; subst. split; [done|]. split.
      * intros m ->. by apply (Hnp m).
      * intros Hl. by destruct (Hlive Hl).
    + destruct (hls.waitProcessed _ _ _) as [r2 o2] eqn:Hwait.
      inversion H; subst. split; [done|]. split.
      * intros m ->.
        by apply waitProcessed_out in Hwait as [?|[?|?]].
      * intros Hl. pose proof (waitProcessed_live n Hl r1) as Hw.
        by rewrite Hwait in Hw.
Qed.

Lemma run_wellFormed (pulled : list string) :
  forall (p : proc) r p' r' out,
    wellFormed p ->
    run p r pulled = (p', r', out) ->
    (forall m, out <> Panicked m) /\
    (always_comm sch ->
     out = Returned (firstError PartRead pulled) /\
     logs r' =
       logs r ++ repeat "processing segment" (attempted PartRead pulled)).
Proof.
  induction pulled as [|seg rest IH]; intros p r p' r' out Hwf H;
    simpl in H.
  - inversion H; subst. split; [done|]. intros _. simpl.
    by rewrite app_nil_r.
  - destruct (hls.processSegment _ _ _ _ _ _ _) as [[p1 r1] o1] eqn:Hseg.
    pose proof (processSegment_wellFormed _ _ _ _ _ _ Hwf Hseg)
      as (Hwf1 & Hnp & Hlive).
    assert (Hlog : logs r1 = logs r ++ ["processing segment"]).
    { unfold hls.processSegment in Hseg.
      destruct (PartRead seg); [by inversion Hseg|].
      destruct (hls.rangeSubparts _ _ _ _ _ _ _) as [[p2 r2] res] eqn:Hr.
      apply (rangeSubparts_clock U now sch) in Hr as [Hl _].
      destruct res.
      - inversion Hseg; subst. exact Hl.
      - destruct (hls.waitProcessed _ _ _) as [r3 o3] eqn:Hw.
        apply waitProcessed_frame in Hw as (_ & Hl3 & _).
        inversion Hseg; subst. rewrite Hl3, Hl. done. }
    destruct o1 as [[e|]| |m].
    + inversion H; subst. split; [done|]. intros Hl.
      specialize (Hlive Hl). simpl.
      destruct (PartRead seg); inversion Hlive; subst. by split.
    + apply IH in H as [Hnp' Hrest]; [|done]. split; [done|].
      intros Hl. specialize (Hlive Hl). destruct (Hrest Hl) as [-> Hlogs].
      simpl. destruct (PartRead seg); [done|]. split; [done|].
      rewrite Hlogs, Hlog. simpl. by rewrite <- app_assoc.
    + inversion H; subst. split; [done|]. intros Hl.
      specialize (Hlive Hl). by destruct (PartRead seg).
    + exfalso. by apply (Hnp m).
Qed.

(** X15. A processor built by [newClientProcessorFMP4] never dereferences
    a nil track processor: it has a video track processor whenever it has
    a video init track, and [run] on it, over any segments and however the
    blocking operations resolve, returns or blocks but does not panic. *)
Theorem constructed_processor_never_panics
    (InitRead : string -> error + (option InitTrack * option InitTrack))
    (AVCCUnmarshal : string -> error + list string)
    (initFile : string)
    (onTracks : option Track -> option Track -> U -> U * option error)
    (onVideoData : Z -> list string -> U -> U)
    (onAudioData : Z -> string -> U -> U)
    (u u' : U) (p : proc) (pool : list (clientProcessorFMP4Track U)) :
  newClientProcessorFMP4 U InitRead AVCCUnmarshal initFile onTracks
                         onVideoData onAudioData u
    = Ok (u', inr (p, pool)) ->
  wellFormed p /\
  forall r pulled m, (run p r pulled).2 <> Panicked m.
Proof.
  intros Hnew.
  assert (Hwf : wellFormed p).
  { unfold newClientProcessorFMP4 in Hnew.
    destruct (InitRead initFile) as [err|[iv ia]]; [done|].
    destruct (assertOpt assertTrackH264 iv) as [vt|] eqn:Hv; [|done].
    destruct (assertOpt assertTrackMPEG4Audio ia) as [atr|]; [|done].
    destruct (onTracks vt atr u) as [u1 [err|]]; [done|].
    inversion Hnew; subst. unfold wellFormed. simpl.
    intros [it ->]. unfold assertOpt in Hv.
    destruct (assertTrackH264 it); inversion Hv; subst. by eexists. }
  split; [done|]. intros r pulled m.
  destruct (hls.run _ _ _ _ _ _ _) as [[p' r'] out] eqn:Hrun.
  by apply run_wellFormed in Hrun as [Hnp _].
Qed.

(** X16. With peers that always communicate, [run] on a well-formed
    processor works through the pulled segments in order: it logs one
    line per segment up to and including the first one [PartRead] rejects,
    touches no later segment, and returns the error of that segment, or
    "terminated" when every segment was accepted and the queue reports the
    cancellation. *)
Theorem run_stops_at_first_rejected_segment (p : proc) (r : rt)
    (pulled : list string) :
  wellFormed p ->
  always_comm sch ->
  let '(_, r', out) := run p r pulled in
  out = Returned (firstError PartRead pulled) /\
  logs r' = logs r ++ repeat "processing segment" (attempted PartRead pulled).
Proof.
  intros Hwf Hlive.
  destruct (hls.run _ _ _ _ _ _ _) as [[p' r'] out] eqn:Hrun.
  apply run_wellFormed in Hrun as [_ H]; [|done]. by apply H.
Qed.

End ProcessorExtras.

Section ProcessorClock.
Import gochan hls props.

Variable U : Type.
Variable PartRead : string -> error + list PartTrack.
Variable now : nat -> Z.
Variable sch : nat -> sched.

Local Abbreviation proc := (clientProcessorFMP4 U).
Local Abbreviation rangeSubparts := (hls.rangeSubparts U now sch).
Local Abbreviation processSegment := (hls.processSegment U PartRead now sch).
Local Abbreviation run := (hls.run U PartRead now sch).

Lemma uint64_sub_range (a b : Z) : 0 <= uint64_sub a b < 2 ^ 64.
Proof. unfold uint64_sub. apply Z.mod_pos_bound. lia. Qed.

Lemma uint64_sub_shift (a b start : Z) :
  uint64_sub (uint64_sub a start) (uint64_sub b start) = uint64_sub a b.
Proof.
  unfold uint64_sub. rewrite <- Zminus_mod. f_equal. lia.
Qed.

(** X17. Rebasing keeps the distances between tracks. For everything
    [run] rebases, from any processor state: the rebased base times lie in
    the [uint64] range, the track ID and the samples are untouched, and
    the wrapping difference between the rebased base times of any two
    tracks is the wrapping difference between their original base times,
    also when one of them wrapped around. *)
Theorem run_rebasing_keeps_distances (p : proc) (r : rt)
    (pulled : list string) :
  let '(_, r', _) := run p r pulled in
  exists seen start,
    seen `prefix_of` readSubparts PartRead pulled /\
    rebased r' = rebased r ++ map (rebase start) seen /\
    forall a b, In a seen -> In b seen ->
      0 <= BaseTime (rebase start a) < 2 ^ 64 /\
      ID (rebase start a) = ID a /\
      Samples (rebase start a) = Samples a /\
      uint64_sub (BaseTime (rebase start a)) (BaseTime (rebase start b))
        = uint64_sub (BaseTime a) (BaseTime b).
Proof.
  destruct (hls.run _ _ _ _ _ _ _) as [[p' r'] out] eqn:Hrun.
  apply run_clock in Hrun as (seen & Hp & Hr & _).
  exists seen, (clockStart p (readSubparts PartRead pulled)).
  split; [done|]. split; [done|]. intros a b _ _. simpl.
  split; [apply uint64_sub_range|]. split; [done|]. split; [done|].
  apply uint64_sub_shift.
Qed.

Lemma rangeSubparts_startRTC (subs : list PartTrack) :
  forall (p : proc) r pc p' r' res,
    clockInitialized p = true ->
    rangeSubparts p r pc subs = (p', r', res) ->
    startRTCs p' = startRTCs p.
Proof.
  induction subs as [|track rest IH]; intros p r pc p' r' res Hinit H;
    simpl in H.
  - by inversion H.
  - unfold initClock in H. rewrite Hinit in H.
    destruct (isVideoSubpart U p _).
    + destruct (videoProc p) as [v|] eqn:Hvp; [|by inversion H].
      destruct (goSelect _); [|by inversion H..].
      apply IH in H; [|done]. rewrite H. unfold startRTCs. simpl.
      by rewrite Hvp.
    + by eapply IH.
Qed.

(** X18. The track processors share one wall-clock origin. A segment that
    finds the clock uninitialized and has at least one part track gives
    every track processor that exists the same [startRTC], the value of
    the single [time.Now()] call made for the first track; a segment that
    finds the clock initialized, or has no part track, or is rejected by
    [PartRead], leaves every [startRTC] as it was. *)
Theorem processSegment_startRTC (p : proc) (r : rt) (byts : string) :
  let '(p', _, _) := processSegment p r byts in
  match clockInitialized p, PartRead byts with
  | false, inr (_ :: _) =>
      startRTCs p' =
        ((fun _ => Some (now (nnow r))) <$> videoProc p,
         (fun _ => Some (now (nnow r))) <$> audioProc p)
  | _, _ => startRTCs p' = startRTCs p
  end.
Proof.
  destruct (hls.processSegment _ _ _ _ _ _ _) as [[p' r'] out] eqn:Hseg.
  unfold hls.processSegment in Hseg.
  destruct (PartRead byts) as [err|subs].
  { inversion Hseg; subst. by destruct (clockInitialized p'). }
  destruct (hls.rangeSubparts _ _ _ _ _ _ _) as [[p1 r1] res] eqn:Hrange.
  assert (p' = p1) as ->.
  { destruct res; [by inversion Hseg|].
    destruct (hls.waitProcessed _ _ _). by inversion Hseg. }
  clear Hseg.
  destruct (clockInitialized p) eqn:Hinit.
  - by apply rangeSubparts_startRTC in Hrange.
  - destruct subs as [|track rest]; [by inversion Hrange|].
    simpl in Hrange. unfold initClock in Hrange. rewrite Hinit in Hrange.
    set (q := set_clock U (BaseTime track) _ p) in Hrange.
    assert (Hq : startRTCs q =
              ((fun _ => Some (now (nnow r))) <$> videoProc p,
               (fun _ => Some (now (nnow r))) <$> audioProc p)).
    { unfold startRTCs, q. simpl.
      by destruct (videoProc p), (audioProc p). }
    match type of Hrange with
    | context [if ?b then _ else _] => destruct b
    end.
    + destruct (videoProc q) as [v|] eqn:Hvp; [|by inversion Hrange].
      destruct (goSelect _); [|by inversion Hrange..].
      apply rangeSubparts_startRTC in Hrange; [|done].
      rewrite Hrange, <- Hq. unfold startRTCs. by rewrite Hvp.
    + apply rangeSubparts_startRTC in Hrange; [|done]. by rewrite Hrange.
Qed.

(** X19. One track processor per track. On success
    [newClientProcessorFMP4] has called [onTracks] once, with the tracks of
    the init file, and got no error; the processor has a video (audio)
    track processor exactly when the init file has a video (audio) track,
    with the time scale of that track, an empty queue and no wall-clock
    origin; the routine pool received these processors, video first; and
    the clock is uninitialized. An error is either the one of [InitRead],
    with the user's state untouched ([onTracks] was not called), or the
    one of [onTracks]; the constructor panics only when the video track is
    not H264 or the audio track is not MPEG-4 audio. *)
Theorem newClientProcessorFMP4_processors
    (InitRead : string -> error + (option InitTrack * option InitTrack))
    (AVCCUnmarshal : string -> error + list string)
    (initFile : string)
    (onTracks : option Track -> option Track -> U -> U * option error)
    (onVideoData : Z -> list string -> U -> U)
    (onAudioData : Z -> string -> U -> U) (u : U) :
  match newClientProcessorFMP4 U InitRead AVCCUnmarshal initFile onTracks
                               onVideoData onAudioData u with
  | Ok (u', inr (p, pool)) =>
      InitRead initFile = inr (initVideoTrack p, initAudioTrack p) /\
      onTracks (InitTrack_Track <$> initVideoTrack p)
               (InitTrack_Track <$> initAudioTrack p) u = (u', None) /\
      (timeScale <$> videoProc p) = (TimeScale <$> initVideoTrack p) /\
      (timeScale <$> audioProc p) = (TimeScale <$> initAudioTrack p) /\
      pool = option_list (videoProc p) ++ option_list (audioProc p) /\
      Forall (fun t => queue t = [] /\ startRTC t = None) pool /\
      clockInitialized p = false
  | Ok (u', inl err) =>
      InitRead initFile = inl err /\ u' = u \/
      exists iv ia,
        InitRead initFile = inr (iv, ia) /\
        onTracks (InitTrack_Track <$> iv) (InitTrack_Track <$> ia) u
          = (u', Some err)
  | Panic _ =>
      exists iv ia,
        InitRead initFile = inr (iv, ia) /\
        ((exists it, iv = Some it /\
            forall sps pps, InitTrack_Track it <> TrackH264 sps pps) \/
         (exists it, ia = Some it /\
            forall c, InitTrack_Track it <> TrackMPEG4Audio c))
  end.
Proof.
  unfold newClientProcessorFMP4.
  assert (Hassert : forall f (it : option InitTrack) (t : option Track),
            (f = assertTrackH264 \/ f = assertTrackMPEG4Audio) ->
            assertOpt f it = Ok t -> t = InitTrack_Track <$> it).
  { intros f [it|] t Hf H; simpl in *; [|by inversion H].
    destruct Hf as [-> | ->];
      [unfold assertTrackH264 in H|unfold assertTrackMPEG4Audio in H];
      destruct (InitTrack_Track it); by inversion H. }
  destruct (InitRead initFile) as [err|[iv ia]] eqn:Hread; [by left|].
  destruct (assertOpt assertTrackH264 iv) as [vt|mv] eqn:Hv.
  - pose proof (Hassert _ _ _ (or_introl eq_refl) Hv) as ->.
    destruct (assertOpt assertTrackMPEG4Audio ia) as [atr|ma] eqn:Ha.
    + pose proof (Hassert _ _ _ (or_intror eq_refl) Ha) as ->.
      destruct (onTracks _ _ u) as [u1 [err|]] eqn:Hcb.
      * right. by exists iv, ia.
      * simpl. split; [done|]. split; [done|].
        destruct iv as [iv|], ia as [ia|]; simpl;
          repeat split; try done; repeat constructor.
    + exists iv, ia. split; [done|]. right.
      destruct ia as [it|]; [|done]. exists it. split; [done|].
      intros c Hc. simpl in Ha. unfold assertTrackMPEG4Audio in Ha.
      by rewrite Hc in Ha.
  - exists iv, ia. split; [done|]. left.
    destruct iv as [it|]; [|done]. exists it. split; [done|].
    intros sps pps Hc. simpl in Hv. unfold assertTrackH264 in Hv.
    by rewrite Hc in Hv.
Qed.

End ProcessorClock.

(* ===================================================================== *)
(** * What the processor has rebased and forwarded when [run] returns *)
(* ===================================================================== *)

Section ProcessorTrace.
Import gochan hls props.

Variable U : Type.
Variable PartRead : string -> error + list PartTrack.
Variable now : nat -> Z.
Variable sch : nat -> sched.

Local Abbreviation proc := (clientProcessorFMP4 U).
Local Abbreviation rangeSubparts := (hls.rangeSubparts U now sch).
Local Abbreviation waitProcessed := (hls.waitProcessed sch).
Local Abbreviation processSegment := (hls.processSegment U PartRead now sch).
Local Abbreviation run := (hls.run U PartRead now sch).
Local Abbreviation readSubparts := (hls.readSubparts PartRead).
Local Abbreviation isVideo := (hls.isVideoSubpart U).

(** The loop of lines 122-147 with the clock already initialized: the part
    tracks it touches, and those it has sent to the video track processor
    when it is left. *)
Lemma rangeSubparts_trace_init (subs : list PartTrack) :
  forall (p : proc) r pc p' r' res,
    clockInitialized p = true ->
    rangeSubparts p r pc subs = (p', r', res) ->
    clockInitialized p' = true /\ startBaseTime p' = startBaseTime p /\
    nnow r' = nnow r /\ initVideoTrack p' = initVideoTrack p /\
    exists seen sent,
      seen `prefix_of` subs /\
      rebased r' = rebased r ++ map (rebase (startBaseTime p)) seen /\
      sentTo (videoProc p') =
        sentTo (videoProc p) ++ map (rebase (startBaseTime p)) sent /\
      match res with
      | inr n =>
          seen = subs /\ sent = List.filter (isVideo p) subs /\
          n = (pc + length sent)%nat
      | inl o =>
          (o = Returned (Some terminated) \/ o = Blocked \/
           exists m, o = Panicked m) /\
          exists pre last,
            seen = pre ++ [last] /\ isVideo p last = true /\
            sent = List.filter (isVideo p) pre
      end.
Proof.
  induction subs as [|track rest IH]; intros p r pc p' r' res Hinit Hrun.
  - simpl in Hrun. inversion Hrun; subst. repeat split; try done.
    exists [], []. simpl. rewrite !app_nil_r. repeat split; try done; lia.
  - simpl in Hrun. unfold initClock in Hrun. rewrite Hinit in Hrun.
    set (track1 := set_BaseTime track _) in Hrun.
    assert (Htrack : track1 = rebase (startBaseTime p) track) by done.
    assert (Hvid : isVideo p track1 = isVideo p track) by done.
    rewrite Hvid in Hrun.
    assert (Hstop : forall r0 o,
              isVideo p track = true ->
              rebased r0 = rebased r ++ [track1] -> nnow r0 = nnow r ->
              (o = Returned (Some terminated) \/ o = Blocked \/
               exists m, o = Panicked m) ->
              (p, r0, @inl _ nat o) = (p', r', res) ->
              clockInitialized p' = true /\
              startBaseTime p' = startBaseTime p /\
              nnow r' = nnow r /\ initVideoTrack p' = initVideoTrack p /\
              exists seen sent,
                seen `prefix_of` track :: rest /\
                rebased r' =
                  rebased r ++ map (rebase (startBaseTime p)) seen /\
                sentTo (videoProc p') =
                  sentTo (videoProc p) ++
                  map (rebase (startBaseTime p)) sent /\
                match res with
                | inr n =>
                    seen = track :: rest /\
                    sent = List.filter (isVideo p) (track :: rest) /\
                    n = (pc + length sent)%nat
                | inl o =>
                    (o = Returned (Some terminated) \/ o = Blocked \/
                     exists m, o = Panicked m) /\
                    exists pre last,
                      seen = pre ++ [last] /\ isVideo p last = true /\
                      sent = List.filter (isVideo p) pre
                end).
    { intros r0 o Hisv Hr Hn Ho [= <- <- <-]. repeat split; try done.
      exists [track], []. split; [apply prefix_cons, prefix_nil|].
      split; [by rewrite Hr, Htrack|]. split; [by rewrite app_nil_r|].
      split; [done|]. by exists [], track. }
    destruct (isVideo p track) eqn:Hisv.
    + destruct (videoProc p) as [v|] eqn:Hvp.
      * destruct (goSelect _).
        -- apply IH in Hrun; [|done].
           destruct Hrun as (H1 & H2 & H3 & H4 & seen & sent & Hp & Hr & Hs
                             & Hres).
           simpl in H2, H3, H4, Hr, Hs.
           rewrite (filter_isVideo_ext U p) in Hres by done.
           repeat split; try done.
           exists (track :: seen), (track :: sent).
           split; [by apply prefix_cons|].
           split; [rewrite Hr, Htrack; simpl; by rewrite <- app_assoc|].
           split.
           { rewrite Hs, Htrack. simpl. by rewrite <- app_assoc. }
           destruct res as [o|n].
           ++ destruct Hres as (Ho & pre & last & -> & Hlast & ->).
              split; [done|]. exists (track :: pre), last.
              split; [done|]. split; [exact Hlast|].
              simpl. by rewrite Hisv.
           ++ destruct Hres as (-> & -> & ->).
              split; [done|]. simpl. rewrite Hisv. split; [done|].
              simpl. lia.
        -- eapply Hstop; [done| | | |exact Hrun]; try done. by left.
        -- eapply Hstop; [done| | | |exact Hrun]; try done. right. by left.
      * eapply Hstop; [done| | | |exact Hrun]; try done.
        right. right. by eexists.
    + apply IH in Hrun; [|done].
      destruct Hrun as (H1 & H2 & H3 & H4 & seen & sent & Hp & Hr & Hs
                        & Hres).
      simpl in H3, Hr.
      repeat split; try done.
      exists (track :: seen), sent.
      split; [by apply prefix_cons|].
      split; [rewrite Hr, Htrack; simpl; by rewrite <- app_assoc|].
      split; [done|].
      destruct res as [o|n].
      * destruct Hres as (Ho & pre & last & -> & Hlast & ->).
        split; [done|]. exists (track :: pre), last.
        split; [done|]. split; [exact Hlast|].
        simpl. by rewrite Hisv.
      * destruct Hres as (-> & -> & ->).
        split; [done|]. simpl. by rewrite Hisv.
Qed.

Lemma isVideo_ext (p q : proc) (t : PartTrack) :
  initVideoTrack q = initVideoTrack p -> isVideo q t = isVideo p t.
Proof. intros Hv. unfold isVideoSubpart. by rewrite Hv. Qed.

(** The first pass through the loop with an uninitialized clock is the pass
    of the processor whose clock was just set from the first part track. *)
Lemma rangeSubparts_uninitialized (track : PartTrack)
    (rest : list PartTrack) (p : proc) r pc :
  clockInitialized p = false ->
  rangeSubparts p r pc (track :: rest) =
  rangeSubparts (set_clock U (BaseTime track) (now (nnow r)) p) (tick_now r)
                pc (track :: rest).
Proof. intros Hinit. simpl. unfold initClock. by rewrite Hinit. Qed.

Lemma rangeSubparts_trace (subs : list PartTrack) (p : proc) r pc p' r' res :
  rangeSubparts p r pc subs = (p', r', res) ->
  initVideoTrack p' = initVideoTrack p /\
  exists seen sent,
    seen `prefix_of` subs /\
    rebased r' = rebased r ++ map (rebase (clockStart p subs)) seen /\
    sentTo (videoProc p') =
      sentTo (videoProc p) ++ map (rebase (clockStart p subs)) sent /\
    clockAfter p p' (nnow r) (nnow r') (clockStart p subs) seen /\
    match res with
    | inr n =>
        seen = subs /\ sent = List.filter (isVideo p) subs /\
        n = (pc + length sent)%nat
    | inl o =>
        (o = Returned (Some terminated) \/ o = Blocked \/
         exists m, o = Panicked m) /\
        exists pre last,
          seen = pre ++ [last] /\ isVideo p last = true /\
          sent = List.filter (isVideo p) pre
    end.
Proof.
  intros Hrun. destruct (clockInitialized p) eqn:Hinit.
  - rewrite clockStart_initialized by done.
    apply rangeSubparts_trace_init in Hrun; [|done].
    destruct Hrun as (H1 & H2 & H3 & H4 & seen & sent & Hp & Hr & Hs & Hres).
    split; [done|]. exists seen, sent.
    split; [done|]. split; [done|]. split; [done|]. split; [|done].
    unfold clockAfter. rewrite Hinit.
    destruct seen; repeat split; try done; lia.
  - destruct subs as [|track rest].
    + simpl in Hrun. inversion Hrun; subst. split; [done|].
      exists [], []. simpl. rewrite !app_nil_r. repeat split; try done; lia.
    + rewrite rangeSubparts_uninitialized in Hrun by done.
      apply rangeSubparts_trace_init in Hrun; [|done].
      destruct Hrun as (H1 & H2 & H3 & H4 & seen & sent & Hp & Hr & Hs & Hres).
      simpl in H2, H3, H4, Hr, Hs.
      assert (Hq : sentTo (set_startRTC U (now (nnow r)) <$> videoProc p)
                   = sentTo (videoProc p)) by (by destruct (videoProc p)).
      rewrite Hq in Hs.
      assert (Hc : clockStart p (track :: rest) = BaseTime track).
      { unfold clockStart. by rewrite Hinit. }
      rewrite Hc.
      set (p1 := set_clock U (BaseTime track) (now (nnow r)) p) in *.
      assert (Hv1 : initVideoTrack p1 = initVideoTrack p) by done.
      rewrite (filter_isVideo_ext U p p1) in Hres by done.
      split; [done|]. exists seen, sent.
      split; [done|]. split; [done|]. split; [done|].
      assert (Hne : seen <> []).
      { destruct res as [o|n].
        - destruct Hres as (_ & pre & last & -> & _). by destruct pre.
        - by destruct Hres as (-> & _). }
      split.
      * destruct seen as [|t seen]; [done|]. simpl. rewrite Hinit.
        repeat split; try done. lia.
      * destruct res as [o|n]; [|done].
        destruct Hres as (Ho & pre & last & Hseen & Hlast & Hsent).
        split; [done|]. exists pre, last. split; [done|].
        split; [|by rewrite (filter_isVideo_ext U p p1) in Hsent].
        by rewrite (isVideo_ext p p1) in Hlast.
Qed.

(** One segment: either every part track was touched and every video
    subpart sent, or the processor left the loop at the enqueue of the last
    touched track. *)
Lemma processSegment_trace (p : proc) r byts subs p' r' out :
  PartRead byts = inr subs ->
  processSegment p r byts = (p', r', out) ->
  initVideoTrack p' = initVideoTrack p /\
  exists seen sent,
    seen `prefix_of` subs /\
    rebased r' = rebased r ++ map (rebase (clockStart p subs)) seen /\
    sentTo (videoProc p') =
      sentTo (videoProc p) ++ map (rebase (clockStart p subs)) sent /\
    clockAfter p p' (nnow r) (nnow r') (clockStart p subs) seen /\
    ((seen = subs /\ sent = List.filter (isVideo p) subs /\
      (out = Returned None \/
       (sent <> [] /\
        (out = Returned (Some terminated) \/ out = Blocked)))) \/
     ((out = Returned (Some terminated) \/ out = Blocked \/
       exists m, out = Panicked m) /\
      exists pre last,
        seen = pre ++ [last] /\ isVideo p last = true /\
        sent = List.filter (isVideo p) pre)).
Proof.
  intros Hread H. unfold hls.processSegment in H. rewrite Hread in H.
  destruct (hls.rangeSubparts _ _ _ _ _ _ _) as [[p1 r1] res] eqn:Hrange.
  apply rangeSubparts_trace in Hrange.
  destruct Hrange as (Hv & seen & sent & Hp & Hr & Hs & Hclock & Hres).
  simpl in Hr, Hclock. destruct res as [o|n].
  - inversion H; subst. split; [done|]. exists seen, sent.
    split; [done|]. split; [done|]. split; [done|]. split; [done|].
    by right.
  - destruct (hls.waitProcessed _ _ _) as [r2 o2] eqn:Hwait.
    pose proof (waitProcessed_frame sch _ _ _ _ Hwait) as (Hn & _ & Hrb).
    inversion H; subst p1 r2 o2. split; [done|]. exists seen, sent.
    split; [done|]. split; [by rewrite Hrb|]. split; [done|].
    split; [by rewrite Hn|]. left.
    destruct Hres as (Hseen & Hsent & Hcount).
    split; [done|]. split; [done|].
    destruct sent as [|t sent].
    + left. simpl in Hcount. subst n. simpl in Hwait. by inversion Hwait.
    + apply waitProcessed_out in Hwait as [?|[?|?]]; [by left|right..];
        (split; [done|]); [by left|by right].
Qed.

Lemma run_errors (pulled : list string) :
  forall (p : proc) r p' r' e,
    run p r pulled = (p', r', Returned e) ->
    e = terminated \/ e = firstError PartRead pulled.
Proof.
  induction pulled as [|seg rest IH]; intros p r p' r' e Hrun;
    simpl in Hrun.
  - inversion Hrun. by left.
  - destruct (hls.processSegment _ _ _ _ _ _ _) as [[p1 r1] o1] eqn:Hseg.
    unfold hls.processSegment in Hseg. simpl.
    destruct (PartRead seg) as [err|subs].
    + inversion Hseg; subst. inversion Hrun. by right.
    + destruct o1 as [[e1|]| |m]; [|by eapply IH|done..].
      inversion Hrun; subst. left.
      destruct (hls.rangeSubparts _ _ _ _ _ _ _) as [[p2 r2] [o|n]]
        eqn:Hrange.
      * inversion Hseg; subst. by eapply rangeSubparts_out.
      * destruct (hls.waitProcessed _ _ _) as [r3 o3] eqn:Hwait.
        inversion Hseg; subst.
        apply waitProcessed_out in Hwait as [?|[[= ->]|?]]; done.
Qed.

(** The whole of [run]: the part tracks touched are a prefix of those read
    from the pulled segments, never empty when there are any; they are
    rebased against one zero point, and the video subparts among them were
    sent to the video track processor, the last one excepted when [run]
    stopped at its enqueue. *)
Lemma run_trace (pulled : list string) :
  forall (p : proc) r p' r' out,
    run p r pulled = (p', r', out) ->
    initVideoTrack p' = initVideoTrack p /\
    exists seen sent,
      seen `prefix_of` readSubparts pulled /\
      (readSubparts pulled <> [] -> seen <> []) /\
      rebased r' =
        rebased r ++ map (rebase (clockStart p (readSubparts pulled))) seen /\
      sentTo (videoProc p') =
        sentTo (videoProc p) ++
        map (rebase (clockStart p (readSubparts pulled))) sent /\
      clockAfter p p' (nnow r) (nnow r')
                 (clockStart p (readSubparts pulled)) seen /\
      (sent = List.filter (isVideo p) seen \/
       ((out = Returned terminated \/ out = Blocked \/
         exists m, out = Panicked m) /\
        exists pre last,
          seen = pre ++ [last] /\ isVideo p last = true /\
          sent = List.filter (isVideo p) pre)) /\
      (always_comm sch -> wellFormed p ->
       seen = readSubparts pulled /\
       sent = List.filter (isVideo p) (readSubparts pulled)) /\
      (forall e, out = Returned e -> e <> terminated ->
       seen = readSubparts pulled /\
       sent = List.filter (isVideo p) (readSubparts pulled)).
Proof.
  induction pulled as [|seg rest IH]; intros p r p' r' out Hrun.
  - simpl in Hrun. inversion Hrun; subst. split; [done|]. exists [], [].
    simpl. rewrite !app_nil_r.
    split; [done|]. split; [done|]. split; [done|]. split; [done|].
    split; [done|]. split; [by left|]. split; [done|].
    by intros e [= <-].
  - simpl in Hrun.
    destruct (hls.processSegment _ _ _ _ _ _ _) as [[p1 r1] o1] eqn:Hseg.
    simpl. destruct (PartRead seg) as [err|subs] eqn:Hread.
    + unfold hls.processSegment in Hseg. rewrite Hread in Hseg.
      inversion Hseg; subst p1 r1 o1. inversion Hrun; subst.
      split; [done|]. exists [], []. simpl. rewrite !app_nil_r.
      split; [done|]. split; [done|]. split; [done|]. split; [done|].
      split; [done|]. split; [by left|]. by split.
    + pose proof (processSegment_trace _ _ _ _ _ _ _ Hread Hseg)
        as (Hv1 & seen1 & sent1 & Hp1 & Hr1 & Hs1 & Hclock1 & Hcase).
      assert (Hstop : forall out0,
                o1 <> Returned None ->
                (o1 = Returned (Some terminated) -> out0 = Returned terminated) ->
                (o1 = Blocked -> out0 = Blocked) ->
                (forall m, o1 = Panicked m -> out0 = Panicked m) ->
                (forall e, out0 = Returned e -> o1 = Returned (Some e)) ->
                initVideoTrack p1 = initVideoTrack p /\
                exists seen sent,
                  seen `prefix_of` subs ++ readSubparts rest /\
                  (subs ++ readSubparts rest <> [] -> seen <> []) /\
                  rebased r1 =
                    rebased r ++
                    map (rebase (clockStart p (subs ++ readSubparts rest)))
                        seen /\
                  sentTo (videoProc p1) =
                    sentTo (videoProc p) ++
                    map (rebase (clockStart p (subs ++ readSubparts rest)))
                        sent /\
                  clockAfter p p1 (nnow r) (nnow r1)
                    (clockStart p (subs ++ readSubparts rest)) seen /\
                  (sent = List.filter (isVideo p) seen \/
                   ((out0 = Returned terminated \/ out0 = Blocked \/
                     exists m, out0 = Panicked m) /\
                    exists pre last,
                      seen = pre ++ [last] /\ isVideo p last = true /\
                      sent = List.filter (isVideo p) pre)) /\
                  (always_comm sch -> wellFormed p ->
                   seen = subs ++ readSubparts rest /\
                   sent = List.filter (isVideo p)
                            (subs ++ readSubparts rest)) /\
                  (forall e, out0 = Returned e -> e <> terminated ->
                   seen = subs ++ readSubparts rest /\
                   sent = List.filter (isVideo p)
                            (subs ++ readSubparts rest))).
      { intros out0 Hnone Hterm Hblock Hpanic Hret. split; [done|].
        assert (Hne : seen1 <> []).
        { destruct Hcase as [(-> & -> & [?|[Hs _]])|(_ & pre & last & -> & _)];
            [done| |by destruct pre].
          intros ->. done. }
        assert (Hsubs : subs <> []).
        { intros ->. by apply prefix_nil_inv in Hp1. }
        rewrite clockStart_app by done.
        exists seen1, sent1. split; [by apply prefix_app_r|].
        split; [done|]. split; [done|]. split; [done|]. split; [done|].
        split.
        - destruct Hcase as [(-> & -> & _)|(Ho & Hlast)]; [by left|right].
          split; [|done].
          destruct Ho as [Ho|[Ho|[m Ho]]].
          + left. by apply Hterm.
          + right. left. by apply Hblock.
          + right. right. exists m. by apply Hpanic.
        - split.
          + intros Hlive Hwf.
            pose proof (processSegment_wellFormed U PartRead now sch
                          _ _ _ _ _ _ Hwf Hseg) as (_ & _ & Hout).
            specialize (Hout Hlive). rewrite Hread in Hout. done.
          + intros e He Hnt. apply Hret in He. exfalso. apply Hnt.
            destruct Hcase as [(_ & _ & [Ho|(_ & [Ho|Ho])])
                              |([Ho|[Ho|[m Ho]]] & _)];
              congruence. }
      destruct o1 as [[e|]| |m].
      * inversion Hrun; subst p1 r1 out.
        apply Hstop; [done| |done|done|]; [by intros [= ->]|].
        by intros e' [= ->].
      * destruct Hcase as [(-> & -> & _)|([?|[?|[? ?]]] & _)]; [|done..].
        apply IH in Hrun.
        destruct Hrun as (Hv2 & seen2 & sent2 & Hp2 & Hne2 & Hr2 & Hs2
                          & Hclock2 & Hcase2 & Hlive2 & Hret2).
        split; [congruence|].
        rewrite (filter_isVideo_ext U p p1) in Hcase2, Hlive2, Hret2 by done.
        assert (Hcase2' :
                  sent2 = List.filter (isVideo p) seen2 \/
                  ((out = Returned terminated \/ out = Blocked \/
                    exists m, out = Panicked m) /\
                   exists pre last,
                     seen2 = pre ++ [last] /\ isVideo p last = true /\
                     sent2 = List.filter (isVideo p) pre)).
        { destruct Hcase2 as [?|(Ho & pre & last & Hseen & Hlast & Hsent)];
            [by left|right]. split; [done|]. exists pre, last.
          split; [done|]. rewrite (isVideo_ext p p1) in Hlast by done.
          split; [done|].
          by rewrite (filter_isVideo_ext U p p1) in Hsent. }
        assert (Hwf1 : wellFormed p -> wellFormed p1).
        { intros Hwf.
          by pose proof (processSegment_wellFormed U PartRead now sch
                           _ _ _ _ _ _ Hwf Hseg) as (? & _). }
        exists (subs ++ seen2), (List.filter (isVideo p) subs ++ sent2).
        split; [by apply prefix_app|].
        assert (Hstart : clockStart p1 (readSubparts rest) =
                         clockStart p (subs ++ readSubparts rest) /\
                         (subs <> [] ->
                          clockStart p subs =
                          clockStart p (subs ++ readSubparts rest))).
        { destruct subs as [|t subs].
          - simpl in Hclock1. destruct Hclock1 as (Hc1 & Hc2 & _).
            split; [by apply clockStart_same|done].
          - simpl in Hclock1. destruct Hclock1 as (Hc1 & Hc2 & _).
            rewrite clockStart_initialized by done. by rewrite clockStart_app. }
        destruct Hstart as (Hstart2 & Hstart1).
        rewrite Hstart2 in Hr2, Hs2, Hclock2.
        set (c := clockStart p (subs ++ readSubparts rest)) in *.
        assert (Hmap : forall l : list PartTrack,
                  (subs = [] -> l = []) ->
                  map (rebase (clockStart p subs)) l = map (rebase c) l).
        { intros l Hl. destruct subs as [|t subs].
          - by rewrite Hl.
          - by rewrite Hstart1. }
        rewrite !Hmap in Hr1, Hs1 by (try done; by intros ->).
        split.
        { intros Hne Happ. apply app_eq_nil in Happ as [-> ->].
          simpl in Hne. by apply Hne2. }
        split; [rewrite Hr2, Hr1, map_app; by rewrite app_assoc|].
        split; [rewrite Hs2, Hs1, map_app; by rewrite app_assoc|].
        split.
        { destruct subs as [|t subs].
          - simpl in Hclock1 |- *. destruct Hclock1 as (Hc1 & Hc2 & Hc3).
            unfold clockAfter in *. by rewrite Hc1, Hc2, Hc3 in Hclock2.
          - simpl in Hclock1 |- *. destruct Hclock1 as (Hc1 & Hc2 & Hc3).
            destruct seen2; simpl in Hclock2;
              destruct Hclock2 as (Hd1 & Hd2 & Hd3).
            + split; [by rewrite Hd1|]. split; [by rewrite Hd2|].
              by rewrite Hd3.
            + rewrite Hc1 in Hd3. split; [done|]. split; [|lia].
              rewrite Hd2. symmetry. by apply Hstart1. }
        split.
        { destruct Hcase2' as [->|(Ho & pre & last & -> & Hlast & ->)].
          - left. by rewrite List.filter_app.
          - right. split; [done|]. exists (subs ++ pre), last.
            split; [by rewrite app_assoc|]. split; [done|].
            by rewrite List.filter_app. }
        split.
        { intros Hlive Hwf.
          destruct (Hlive2 Hlive (Hwf1 Hwf)) as (-> & ->).
          split; [done|]. by rewrite List.filter_app. }
        intros e He Hnt. destruct (Hret2 e He Hnt) as (-> & ->).
        split; [done|]. by rewrite List.filter_app.
      * inversion Hrun; subst p1 r1 out. by apply Hstop.
      * inversion Hrun; subst p1 r1 out. apply Hstop; try done.
        by intros m' [= ->].
Qed.

Lemma rebase_first (t : PartTrack) :
  rebase (BaseTime t) t = set_BaseTime t 0.
Proof. unfold rebase, uint64_sub. by rewrite Z.sub_diag. Qed.

Lemma rebase_delta (start : Z) (t : PartTrack) :
  0 <= start <= BaseTime t -> BaseTime t < 2 ^ 64 ->
  BaseTime (rebase start t) = BaseTime t - start.
Proof.
  intros Hle Hmax. unfold rebase, uint64_sub. simpl.
  apply Z.mod_small. lia.
Qed.

(** C4. Timestamp rebasing in [run]/[processSegment], starting with an
    uninitialized clock, whatever segments are pulled and however the
    blocking operations resolve. When the pulled segments hold no part
    track, nothing is touched: the clock stays uninitialized. Otherwise the
    first part track is always reached: when [run] is over,
    [clockInitialized] is set, [startBaseTime] is the base time of that
    first track, and [time.Now()], which is called only in the
    initialization branch, was called exactly once. The part tracks touched
    are the first one and a prefix [seen] of the others; the loop variable
    took, in order, the first track with base time 0 and each track of
    [seen] with its base time replaced by [uint64_sub] of it and the first
    base time, which is their difference for every base time not below the
    first. The video track processor was sent the rebased video subparts
    among the touched tracks, in order, all of them or, when [run] stopped
    at the enqueue of the last touched track, all but that one. With peers
    that always communicate and a well-formed processor, and whenever [run]
    returns the error of a rejected segment, every track read from the
    segments is touched and every video subpart sent. *)
Theorem run_rebases_on_first_base_time (p : proc) (r : rt)
    (pulled : list string) :
  clockInitialized p = false ->
  let '(p', r', out) := run p r pulled in
  match readSubparts pulled with
  | [] =>
      clockInitialized p' = false /\ startBaseTime p' = startBaseTime p /\
      nnow r' = nnow r /\ rebased r' = rebased r /\
      sentTo (videoProc p') = sentTo (videoProc p)
  | first :: others =>
      clockInitialized p' = true /\
      startBaseTime p' = BaseTime first /\
      nnow r' = S (nnow r) /\
      exists seen sent,
        seen `prefix_of` others /\
        rebased r' =
          rebased r ++
          set_BaseTime first 0 :: map (rebase (BaseTime first)) seen /\
        (forall t, In t seen ->
           0 <= BaseTime first <= BaseTime t -> BaseTime t < 2 ^ 64 ->
           BaseTime (rebase (BaseTime first) t) =
             BaseTime t - BaseTime first) /\
        sentTo (videoProc p') =
          sentTo (videoProc p) ++ map (rebase (BaseTime first)) sent /\
        (sent = List.filter (isVideo p) (first :: seen) \/
         ((out = Returned terminated \/ out = Blocked \/
           exists m, out = Panicked m) /\
          exists pre last,
            first :: seen = pre ++ [last] /\ isVideo p last = true /\
            sent = List.filter (isVideo p) pre)) /\
        (always_comm sch -> wellFormed p ->
         seen = others /\
         sent = List.filter (isVideo p) (first :: others) /\
         out = Returned (firstError PartRead pulled)) /\
        (forall e, out = Returned e -> e <> terminated ->
         seen = others /\
         sent = List.filter (isVideo p) (first :: others))
  end.
Proof.
  intros Hinit.
  destruct (hls.run _ _ _ _ _ _ _) as [[p' r'] out] eqn:Hrun.
  pose proof (run_trace _ _ _ _ _ _ Hrun)
    as (_ & seen & sent & Hp & Hne & Hr & Hs & Hclock & Hcase & Hlive
        & Hret).
  destruct (readSubparts pulled) as [|first others] eqn:Htracks.
  - apply prefix_nil_inv in Hp. subst seen.
    simpl in Hclock, Hr. rewrite app_nil_r in Hr.
    destruct Hclock as (Hc1 & Hc2 & Hc3).
    repeat split; try congruence.
    destruct Hcase as [->|(_ & pre & last & Hseen & _)].
    + simpl in Hs. by rewrite app_nil_r in Hs.
    + by destruct pre.
  - assert (Hstart : clockStart p (first :: others) = BaseTime first).
    { unfold clockStart. by rewrite Hinit. }
    rewrite Hstart in Hr, Hs, Hclock.
    destruct seen as [|t seen]; [by destruct Hne|].
    apply prefix_cons_inv_1 in Hp as Hhead. subst t.
    apply prefix_cons_inv_2 in Hp.
    simpl in Hclock. rewrite Hinit in Hclock.
    destruct Hclock as (Hc1 & Hc2 & Hc3).
    split; [done|]. split; [done|]. split; [lia|].
    exists seen, sent. split; [done|].
    split; [rewrite Hr; simpl; by rewrite rebase_first|].
    split; [intros t _ Hle Hmax; by apply rebase_delta|].
    split; [done|]. split; [done|]. split.
    + intros Hl Hwf. destruct (Hlive Hl Hwf) as ([= ->] & ->).
      split; [done|]. split; [done|].
      by pose proof (run_wellFormed U PartRead now sch _ _ _ _ _ _ Hwf Hrun)
        as (_ & Hout); destruct (Hout Hl).
    + intros e He Hnt. by destruct (Hret e He Hnt) as ([= ->] & ->).
Qed.

(** C9. Rebasing is a wrapping [uint64] subtraction. From any processor
    state, with [start] the zero point of the clock (the recorded first
    base time, or the base time of the first part track when none is
    recorded yet), a [uint64] value: whenever the pulled segments hold a
    part track, [run] reaches it, and the clock is then set at [start]; the
    loop variable took, in order, each touched track with its base time
    replaced by [uint64_sub] of it and [start], and the video subparts
    among them were sent on with that base time. For a touched track whose
    base time is below [start] the new base time is
    [BaseTime - start + 2^64], a value strictly between 0 and 2^64, and it
    is this value that the loop variable held, and that the video track
    processor was sent: the subtraction wraps around, it neither saturates
    at zero nor makes [run] fail. The only errors [run] returns are the
    cancellation error and the error of a segment that [PartRead] rejects,
    the latter after every track before it was touched; with peers that
    always communicate and a well-formed processor every track is touched,
    whatever its base time. *)
Theorem run_rebase_wraps (p : proc) (r : rt) (pulled : list string) :
  0 <= clockStart p (readSubparts pulled) < 2 ^ 64 ->
  let '(p', r', out) := run p r pulled in
  let start := clockStart p (readSubparts pulled) in
  exists seen sent,
    seen `prefix_of` readSubparts pulled /\
    (readSubparts pulled <> [] ->
     seen <> [] /\ clockInitialized p' = true /\ startBaseTime p' = start) /\
    rebased r' = rebased r ++ map (rebase start) seen /\
    sentTo (videoProc p') = sentTo (videoProc p) ++ map (rebase start) sent /\
    (sent = List.filter (isVideo p) seen \/
     ((out = Returned terminated \/ out = Blocked \/
       exists m, out = Panicked m) /\
      exists pre last,
        seen = pre ++ [last] /\ isVideo p last = true /\
        sent = List.filter (isVideo p) pre)) /\
    (forall t, In t seen -> 0 <= BaseTime t < start ->
       rebase start t = set_BaseTime t (BaseTime t - start + 2 ^ 64) /\
       0 < BaseTime t - start + 2 ^ 64 < 2 ^ 64 /\
       In (set_BaseTime t (BaseTime t - start + 2 ^ 64)) (rebased r')) /\
    (forall t, In t sent -> 0 <= BaseTime t < start ->
       In (set_BaseTime t (BaseTime t - start + 2 ^ 64))
          (sentTo (videoProc p'))) /\
    (forall e, out = Returned e ->
       e = terminated \/ e = firstError PartRead pulled) /\
    (forall e, out = Returned e -> e <> terminated ->
       seen = readSubparts pulled /\
       sent = List.filter (isVideo p) (readSubparts pulled)) /\
    (always_comm sch -> wellFormed p ->
     seen = readSubparts pulled /\
     sent = List.filter (isVideo p) (readSubparts pulled) /\
     out = Returned (firstError PartRead pulled)).
Proof.
  intros Hmax.
  destruct (hls.run _ _ _ _ _ _ _) as [[p' r'] out] eqn:Hrun.
  pose proof (run_trace _ _ _ _ _ _ Hrun)
    as (_ & seen & sent & Hp & Hne & Hr & Hs & Hclock & Hcase & Hlive
        & Hret).
  simpl. set (start := clockStart p (readSubparts pulled)) in *.
  exists seen, sent. split; [done|]. split.
  { intros Htracks. specialize (Hne Htracks). split; [done|].
    destruct seen as [|t seen]; [done|]. simpl in Hclock.
    by destruct Hclock as (? & ? & _). }
  split; [done|]. split; [done|]. split; [done|].
  split.
  { intros t Hin Hlow.
    assert (Hwrap : rebase start t =
                    set_BaseTime t (BaseTime t - start + 2 ^ 64))
      by (apply rebase_wraps; lia).
    split; [done|]. split; [lia|].
    rewrite Hr, <- Hwrap. apply in_or_app. right. by apply in_map. }
  split.
  { intros t Hin Hlow.
    assert (Hwrap : rebase start t =
                    set_BaseTime t (BaseTime t - start + 2 ^ 64))
      by (apply rebase_wraps; lia).
    rewrite Hs, <- Hwrap. apply in_or_app. right. by apply in_map. }
  split; [intros e ->; by eapply run_errors|]. split; [done|].
  intros Hl Hwf. destruct (Hlive Hl Hwf) as (-> & ->).
  split; [done|]. split; [done|].
  by pose proof (run_wellFormed U PartRead now sch _ _ _ _ _ _ Hwf Hrun)
    as (_ & Hout); destruct (Hout Hl).
Qed.

End ProcessorTrace.

(** The fresh sample processor on the segments "seg1" and "seg2", with
    peers that always communicate. *)
Lemma run_rebases_on_first_base_time_witness :
  hls.clockInitialized sample.fresh = false /\
  let '(p', r', out) :=
    hls.run (list sample.userCall) sample.PartRead sample.now sample.live
            sample.fresh hls.rt0 ["seg1"; "seg2"] in
  match hls.readSubparts sample.PartRead ["seg1"; "seg2"] with
  | [] =>
      hls.clockInitialized p' = false /\
      hls.startBaseTime p' = hls.startBaseTime sample.fresh /\
      hls.nnow r' = hls.nnow hls.rt0 /\
      hls.rebased r' = hls.rebased hls.rt0 /\
      hls.sentTo (hls.videoProc p') = hls.sentTo (hls.videoProc sample.fresh)
  | first :: others =>
      hls.clockInitialized p' = true /\
      hls.startBaseTime p' = hls.BaseTime first /\
      hls.nnow r' = S (hls.nnow hls.rt0) /\
      exists seen sent,
        seen `prefix_of` others /\
        hls.rebased r' =
          hls.rebased hls.rt0 ++
          hls.set_BaseTime first 0 ::
          map (hls.rebase (hls.BaseTime first)) seen /\
        (forall t, In t seen ->
           0 <= hls.BaseTime first <= hls.BaseTime t ->
           hls.BaseTime t < 2 ^ 64 ->
           hls.BaseTime (hls.rebase (hls.BaseTime first) t) =
             hls.BaseTime t - hls.BaseTime first) /\
        hls.sentTo (hls.videoProc p') =
          hls.sentTo (hls.videoProc sample.fresh) ++
          map (hls.rebase (hls.BaseTime first)) sent /\
        (sent = List.filter (hls.isVideoSubpart _ sample.fresh)
                            (first :: seen) \/
         ((out = gochan.Returned hls.terminated \/ out = gochan.Blocked \/
           exists m, out = gochan.Panicked m) /\
          exists pre last,
            first :: seen = pre ++ [last] /\
            hls.isVideoSubpart _ sample.fresh last = true /\
            sent = List.filter (hls.isVideoSubpart _ sample.fresh) pre)) /\
        (props.always_comm sample.live -> props.wellFormed sample.fresh ->
         seen = others /\
         sent = List.filter (hls.isVideoSubpart _ sample.fresh)
                            (first :: others) /\
         out = gochan.Returned
                 (props.firstError sample.PartRead ["seg1"; "seg2"])) /\
        (forall e, out = gochan.Returned e -> e <> hls.terminated ->
         seen = others /\
         sent = List.filter (hls.isVideoSubpart _ sample.fresh)
                            (first :: others))
  end.
Proof.
  split; [reflexivity|].
  apply (run_rebases_on_first_base_time (list sample.userCall)
           sample.PartRead sample.now sample.live sample.fresh hls.rt0
           ["seg1"; "seg2"]).
  reflexivity.
Defined.

(** The fresh sample processor on "seg1", whose audio part track (base
    time 4800) lies below the first base time, 9000, and on "late". *)
Lemma run_rebase_wraps_witness :
  0 <= hls.clockStart sample.fresh
         (hls.readSubparts sample.PartRead ["seg1"; "late"]) < 2 ^ 64 /\
  let '(p', r', out) :=
    hls.run (list sample.userCall) sample.PartRead sample.now sample.live
            sample.fresh hls.rt0 ["seg1"; "late"] in
  let start :=
    hls.clockStart sample.fresh
      (hls.readSubparts sample.PartRead ["seg1"; "late"]) in
  exists seen sent,
    seen `prefix_of` hls.readSubparts sample.PartRead ["seg1"; "late"] /\
    (hls.readSubparts sample.PartRead ["seg1"; "late"] <> [] ->
     seen <> [] /\ hls.clockInitialized p' = true /\
     hls.startBaseTime p' = start) /\
    hls.rebased r' = hls.rebased hls.rt0 ++ map (hls.rebase start) seen /\
    hls.sentTo (hls.videoProc p') =
      hls.sentTo (hls.videoProc sample.fresh) ++
      map (hls.rebase start) sent /\
    (sent = List.filter (hls.isVideoSubpart _ sample.fresh) seen \/
     ((out = gochan.Returned hls.terminated \/ out = gochan.Blocked \/
       exists m, out = gochan.Panicked m) /\
      exists pre last,
        seen = pre ++ [last] /\
        hls.isVideoSubpart _ sample.fresh last = true /\
        sent = List.filter (hls.isVideoSubpart _ sample.fresh) pre)) /\
    (forall t, In t seen -> 0 <= hls.BaseTime t < start ->
       hls.rebase start t =
         hls.set_BaseTime t (hls.BaseTime t - start + 2 ^ 64) /\
       0 < hls.BaseTime t - start + 2 ^ 64 < 2 ^ 64 /\
       In (hls.set_BaseTime t (hls.BaseTime t - start + 2 ^ 64))
          (hls.rebased r')) /\
    (forall t, In t sent -> 0 <= hls.BaseTime t < start ->
       In (hls.set_BaseTime t (hls.BaseTime t - start + 2 ^ 64))
          (hls.sentTo (hls.videoProc p'))) /\
    (forall e, out = gochan.Returned e ->
       e = hls.terminated \/
       e = props.firstError sample.PartRead ["seg1"; "late"]) /\
    (forall e, out = gochan.Returned e -> e <> hls.terminated ->
       seen = hls.readSubparts sample.PartRead ["seg1"; "late"] /\
       sent = List.filter (hls.isVideoSubpart _ sample.fresh)
                (hls.readSubparts sample.PartRead ["seg1"; "late"])) /\
    (props.always_comm sample.live -> props.wellFormed sample.fresh ->
     seen = hls.readSubparts sample.PartRead ["seg1"; "late"] /\
     sent = List.filter (hls.isVideoSubpart _ sample.fresh)
              (hls.readSubparts sample.PartRead ["seg1"; "late"]) /\
     out = gochan.Returned
             (props.firstError sample.PartRead ["seg1"; "late"])).
Proof.
  assert (Hmax : 0 <= hls.clockStart sample.fresh
                        (hls.readSubparts sample.PartRead ["seg1"; "late"])
                 < 2 ^ 64).
  { change (0 <= 9000 < 2 ^ 64). lia. }
  split; [exact Hmax|].
  apply (run_rebase_wraps (list sample.userCall) sample.PartRead sample.now
           sample.live sample.fresh hls.rt0 ["seg1"; "late"] Hmax).
Defined.

(** "seg1" and "late" through the fresh processor: the clock starts at
    9000, the audio base times 4800 and 8990 wrap to 2^64 - 4200 and
    2^64 - 10, and [run] ends with the cancellation error only. *)
Example run_wraps_sample :
  let '(p, r, out) :=
    hls.run (list sample.userCall) sample.PartRead sample.now sample.live
            sample.fresh hls.rt0 ["seg1"; "late"] in
  hls.startBaseTime p = 9000 /\
  map hls.BaseTime (hls.rebased r) =
    [0; 18446744073709547416; 18446744073709551606] /\
  map hls.BaseTime (hls.sentTo (hls.videoProc p)) = [0] /\
  out = gochan.Returned (errorString "terminated").
Proof. vm_compute. by repeat split. Qed.

(** A processor whose clock was started at 12000 on "seg1": the video part
    track, base time 9000, is sent to the video track processor with base
    time 2^64 - 3000. *)
Example run_wraps_video_sample :
  let '(p, r, out) :=
    hls.run (list sample.userCall) sample.PartRead sample.now sample.live
            (hls.set_clock (list sample.userCall) 12000 (sample.now 0)
                           sample.fresh)
            hls.rt0 ["seg1"] in
  map hls.BaseTime (hls.sentTo (hls.videoProc p)) = [18446744073709548616] /\
  map hls.BaseTime (hls.rebased r) =
    [18446744073709548616; 18446744073709544416] /\
  out = gochan.Returned (errorString "terminated").
Proof. vm_compute. by repeat split. Qed.

(* ===================================================================== *)
(** * The further properties at the concrete inputs *)
(* ===================================================================== *)

(** GET /cam/publish/ws with the right credentials on the sample path
    manager, which knows "secure" only, and GET /secure/publish/ws. *)
Lemma onRequest_endpoint_witness :
  let req := sample.get "/secure/publish/ws" (Some ("u", "p")) in
  let gpc := sample.getPathConf "wrong password" in
  core.Method req = "GET" /\
  core.URL_Path req =
    "/" +:+ "secure" +:+ props.endpointSuffix props.PublishWS /\
  "secure" <> EmptyString /\
  gostrings.HasSuffix "secure" "/" = false /\
  core.getPathConfReqs (sample.handle gpc req)
    = [core.pathConfReq req "secure" true] /\
  core.newConnReq (sample.handle gpc req) =
    Some {| core.pathName := "secure"; core.publish := true;
            core.videoCodec := EmptyString; core.audioCodec := EmptyString;
            core.videoBitrate := EmptyString |}.
Proof.
  intros req gpc.
  assert (Hne : "secure" <> EmptyString) by discriminate.
  destruct (onRequest_endpoint sample.NewServerConn sample.readIndex
              sample.publishIndex gpc sample.server req "secure"
              props.PublishWS eq_refl eq_refl Hne eq_refl)
    as (h & Hrun & Hcalls & Hok).
  { intros Hcase. discriminate Hcase. }
  assert (Hh : h = sample.handle gpc req).
  { unfold sample.handle. by rewrite Hrun. }
  subst h. destruct (Hok eq_refl) as (_ & Hconn).
  repeat split; try assumption.
Defined.

(** The 401 of a denied request still carries the CORS headers. *)
Lemma onRequest_cors_headers_witness :
  let req := sample.get "/secure/" None in
  let gpc := sample.getPathConf "wrong password" in
  core.onRequest gpc sample.NewServerConn sample.readIndex
                 sample.publishIndex sample.server req
    = Ok (sample.handle gpc req) /\
  core.status (core.Writer (sample.handle gpc req)) = Some 401 /\
  core.header (core.Writer (sample.handle gpc req))
    !! "Access-Control-Allow-Origin" = Some "*" /\
  core.header (core.Writer (sample.handle gpc req))
    !! "Access-Control-Allow-Credentials" = Some "true".
Proof.
  intros req gpc.
  assert (Hrun : core.onRequest gpc sample.NewServerConn sample.readIndex
                   sample.publishIndex sample.server req
                 = Ok (sample.handle gpc req)) by reflexivity.
  assert (Hcode : core.status (core.Writer (sample.handle gpc req))
                  = Some 401) by reflexivity.
  destruct (onRequest_cors_headers sample.NewServerConn sample.readIndex
              sample.publishIndex gpc sample.server req _ 401 Hrun Hcode)
    as [Ho Hc].
  repeat split; try assumption.
Defined.

(** The read page of "secure" is served with 200 to u / p. *)
Lemma onRequest_serves_only_authorized_witness :
  let req := sample.get "/secure/" (Some ("u", "p")) in
  let gpc := sample.getPathConf "wrong password" in
  let h := sample.handle gpc req in
  core.onRequest gpc sample.NewServerConn sample.readIndex
                 sample.publishIndex sample.server req = Ok h /\
  (core.Method req = "GET" /\
   core.status (core.Writer h) = Some core.StatusOK) /\
  exists pc,
    core.getPathConfReqs h = [pc] /\ gpc pc = None /\
    core.name pc <> EmptyString.
Proof.
  intros req gpc h.
  assert (Hrun : core.onRequest gpc sample.NewServerConn sample.readIndex
                   sample.publishIndex sample.server req = Ok h)
    by reflexivity.
  assert (Hserved : core.Method req = "GET" /\
                    core.status (core.Writer h) = Some core.StatusOK)
    by (split; reflexivity).
  destruct (onRequest_serves_only_authorized sample.NewServerConn
              sample.readIndex sample.publishIndex gpc sample.server req h
              Hrun (or_intror Hserved))
    as (_ & pc & Hcalls & Hok & Hname & _).
  split; [exact Hrun|]. split; [exact Hserved|].
  exists pc. repeat split; assumption.
Defined.

(** The list of the sample server has the two sample UUIDs as its keys. *)
Lemma apiConnsList_lists_exactly_tracked_witness :
  gochan.goSelect (core.offer true sample.server) = gochan.SelComm /\
  core.range_order sample.server sample.order /\
  exists data,
    (core.apiConnsList true sample.order sample.server).2 =
      gochan.Returned {| core.ListRes_data := Some data;
                         core.ListRes_err := None |} /\
    is_Some (core.Items data !! core.uuid sample.conn1) /\
    core.Items data !! core.uuid sample2.conn3 = None.
Proof.
  split; [reflexivity|]. split; [exact sample_range_order|].
  destruct (apiConnsList_lists_exactly_tracked sample.server true
              sample.order eq_refl sample_range_order)
    as (data & Hres & Hkeys & _).
  exists data. split; [by rewrite Hres|]. split.
  - apply Hkeys. exists 1%positive, sample.conn1. by split.
  - destruct (core.Items data !! core.uuid sample2.conn3) eqn:Hl; [|done].
    exfalso.
    destruct (proj1 (Hkeys (core.uuid sample2.conn3)) (ex_intro _ _ Hl))
      as (cp & c & Hc & Hid).
    apply sample_lookup in Hc as [[-> ->]|[-> ->]]; discriminate Hid.
Defined.

(** Two connections, two items. *)
Lemma apiConnsList_one_item_per_connection_witness :
  gochan.goSelect (core.offer true sample.server) = gochan.SelComm /\
  core.range_order sample.server sample.order /\
  core.uuid_unique sample.server /\
  exists data,
    (core.apiConnsList true sample.order sample.server).2 =
      gochan.Returned {| core.ListRes_data := Some data;
                         core.ListRes_err := None |} /\
    size (core.Items data) = 2%nat.
Proof.
  split; [reflexivity|]. split; [exact sample_range_order|].
  split; [exact sample_uuid_unique|].
  destruct (apiConnsList_one_item_per_connection sample.server true
              sample.order eq_refl sample_range_order sample_uuid_unique)
    as (data & Hres & Hsize).
  exists data. split; [exact Hres|]. rewrite Hsize. reflexivity.
Defined.

(** Kicking the second sample connection leaves one connection. *)
Lemma apiConnsKick_removes_one_witness :
  gochan.goSelect (core.offer true sample.server) = gochan.SelComm /\
  core.range_order sample.server sample.order /\
  props.tracked (core.uuid sample.conn2) sample.server /\
  (core.apiConnsKick true sample.order (core.uuid sample.conn2)
                     sample.server).2
    = gochan.Returned {| core.KickRes_err := None |} /\
  size (core.conns
          (core.apiConnsKick true sample.order (core.uuid sample.conn2)
                             sample.server).1) = 1%nat.
Proof.
  assert (Htr : props.tracked (core.uuid sample.conn2) sample.server).
  { exists 2%positive, sample.conn2. by split. }
  pose proof (apiConnsKick_removes_one sample.server true sample.order
                (core.uuid sample.conn2) eq_refl sample_range_order)
    as Hkick.
  destruct (core.apiConnsKick true sample.order (core.uuid sample.conn2)
                              sample.server) as [s1 out].
  destruct Hkick as (Hiff & Hsome & _).
  split; [reflexivity|]. split; [exact sample_range_order|].
  split; [exact Htr|]. split; [by apply Hiff|].
  destruct (Hsome Htr) as (cp & c & _ & _ & _ & Hsize & _).
  simpl. assert (Hs : size (core.conns sample.server) = 2%nat)
    by reflexivity.
  rewrite Hs in Hsize. by inversion Hsize.
Defined.

(** A third connection with a new UUID joins the sample server. *)
Lemma step_keeps_uuid_unique_witness :
  let ev := core.EvConnNew sample.connReq 3%positive sample2.conn3 in
  let s1 := core.onConnNew 3%positive sample2.conn3 sample.server in
  core.uuid_unique sample.server /\
  core.step ev sample.server = Some s1 /\
  core.absent (core.uuid sample2.conn3) sample.server /\
  core.uuid_unique s1.
Proof.
  intros ev s1.
  assert (Habs : core.absent (core.uuid sample2.conn3) sample.server).
  { intros cp c H.
    apply sample_lookup in H as [[-> ->]|[-> ->]]; discriminate. }
  split; [exact sample_uuid_unique|]. split; [reflexivity|].
  split; [exact Habs|].
  apply (step_keeps_uuid_unique ev sample.server s1 sample_uuid_unique
           eq_refl).
  intros req cp c [= _ _ <-]. exact Habs.
Defined.

(** A kick, a cancellation, [run]'s exit and a late cancellation. *)
Lemma steps_monotone_witness :
  let evs := [core.EvAPIConnsKick sample.order (core.uuid sample.conn1);
              core.EvCancel; core.EvCtxDone; core.EvCancel] in
  exists s1,
    core.steps evs sample.server = Some s1 /\
    core.allowOrigin s1 = "*" /\
    [] `prefix_of` core.closed s1 /\
    core.closed s1 = [1%positive] /\ core.running s1 = false.
Proof.
  intros evs.
  destruct (core.steps evs sample.server) as [s1|] eqn:Hsteps;
    [|discriminate Hsteps].
  exists s1. split; [reflexivity|].
  destruct (steps_monotone evs sample.server s1 Hsteps)
    as (Ho & _ & _ & Hc).
  split; [exact Ho|]. split; [exact Hc|].
  inversion Hsteps. by split.
Defined.

(** The third connection joins the sample server and is kicked. *)
Lemma newConn_then_kick_round_trip_witness :
  gochan.goSelect (core.offer true sample.server) = gochan.SelComm /\
  core.conns sample.server !! 3%positive = None /\
  core.absent (core.uuid sample2.conn3) sample.server /\
  let s1 := (core.newConn true sample.connReq 3%positive sample2.conn3
                          sample.server).1 in
  let s2 := (core.apiConnsKick true (map_to_list (core.conns s1))
                               (core.uuid sample2.conn3) s1).1 in
  core.conns s2 = core.conns sample.server /\
  core.closed s2 = [3%positive].
Proof.
  assert (Habs : core.absent (core.uuid sample2.conn3) sample.server).
  { intros cp c H.
    apply sample_lookup in H as [[-> ->]|[-> ->]]; discriminate. }
  split; [reflexivity|]. split; [reflexivity|]. split; [exact Habs|].
  pose proof (newConn_then_kick_round_trip sample.server true
                sample.connReq 3%positive sample2.conn3 eq_refl eq_refl
                Habs) as Hround.
  destruct (core.newConn true sample.connReq 3%positive sample2.conn3
                         sample.server) as [s1 out1] eqn:Hnew.
  destruct Hround as (_ & _ & Hkick).
  assert (Hsel : gochan.goSelect (core.offer true s1) = gochan.SelComm)
    by (inversion Hnew; reflexivity).
  destruct (Hkick true (map_to_list (core.conns s1)) Hsel
              (Permutation_refl _)) as [_ Hres].
  cbv zeta. cbn [fst].
  destruct (core.apiConnsKick true (map_to_list (core.conns s1))
                              (core.uuid sample2.conn3) s1) as [s2 out2].
  destruct Hres as (_ & Hconns & Hclosed). cbn [fst].
  split; [exact Hconns|exact Hclosed].
Defined.

(** The first sample connection closes itself. *)
Lemma connClose_forgets_witness :
  gochan.goSelect (core.offer true sample.server) = gochan.SelComm /\
  let s1 := (core.connClose true 1%positive sample.server).1 in
  core.conns s1 !! 1%positive = None /\
  core.conns s1 !! 2%positive = Some sample.conn2 /\
  core.closed s1 = [].
Proof.
  split; [reflexivity|].
  pose proof (connClose_forgets sample.server true 1%positive eq_refl)
    as Hclose.
  destruct (core.connClose true 1%positive sample.server) as [s1 out].
  destruct Hclose as (_ & Hgone & Hothers & Hclosed & _).
  simpl. split; [exact Hgone|]. split; [|exact Hclosed].
  rewrite (Hothers 2%positive) by discriminate. reflexivity.
Defined.

(** A server with an ICE UDP mux is started and closed. *)
Lemma newWebRTCServer_then_close_witness :
  exists open i,
    sample2.start sample2.everythingOpens = (open, inr i) /\
    open = [setup.HTTPListener ":8889"; setup.UDPMuxListener ":8189"] /\
    (setup.close i open).1.2 = [] /\
    core.running (setup.server (setup.close i open).1.1) = false.
Proof.
  destruct (sample2.start sample2.everythingOpens) as [open [err|i]] eqn:Hs;
    [discriminate Hs|].
  exists open, i. split; [reflexivity|].
  pose proof (newWebRTCServer_then_close sample2.everythingOpens ":8889"
                false "server.key" "server.crt" "*" false ":8189"
                EmptyString open i Hs)
    as (Hopen & Hln & Hudp & Htcp & _ & Hclose).
  split.
  - rewrite Hopen, Hln, Hudp, Htcp. reflexivity.
  - destruct (setup.close i open) as [[i1 open1] logs].
    destruct Hclose as (Hnone & Hstop & _). by split.
Defined.

(** The same start with the UDP port taken: the HTTP listener stays
    open. *)
Lemma newWebRTCServer_failure_witness :
  sample2.start sample2.udpTaken =
    ([setup.HTTPListener ":8889"],
     inl (errorString "bind: address already in use")) /\
  setup.ListenPacket sample2.udpTaken "udp" ":8189" =
    Some (errorString "bind: address already in use").
Proof.
  assert (Hs : sample2.start sample2.udpTaken =
            ([setup.HTTPListener ":8889"],
             inl (errorString "bind: address already in use")))
    by reflexivity.
  split; [exact Hs|].
  destruct (newWebRTCServer_failure sample2.udpTaken ":8889" false
              "server.key" "server.crt" "*" false ":8189" EmptyString
              _ _ Hs) as [[Hopen _]|[(_ & _ & Hfail)|(_ & Hne & _)]].
  - discriminate Hopen.
  - exact Hfail.
  - exfalso. by apply Hne.
Defined.

(** The segment "seg1" through the fresh sample processor. *)
Lemma processSegment_completed_witness :
  sample.PartRead "seg1" = inr [sample.video 9000; sample.audio 4800] /\
  exists p' r',
    hls.processSegment (list sample.userCall) sample.PartRead sample.now
                       sample.live sample.fresh hls.rt0 "seg1"
      = (p', r', gochan.Returned None) /\
    hls.sentTo (hls.videoProc p') = [sample.video 0] /\
    hls.nsel r' = 2%nat.
Proof.
  split; [reflexivity|].
  destruct (hls.processSegment (list sample.userCall) sample.PartRead
              sample.now sample.live sample.fresh hls.rt0 "seg1")
    as [[p' r'] out] eqn:Hseg.
  assert (Hout : out = gochan.Returned None).
  { apply (f_equal snd) in Hseg. simpl in Hseg. rewrite <- Hseg.
    reflexivity. }
  subst out. exists p', r'. split; [reflexivity|].
  destruct (processSegment_completed (list sample.userCall)
              sample.PartRead sample.now sample.live sample.fresh hls.rt0
              "seg1" _ p' r' eq_refl Hseg) as (_ & Hsent & Hsel & _).
  split; [exact Hsent|exact Hsel].
Defined.

(** The processor built from the sample init file. *)
Lemma constructed_processor_never_panics_witness :
  hls.newClientProcessorFMP4 (list sample.userCall) sample.InitRead
    sample.AVCCUnmarshal "init.mp4" sample.onTracks sample.onVideoData
    sample.onAudioData [] =
  Ok ([sample.GotTracks],
      inr (sample.fresh,
           option_list (hls.videoProc sample.fresh) ++
           option_list (hls.audioProc sample.fresh))) /\
  props.wellFormed sample.fresh /\
  forall m,
    (hls.run (list sample.userCall) sample.PartRead sample.now sample.gone
             sample.fresh hls.rt0 ["seg1"; "seg2"]).2
    <> gochan.Panicked m.
Proof.
  assert (Hnew : hls.newClientProcessorFMP4 (list sample.userCall)
            sample.InitRead sample.AVCCUnmarshal "init.mp4"
            sample.onTracks sample.onVideoData sample.onAudioData [] =
          Ok ([sample.GotTracks],
              inr (sample.fresh,
                   option_list (hls.videoProc sample.fresh) ++
                   option_list (hls.audioProc sample.fresh))))
    by reflexivity.
  destruct (constructed_processor_never_panics (list sample.userCall)
              sample.PartRead sample.now sample.gone sample.InitRead
              sample.AVCCUnmarshal "init.mp4" sample.onTracks
              sample.onVideoData sample.onAudioData [] _ _ _ Hnew)
    as [Hwf Hrun].
  split; [exact Hnew|]. split; [exact Hwf|].
  intros m. apply Hrun.
Defined.

(** Three segments of which the second is rejected. *)
Lemma run_stops_at_first_rejected_segment_witness :
  props.wellFormed sample.fresh /\
  props.always_comm sample.live /\
  let '(_, r', out) :=
    hls.run (list sample.userCall) sample.PartRead sample.now sample.live
            sample.fresh hls.rt0 ["seg1"; "broken"; "seg2"] in
  out = gochan.Returned (errorString "invalid part") /\
  hls.logs r' = ["processing segment"; "processing segment"].
Proof.
  assert (Hwf : props.wellFormed sample.fresh).
  { intros _. by eexists. }
  assert (Hlive : props.always_comm sample.live) by (intros i; reflexivity).
  split; [exact Hwf|]. split; [exact Hlive|].
  exact (run_stops_at_first_rejected_segment (list sample.userCall)
           sample.PartRead sample.now sample.live sample.fresh hls.rt0
           ["seg1"; "broken"; "seg2"] Hwf Hlive).
Defined.
